(** * Delta-Agent-Companion: behavior tree and memory system

    A shallow embedding of [src/behavior-tree/behavior_tree.py],
    [src/memory/memory_system.py] and the dict merge of
    [src/config/config_manager.py], followed by the properties of the
    specification that were checked against it and by further
    properties of the code.

    Conventions of the embedding.
    - [datetime] values are integers: microseconds since [datetime.min];
      a [timedelta] is a difference of two of them.
    - Python [int] is [Z]; Python [float] values are the rationals they
      denote ([Q]); where the source does float arithmetic the rounding of
      each operation is a parameter [rnd], left arbitrary.
    - A Python [dict] whose iteration order is irrelevant is a [gmap];
      where the order is observable (the [context] substituted into a
      condition) it is an association list.
    - [datetime.now()] reads an oracle: the world carries the readings the
      clock will give and the number of readings taken so far.  The
      logger stamps its lines with a clock of its own ([utcnow]); its
      calls never raise and are not part of the model, except for the
      line [_execute_action] writes.
    - Arguments have the types their annotations give; a caller hands
      over a definition or a list once, and does not mutate it
      afterwards: the objects a caller brings are new to the manager. *)

From Stdlib Require Import ZArith QArith List Ascii String DecimalString.
From Stdlib Require Import Permutation Sorted Lia Lqa.
From stdpp Require Import gmap strings list.

Set Warnings "-register-all".
Local Open Scope Z_scope.
Local Open Scope string_scope.

(** ** Fragments of the Python runtime used by the sources *)

Module Py.

(** Values found in a [Dict[str, Any]] execution context. *)
Inductive PyVal : Type :=
| PInt (n : Z)
| PStr (s : string)
| PBool (b : bool)
| PNone.

(** [str(value)]. *)
Definition str (v : PyVal) : string :=
  match v with
  | PInt n => NilZero.string_of_int (Z.to_int n)
  | PStr s => s
  | PBool true => "True"
  | PBool false => "False"
  | PNone => "None"
  end.

(** [s.replace(old, new)]: every non-overlapping occurrence of [old],
    scanning from the left.  [skip] counts the characters of a matched
    occurrence that are still to be dropped. *)
Fixpoint replace_from (old new : string) (skip : nat) (s : string) : string :=
  match s with
  | EmptyString => EmptyString
  | String c s' =>
      match skip with
      | S k => replace_from old new k s'
      | O =>
          if String.prefix old s
          then new +:+ replace_from old new (String.length old - 1) s'
          else String c (replace_from old new 0 s')
      end
  end.

(** For a non-empty [old], which is the only case the sources use
    (the placeholder [{key}] has at least two characters). *)
Definition replace (old new s : string) : string := replace_from old new 0 s.

(** [sorted(l, key=..., reverse=True)] and [l.sort(key=..., reverse=True)].
    Python's sort is stable also when reversed: elements with equal keys
    keep their original order.  [above y x] says that the key of [y] is
    strictly greater than the key of [x]. *)
Section Sorted.
Context {A : Type} (above : A -> A -> bool).

Fixpoint insert_desc (x : A) (l : list A) : list A :=
  match l with
  | [] => [x]
  | y :: l' => if above y x then y :: insert_desc x l' else x :: y :: l'
  end.

Definition sorted_desc (l : list A) : list A := foldr insert_desc [] l.
End Sorted.

(** The comparison a [key=] function with integer values gives. *)
Definition by_key {A : Type} (key : A -> Z) (y x : A) : bool := Z.ltb (key x) (key y).

(** [l[:n]] for a list and a non-negative [n]. *)
Definition slice_to {A : Type} (n : nat) (l : list A) : list A := firstn n l.

(** [l[:n]] for any integer [n]: a negative [n] counts from the end. *)
Definition slice {A : Type} (n : Z) (l : list A) : list A :=
  if Z.ltb n 0 then firstn (length l - Z.to_nat (- n)) l else firstn (Z.to_nat n) l.

(** [s.lower()], on the ASCII letters. *)
Definition lower_char (c : ascii) : ascii :=
  let n := nat_of_ascii c in
  if (Nat.leb 65 n && Nat.leb n 90)%bool then ascii_of_nat (n + 32) else c.

Fixpoint lower (s : string) : string :=
  match s with
  | EmptyString => EmptyString
  | String c s' => String (lower_char c) (lower s')
  end.

(** The ASCII characters [str.split()] treats as white space. *)
Definition is_space (c : ascii) : bool :=
  let n := nat_of_ascii c in
  ((Nat.leb 9 n && Nat.leb n 13) || (Nat.leb 28 n && Nat.leb n 32))%bool.

(** [s.split()]: the maximal runs without white space.  [cur] is the word
    being read. *)
Fixpoint split_from (cur : string) (s : string) : list string :=
  match s with
  | EmptyString => if String.eqb cur "" then [] else [cur]
  | String c s' =>
      if is_space c then
        (if String.eqb cur "" then split_from "" s' else cur :: split_from "" s')
      else split_from (cur +:+ String c "") s'
  end.

Definition split (s : string) : list string := split_from "" s.

(** [sub in s] for strings. *)
Fixpoint contains (sub s : string) : bool :=
  (String.prefix sub s ||
   match s with
   | EmptyString => false
   | String _ s' => contains sub s'
   end)%bool.

(** [len(set(a) & set(b))]. *)
Definition common (a b : list string) : nat :=
  length (remove_dups (list_intersection a b)).

(** [max(a, b)] and [min(a, b)] of two numbers: the first argument is
    returned unless the second is strictly better. *)
Definition max (a b : Q) : Q := if Qlt_le_dec a b then b else a.
Definition min (a b : Q) : Q := if Qlt_le_dec b a then b else a.

End Py.

(** ** behavior_tree.py: enumerations and plain records *)

Inductive StateType : Type := ACTION | CONDITION | COMPOSITE | ROOT.

Inductive StateStatus : Type := RUNNING | SUCCESS | FAILURE | IDLE.

#[global] Instance StateType_eq_dec : EqDecision StateType.
Proof. solve_decision. Defined.

#[global] Instance StateStatus_eq_dec : EqDecision StateStatus.
Proof. solve_decision. Defined.

Record StateMetadata : Type := mkStateMetadata {
  created_at : Z;
  modified_at : Z;
  created_by : string;
  execution_count : Z;
  last_execution : option Z;
  average_duration : Q;
  tags : list string
}.

Record StateDefinition : Type := mkStateDefinition {
  id : string;
  name : string;
  type : StateType;
  priority : Z;
  conditions : list string;
  actions : list string;
  children : list string;
  metadata : StateMetadata;
  timeout_seconds : Z
}.

(** [StateMetadata()] with its [default_factory] fields read at [now]. *)
Definition StateMetadata_default (now1 now2 : Z) : StateMetadata :=
  {| created_at := now1; modified_at := now2; created_by := "system";
     execution_count := 0; last_execution := None;
     average_duration := 0%Q; tags := [] |}.

(** The class of a [BehaviorState] object.  It is fixed when the object is
    built; [definition.type] can be reassigned later, the class cannot. *)
Inductive StateClass : Type :=
| ActionState | ConditionState | CompositeState | RootState.

(** [StateDefinition.to_dict()]: the JSON-ready form of a definition.  The
    enumeration is stored by its string value; the timestamps are stored in
    ISO format, which [datetime.fromisoformat] reads back exactly, so they
    stay integers here. *)
Record StateDict : Type := mkStateDict {
  d_id : string;
  d_name : string;
  d_type : string;
  d_priority : Z;
  d_conditions : list string;
  d_actions : list string;
  d_children : list string;
  d_timeout_seconds : Z;
  d_metadata : StateMetadata
}.

(** ** The world outside the objects: clock, log and disk *)

(** The record of an execution.  [EvAction] is the line
    [_execute_action] logs for each action it is given; [EvExecute] marks
    the entry of an [execute] call, which the source does not log: it is
    kept here so that "no child was executed" can be said of a world. *)
Inductive Event : Type :=
| EvExecute (state_id : string)
| EvAction (state_id action : string).

(** What [behavior_states.json] is on the disk: no file, a file that
    [json.load] cannot read (empty, or cut short by a write that failed),
    or the dict a complete write left. *)
Inductive SavedFile : Type :=
| NoFile
| Unreadable
| Saved (state_data : gmap string StateDict).

Record World : Type := mkWorld {
  clock : nat -> Z;            (* the readings [datetime.now()] will give *)
  ticks : nat;                 (* how many readings were taken *)
  trace : list Event;
  states_file : SavedFile;     (* behavior_states.json *)
  disk_ok : bool;              (* whether writing the file succeeds *)
  fails_after_open : bool      (* when it does not: whether the failure
                                  comes after [open] has emptied the file *)
}.

(** [datetime.now()]. *)
Definition datetime_now (w : World) : Z * World :=
  (clock w (ticks w),
   {| clock := clock w; ticks := S (ticks w); trace := trace w;
      states_file := states_file w; disk_ok := disk_ok w;
      fails_after_open := fails_after_open w |}).

Definition emit (e : Event) (w : World) : World :=
  {| clock := clock w; ticks := ticks w; trace := trace w ++ [e];
     states_file := states_file w; disk_ok := disk_ok w;
     fails_after_open := fails_after_open w |}.

Definition set_states_file (f : SavedFile) (w : World) : World :=
  {| clock := clock w; ticks := ticks w; trace := trace w;
     states_file := f; disk_ok := disk_ok w;
     fails_after_open := fails_after_open w |}.

(** A write that runs to its end. *)
Definition write_states_file (data : gmap string StateDict) (w : World) : World :=
  set_states_file (Saved data) w.

(** ** behavior_tree.py: executing a node *)

Module Exec.

(** An execution context, in the iteration order of the dict. *)
Definition Context : Type := list (string * Py.PyVal).

(** A [BehaviorState] together with the objects of its ownership list,
    read as a tree.  What a node holds in [status] and [start_time]
    before a call has no influence on the call: [execute] assigns both
    before it reads them and the evaluator is not given them.  An object
    that hangs under two parents may therefore be read as two copies. *)
Inductive BehaviorState : Type := mkBehaviorState {
  cls : StateClass;
  definition : StateDefinition;
  status : StateStatus;
  start_time : option Z;
  attached : list BehaviorState
}.

Definition set_status (st : StateStatus) (s : BehaviorState) : BehaviorState :=
  {| cls := cls s; definition := definition s; status := st;
     start_time := start_time s; attached := attached s |}.

Definition set_start_time (t : Z) (s : BehaviorState) : BehaviorState :=
  {| cls := cls s; definition := definition s; status := status s;
     start_time := Some t; attached := attached s |}.

Definition set_attached (l : list BehaviorState) (s : BehaviorState) : BehaviorState :=
  {| cls := cls s; definition := definition s; status := status s;
     start_time := start_time s; attached := l |}.

(** The outcome of an [execute] call: the returned status, the object
    after the call and the world after the call. *)
Definition Outcome : Type := StateStatus * BehaviorState * World.

Section Execute.

(** [eval(condition)] inside [_evaluate_condition]: [Some b] is the
    truth value of the result, [None] is any exception.  The evaluator is
    the restricted evaluator of §4.1: it has no effect, and besides the
    substituted expression it may read the context and the definition of
    the node. *)
Variable py_eval : StateDefinition -> Context -> string -> option bool.

(** [_execute_action]: [Some b] is the returned flag, [None] an
    exception.  The method of the source is the placeholder
    [_execute_action] below, which returns [True]. *)
Variable action_runner : string -> Context -> option bool.

(** The loop [for key, value in context.items(): condition = condition.replace(...)]. *)
Definition substitute (condition : string) (context : Context) : string :=
  fold_left
    (fun cond kv => Py.replace ("{" +:+ fst kv +:+ "}") (Py.str (snd kv)) cond)
    context condition.

Definition _evaluate_condition (self : BehaviorState)
    (condition : string) (context : Context) : bool :=
  match py_eval (definition self) context (substitute condition context) with
  | Some b => b
  | None => false
  end.

(** The loop of [can_execute], with its early [return False]. *)
Fixpoint all_conditions (self : BehaviorState) (conds : list string)
    (context : Context) : bool :=
  match conds with
  | [] => true
  | c :: rest =>
      if negb (_evaluate_condition self c context) then false
      else all_conditions self rest context
  end.

Definition can_execute (self : BehaviorState) (context : Context) : bool :=
  all_conditions self (conditions (definition self)) context.

(** [is_timed_out]: one clock reading when [start_time] is set. *)
Definition is_timed_out (self : BehaviorState) (w : World) : bool * World :=
  match start_time self with
  | None => (false, w)
  | Some t0 =>
      let '(now, w1) := datetime_now w in
      (Z.ltb (timeout_seconds (definition self) * 1000000) (now - t0), w1)
  end.

(** The [for action in self.definition.actions] loop of
    [ActionState.execute]; the [except] branch is the [None] case. *)
Fixpoint run_actions (self : BehaviorState) (acts : list string)
    (context : Context) (w : World) : StateStatus * World :=
  match acts with
  | [] => (SUCCESS, w)
  | a :: rest =>
      let w1 := emit (EvAction (id (definition self)) a) w in
      match action_runner a context with
      | Some true =>
          let '(late, w2) := is_timed_out self w1 in
          if late then (FAILURE, w2) else run_actions self rest context w2
      | Some false => (FAILURE, w1)
      | None => (FAILURE, w1)
      end
  end.

Definition ActionState_execute (self : BehaviorState) (context : Context)
    (w : World) : Outcome :=
  let w0 := emit (EvExecute (id (definition self))) w in
  if negb (can_execute self context) then (FAILURE, self, w0)
  else
    let '(now, w1) := datetime_now w0 in
    let self1 := set_start_time now (set_status RUNNING self) in
    let '(st, w2) := run_actions self1 (actions (definition self1)) context w1 in
    (st, set_status st self1, w2).

Definition ConditionState_execute (self : BehaviorState) (context : Context)
    (w : World) : Outcome :=
  let w0 := emit (EvExecute (id (definition self))) w in
  let '(now, w1) := datetime_now w0 in
  let self1 := set_start_time now (set_status RUNNING self) in
  let st := if can_execute self1 context then SUCCESS else FAILURE in
  (st, set_status st self1, w1).

(** A child in the loop of [CompositeState.execute]: its position in
    [self.children], its priority, and its bound [execute] method. *)
Record Child : Type := mkChild {
  position : nat;
  child_priority : Z;
  child_execute : Context -> World -> Outcome
}.

(** [sorted(self.children, key=lambda x: x.definition.priority, reverse=True)]. *)
Definition sort_children (l : list Child) : list Child :=
  Py.sorted_desc (Py.by_key child_priority) l.

(** The [for child in sorted_children] loop.  The children are mutated
    in place: [kids] is [self.children] with the objects as they are
    after the calls made so far. *)
Fixpoint run_children (self : BehaviorState) (cs : list Child)
    (context : Context) (kids : list BehaviorState) (w : World)
    : StateStatus * list BehaviorState * World :=
  match cs with
  | [] => (SUCCESS, kids, w)
  | c :: rest =>
      let '(late, w1) := is_timed_out self w in
      if late then (FAILURE, kids, w1)
      else
        let '(child_status, child', w2) := child_execute c context w1 in
        let kids' := <[position c := child']> kids in
        match child_status with
        | FAILURE => (FAILURE, kids', w2)
        | RUNNING => (RUNNING, kids', w2)
        | _ => run_children self rest context kids' w2
        end
  end.

Definition CompositeState_execute (self : BehaviorState)
    (kids : list Child) (context : Context) (w : World) : Outcome :=
  let w0 := emit (EvExecute (id (definition self))) w in
  if negb (can_execute self context) then (FAILURE, self, w0)
  else
    let '(now, w1) := datetime_now w0 in
    let self1 := set_start_time now (set_status RUNNING self) in
    let '(st, kids', w2) :=
      run_children self1 (sort_children kids) context (attached self1) w1 in
    (st, set_attached kids' (set_status st self1), w2).

(** The bound methods of a list of children, numbered by position. *)
Fixpoint number_children (i : nat)
    (l : list (Z * (Context -> World -> Outcome))) : list Child :=
  match l with
  | [] => []
  | (p, run) :: l' => mkChild i p run :: number_children (S i) l'
  end.

(** Dynamic dispatch of [execute] on the class of the object.
    [RootState] inherits [CompositeState.execute]. *)
Fixpoint execute (self : BehaviorState) : Context -> World -> Outcome :=
  match cls self with
  | ActionState => ActionState_execute self
  | ConditionState => ConditionState_execute self
  | CompositeState | RootState =>
      CompositeState_execute self
        (number_children 0
           (map (fun c => (priority (definition c), execute c))
                (attached self)))
  end.

End Execute.

(** [ActionState._execute_action] as the source has it: a placeholder
    that logs and returns [True]. *)
Definition _execute_action (action : string) (context : Context) : option bool :=
  Some true.

End Exec.

(** ** behavior_tree.py: the manager *)

Module Tree.

(** Exceptions that leave or cross the manager's methods. *)
Inductive Exception : Type :=
| BehaviorTreeError (msg : string)
| ValueError (msg : string)
| OSError.

Inductive Result (A : Type) : Type :=
| Return (a : A)
| Raise (e : Exception).
Arguments Return {A} a.
Arguments Raise {A} e.

(** [BehaviorState] objects live in a store and are known by reference:
    the registry and every ownership list hold references, so a change of
    an object is seen through all of them.

    The lists of a definition are objects too, and [to_dict] and
    [from_dict] hand them on as they are: a node that [restore_backup]
    builds holds the very [children] list of the node the snapshot was
    taken from.  [add_state] and [remove_state] change that list in
    place, so which list object a node holds is part of the model:
    [children_id] is the identity of the list in [definition.children],
    and [definition] gives what the list holds now.  The objects of the
    store with one [children_id] hold one list; a change of it in place
    is made in every one of them ([change_list]).  No code changes a
    [conditions], [actions] or [tags] list in place: sharing one cannot
    be seen, and these lists are values. *)
Definition ref : Type := nat.

Record BehaviorState : Type := mkBehaviorState {
  cls : StateClass;
  definition : StateDefinition;
  status : StateStatus;
  start_time : option Z;
  attached : list ref;         (* [self.children], the ownership list *)
  children_id : nat            (* which list object [definition.children] is *)
}.

Record BehaviorTreeManager : Type := mkManager {
  objects : list BehaviorState;        (* the store; a reference is an index *)
  states : gmap string ref;            (* [self.states] *)
  root_state : ref;                    (* [self.root_state] *)
  modification_cooldown : Z;           (* a [timedelta], in microseconds *)
  last_modification : Z;
  lists_made : nat     (* how many [children] list objects the manager has
                          made or was given: the next one gets this identity *)
}.

Definition with_objects (o : list BehaviorState) (m : BehaviorTreeManager) : BehaviorTreeManager :=
  {| objects := o; states := states m; root_state := root_state m;
     modification_cooldown := modification_cooldown m;
     last_modification := last_modification m; lists_made := lists_made m |}.

Definition with_states (r : gmap string ref) (m : BehaviorTreeManager) : BehaviorTreeManager :=
  {| objects := objects m; states := r; root_state := root_state m;
     modification_cooldown := modification_cooldown m;
     last_modification := last_modification m; lists_made := lists_made m |}.

Definition with_last_modification (t : Z) (m : BehaviorTreeManager) : BehaviorTreeManager :=
  {| objects := objects m; states := states m; root_state := root_state m;
     modification_cooldown := modification_cooldown m;
     last_modification := t; lists_made := lists_made m |}.

(** A list object that is new to the manager, and the identity it gets. *)
Definition new_list (m : BehaviorTreeManager) : nat * BehaviorTreeManager :=
  (lists_made m,
   {| objects := objects m; states := states m; root_state := root_state m;
      modification_cooldown := modification_cooldown m;
      last_modification := last_modification m;
      lists_made := S (lists_made m) |}).

Definition set_definition (d : StateDefinition) (s : BehaviorState) : BehaviorState :=
  {| cls := cls s; definition := d; status := status s;
     start_time := start_time s; attached := attached s;
     children_id := children_id s |}.

Definition set_attached (l : list ref) (s : BehaviorState) : BehaviorState :=
  {| cls := cls s; definition := definition s; status := status s;
     start_time := start_time s; attached := l;
     children_id := children_id s |}.

Definition set_children_id (l : nat) (s : BehaviorState) : BehaviorState :=
  {| cls := cls s; definition := definition s; status := status s;
     start_time := start_time s; attached := attached s;
     children_id := l |}.

Definition set_children (l : list string) (d : StateDefinition) : StateDefinition :=
  {| id := id d; name := name d; type := type d; priority := priority d;
     conditions := conditions d; actions := actions d; children := l;
     metadata := metadata d; timeout_seconds := timeout_seconds d |}.

Definition set_modified_at (t : Z) (d : StateDefinition) : StateDefinition :=
  {| id := id d; name := name d; type := type d; priority := priority d;
     conditions := conditions d; actions := actions d; children := children d;
     metadata :=
       {| created_at := created_at (metadata d); modified_at := t;
          created_by := created_by (metadata d);
          execution_count := execution_count (metadata d);
          last_execution := last_execution (metadata d);
          average_duration := average_duration (metadata d);
          tags := tags (metadata d) |};
     timeout_seconds := timeout_seconds d |}.

(** *** StateType values, to_dict, from_dict *)

Definition StateType_value (t : StateType) : string :=
  match t with
  | ACTION => "action"
  | CONDITION => "condition"
  | COMPOSITE => "composite"
  | ROOT => "root"
  end.

(** [StateType(value)]; an unknown value raises [ValueError]. *)
Definition StateType_of_value (v : string) : option StateType :=
  if String.eqb v "action" then Some ACTION
  else if String.eqb v "condition" then Some CONDITION
  else if String.eqb v "composite" then Some COMPOSITE
  else if String.eqb v "root" then Some ROOT
  else None.

(** The dict [to_dict] returns, as an object in memory: what it holds
    ([fields]) and, since its [children] entry is the list object of the
    definition and no copy, the identity of that list.  What [json.dump]
    writes of it is [fields]. *)
Record StateData : Type := mkStateData {
  fields : StateDict;
  children_list : nat
}.

(** [to_dict] of a definition whose [children] is the list object [l]. *)
Definition to_dict (d : StateDefinition) (l : nat) : StateData :=
  {| fields :=
       {| d_id := id d; d_name := name d; d_type := StateType_value (type d);
          d_priority := priority d; d_conditions := conditions d;
          d_actions := actions d; d_children := children d;
          d_timeout_seconds := timeout_seconds d; d_metadata := metadata d |};
     children_list := l |}.

(** [from_dict]: the definition built, and the list object it holds in
    [children], which is the one of the dict.  Each
    [metadata_data.get("created_at", datetime.now().isoformat())]
    evaluates its default before the lookup: the clock is read twice, also
    when the keys are present. *)
Definition from_dict (data : StateData) (w : World)
    : Result (StateDefinition * nat) * World :=
  let '(_, w1) := datetime_now w in
  let '(_, w2) := datetime_now w1 in
  (match StateType_of_value (d_type (fields data)) with
   | Some t =>
       Return
         ({| id := d_id (fields data); name := d_name (fields data); type := t;
             priority := d_priority (fields data);
             conditions := d_conditions (fields data);
             actions := d_actions (fields data);
             children := d_children (fields data);
             metadata := d_metadata (fields data);
             timeout_seconds := d_timeout_seconds (fields data) |},
          children_list data)
   | None =>
       Raise (ValueError (d_type (fields data) +:+ " is not a valid StateType"))
   end, w2).

(** *** Constructors and the factory *)

(** [BehaviorState.__init__] with a definition whose [children] is the
    list object [l]. *)
Definition new_state (c : StateClass) (d : StateDefinition) (l : nat) : BehaviorState :=
  {| cls := c; definition := d; status := IDLE; start_time := None; attached := [];
     children_id := l |}.

(** [RootState.__init__]: it takes no definition and always builds its own,
    with a new empty list, [fresh], for [children]; [StateMetadata()] reads
    the clock for each of its two timestamps. *)
Definition RootState_init (fresh : nat) (w : World) : BehaviorState * World :=
  let '(t1, w1) := datetime_now w in
  let '(t2, w2) := datetime_now w1 in
  (new_state RootState
     {| id := "root"; name := "Root State"; type := ROOT; priority := 10;
        conditions := []; actions := []; children := [];
        metadata := StateMetadata_default t1 t2; timeout_seconds := 300 |}
     fresh,
   w2).

(** [StateFactory.create_state] of a definition whose [children] is the
    list object [l]: the node keeps the definition it is given, and so
    the list, unless it is a root, which makes its own ([fresh]).  The
    enumeration is closed, so the final [raise] of the source has no case
    here. *)
Definition create_state (d : StateDefinition) (l fresh : nat) (w : World)
    : BehaviorState * World :=
  match type d with
  | ACTION => (new_state ActionState d l, w)
  | CONDITION => (new_state ConditionState d l, w)
  | COMPOSITE => (new_state CompositeState d l, w)
  | ROOT => RootState_init fresh w
  end.

(** Putting a new object in the store. *)
Definition alloc (s : BehaviorState) (m : BehaviorTreeManager) : ref * BehaviorTreeManager :=
  (length (objects m), with_objects (objects m ++ [s]) m).

Definition update (r : ref) (f : BehaviorState -> BehaviorState)
    (m : BehaviorTreeManager) : BehaviorTreeManager :=
  match objects m !! r with
  | Some s => with_objects (<[r := f s]> (objects m)) m
  | None => m
  end.

(** The object registered under an id. *)
Definition state_of (m : BehaviorTreeManager) (state_id : string) : option BehaviorState :=
  r ← states m !! state_id; objects m !! r.

(** *** Backup, restore, persistence *)

(** [create_backup] and the dict built by [save_states]. *)
Definition create_backup (m : BehaviorTreeManager) : gmap string StateData :=
  omap (fun r => (fun s => to_dict (definition s) (children_id s)) <$> objects m !! r)
       (states m).

(** [save_states]: [open(..., 'w')] empties the file, then [json.dump]
    writes what the dict holds.  The write can fail: before the file is
    opened, which leaves the file as it was, or after, which leaves a
    file that is empty or cut short. *)
Definition save_states (m : BehaviorTreeManager) (w : World) : Result unit * World :=
  if disk_ok w then (Return tt, write_states_file (fields <$> create_backup m) w)
  else if fails_after_open w then (Raise OSError, set_states_file Unreadable w)
  else (Raise OSError, w).

(** A change in place of the list object [l]: it is seen through every
    object that holds [l] in [definition.children]. *)
Definition in_list (l : nat) (f : list string -> list string)
    (s : BehaviorState) : BehaviorState :=
  if Nat.eqb (children_id s) l
  then set_definition (set_children (f (children (definition s))) (definition s)) s
  else s.

Definition change_list (l : nat) (f : list string -> list string)
    (m : BehaviorTreeManager) : BehaviorTreeManager :=
  with_objects (in_list l f <$> objects m) m.

(** [add_child]. *)
Definition add_child (child : ref) (s : BehaviorState) : BehaviorState :=
  set_attached (attached s ++ [child]) s.

(** [remove_child]: the children whose definition carries another id stay. *)
Definition remove_child (m : BehaviorTreeManager) (child_id : string)
    (s : BehaviorState) : BehaviorState :=
  set_attached
    (List.filter (fun c => match objects m !! c with
                           | Some o => negb (String.eqb (id (definition o)) child_id)
                           | None => true
                           end) (attached s)) s.

(** [_rebuild_tree_structure]: every registered object gets its ownership
    list emptied, then refilled from [definition.children], skipping the
    ids that are not registered. *)
Definition rebuild_one (m : BehaviorTreeManager) (s : BehaviorState) : BehaviorState :=
  set_attached (omap (fun child_id => states m !! child_id) (children (definition s))) s.

Definition _rebuild_tree_structure (m : BehaviorTreeManager) : BehaviorTreeManager :=
  foldr (fun kr acc => update (snd kr) (rebuild_one acc) acc) m (map_to_list (states m)).

(** One turn of the loop of [restore_backup] and [load_states]:
    [from_dict], the factory, the registration.  An identity is set aside
    for the list a root makes for itself. *)
Definition restore_entry (state_id : string) (data : StateData)
    (m : BehaviorTreeManager) (w : World)
    : Result unit * BehaviorTreeManager * World :=
  match from_dict data w with
  | (Raise e, w1) => (Raise e, m, w1)
  | (Return (d, l), w1) =>
      let '(fresh, m0) := new_list m in
      let '(s, w2) := create_state d l fresh w1 in
      let '(r, m1) := alloc s m0 in
      (Return tt, with_states (<[state_id := r]> (states m1)) m1, w2)
  end.

(** The loop over the items of a dict.  [dict_of] gives the dict of an
    item as the object it is when its turn comes. *)
Fixpoint restore_entries {A : Type} (dict_of : A -> BehaviorTreeManager -> StateData)
    (l : list (string * A)) (m : BehaviorTreeManager) (w : World)
    : Result unit * BehaviorTreeManager * World :=
  match l with
  | [] => (Return tt, m, w)
  | (state_id, item) :: rest =>
      match restore_entry state_id (dict_of item m) m w with
      | (Raise e, m1, w1) => (Raise e, m1, w1)
      | (Return _, m1, w1) => restore_entries dict_of rest m1 w1
      end
  end.

(** An item of a snapshot is the dict [to_dict] built. *)
Definition kept (data : StateData) (m : BehaviorTreeManager) : StateData := data.

(** An item of the file is a dict [json.load] built: its lists are new. *)
Definition loaded (data : StateDict) (m : BehaviorTreeManager) : StateData :=
  {| fields := data; children_list := lists_made m |}.

(** [restore_backup].  [backup] is the snapshot as it is when the call is
    made: a snapshot kept from an earlier [create_backup] holds the lists
    of the nodes it was taken from, and so what [add_state] and
    [remove_state] have made of them since. *)
Definition restore_backup (backup : gmap string StateData)
    (m : BehaviorTreeManager) (w : World)
    : Result unit * BehaviorTreeManager * World :=
  let m0 := with_states ∅ m in
  match restore_entries kept (map_to_list backup) m0 w with
  | (Return _, m1, w1) => (Return tt, _rebuild_tree_structure m1, w1)
  | (Raise e, m1, w1) => (Raise e, m1, w1)
  end.

(** [load_states]: nothing is done without a file; the entry of the root
    is skipped; any exception, that of a file that cannot be read too, is
    logged and swallowed. *)
Definition load_states (m : BehaviorTreeManager) (w : World)
    : BehaviorTreeManager * World :=
  match states_file w with
  | NoFile => (m, w)
  | Unreadable => (m, w)
  | Saved state_data =>
      match restore_entries loaded
              (List.filter (fun kd => negb (String.eqb (fst kd) "root"))
                           (map_to_list state_data)) m w with
      | (Return _, m1, w1) => (_rebuild_tree_structure m1, w1)
      | (Raise _, m1, w1) => (m1, w1)
      end
  end.

(** [BehaviorTreeManager.__init__]; [datetime.min] is the origin of time.
    The list of the root is the first list object of the manager. *)
Definition init (w : World) : BehaviorTreeManager * World :=
  let '(root, w1) := RootState_init 0 w in
  load_states
    {| objects := [root]; states := {["root" := 0%nat]}; root_state := 0%nat;
       modification_cooldown := 60 * 1000000; last_modification := 0;
       lists_made := 1 |}
    w1.

(** *** validate_tree *)

(** [check_cycles]: [visited] is the set shared by the whole traversal,
    [path] the set each call receives as a copy.  Every call that gets
    past the two membership tests adds a new id to [visited] and recurses
    only if the id is registered, so the depth never exceeds the size of
    the registry plus one; [fuel] counts the nested calls still allowed and
    [None] is Python's [RecursionError]. *)
Fixpoint check_cycles (fuel : nat) (m : BehaviorTreeManager) (state_id : string)
    (path visited : gset string) : option (bool * gset string) :=
  match fuel with
  | O => None
  | S fuel' =>
      if decide (state_id ∈ path) then Some (false, visited)
      else if decide (state_id ∈ visited) then Some (true, visited)
      else
        let visited1 := {[state_id]} ∪ visited in
        let path1 := {[state_id]} ∪ path in
        match state_of m state_id with
        | None => Some (false, visited1)
        | Some s =>
            (fix each_child (cs : list string) (vis : gset string) :=
               match cs with
               | [] => Some (true, vis)
               | child_id :: rest =>
                   match check_cycles fuel' m child_id path1 vis with
                   | Some (true, vis') => each_child rest vis'
                   | other => other
                   end
               end) (children (definition s)) visited1
        end
  end.

(** [validate_tree]; its [except Exception] turns any exception into [False]. *)
Definition validate_tree (m : BehaviorTreeManager) : bool :=
  match check_cycles (S (size (states m))) m "root" ∅ ∅ with
  | Some (ok, _) => ok
  | None => false
  end.

(** *** add_state, remove_state, modify_state *)

Definition add_state (d : StateDefinition) (parent_id : string)
    (m : BehaviorTreeManager) (w : World)
    : Result bool * BehaviorTreeManager * World :=
  match states m !! id d with
  | Some _ =>
      (Raise (BehaviorTreeError ("State with ID '" +:+ id d +:+ "' already exists")), m, w)
  | None =>
      match states m !! parent_id with
      | None =>
          (Raise (BehaviorTreeError ("Parent state '" +:+ parent_id +:+ "' not found")), m, w)
      | Some _ =>
          (* the list of the definition the caller brings (a root makes
             its own instead) *)
          let '(l, m0) := new_list m in
          let '(s, w1) := create_state d l l w in
          let '(r, m1) := alloc s m0 in
          let m2 := with_states (<[id d := r]> (states m1)) m1 in
          match states m2 !! parent_id with
          | None => (Raise (BehaviorTreeError "KeyError"), m2, w1)
          | Some p =>
              let m3 := update p (add_child r) m2 in
              let m4 :=
                match objects m3 !! p with
                | Some ps =>
                    if bool_decide (id d ∈ children (definition ps)) then m3
                    else change_list (children_id ps)
                           (fun items => (items ++ [id d])%list) m3
                | None => m3
                end in
              match save_states m4 w1 with
              | (Return _, w2) => (Return true, m4, w2)
              | (Raise e, w2) => (Raise e, m4, w2)
              end
          end
      end
  end.

(** [list.remove(x)]: the first occurrence only. *)
Fixpoint remove_first (x : string) (l : list string) : list string :=
  match l with
  | [] => []
  | y :: l' => if String.eqb y x then l' else y :: remove_first x l'
  end.

(** One turn of the loop of [remove_state] over [self.states.values()],
    for the object [r]: [children.remove] changes the list in place,
    [remove_child] gives the object another ownership list. *)
Definition strip_child (state_id : string) (r : ref)
    (m : BehaviorTreeManager) : BehaviorTreeManager :=
  match objects m !! r with
  | Some s =>
      if bool_decide (state_id ∈ children (definition s)) then
        let m1 := change_list (children_id s) (remove_first state_id) m in
        update r (remove_child m1 state_id) m1
      else m
  | None => m
  end.

Definition remove_state (state_id : string)
    (m : BehaviorTreeManager) (w : World)
    : Result bool * BehaviorTreeManager * World :=
  if String.eqb state_id "root" then
    (Raise (BehaviorTreeError "Cannot remove root state"), m, w)
  else
    match states m !! state_id with
    | None =>
        (Raise (BehaviorTreeError ("State '" +:+ state_id +:+ "' not found")), m, w)
    | Some _ =>
        let m1 :=
          foldr (fun kr acc => strip_child state_id (snd kr) acc)
                m (map_to_list (states m)) in
        let m2 := with_states (delete state_id (states m1)) m1 in
        match save_states m2 w with
        | (Return _, w1) => (Return true, m2, w1)
        | (Raise e, w1) => (Raise e, m2, w1)
        end
    end.

(** An entry of the [updates] dict of [modify_state], with a value of the
    type the field has.  [OtherKey] is a key for which [hasattr] is false:
    the loop skips it. *)
Inductive FieldUpdate : Type :=
| SetId (v : string)
| SetName (v : string)
| SetType (v : StateType)
| SetPriority (v : Z)
| SetConditions (v : list string)
| SetActions (v : list string)
| SetChildren (v : list string)
| SetMetadata (v : StateMetadata)
| SetTimeoutSeconds (v : Z)
| OtherKey (key : string).

(** [setattr(state.definition, key, value)]. *)
Definition apply_update (d : StateDefinition) (u : FieldUpdate) : StateDefinition :=
  match u with
  | SetId v =>
      {| id := v; name := name d; type := type d; priority := priority d;
         conditions := conditions d; actions := actions d; children := children d;
         metadata := metadata d; timeout_seconds := timeout_seconds d |}
  | SetName v =>
      {| id := id d; name := v; type := type d; priority := priority d;
         conditions := conditions d; actions := actions d; children := children d;
         metadata := metadata d; timeout_seconds := timeout_seconds d |}
  | SetType v =>
      {| id := id d; name := name d; type := v; priority := priority d;
         conditions := conditions d; actions := actions d; children := children d;
         metadata := metadata d; timeout_seconds := timeout_seconds d |}
  | SetPriority v =>
      {| id := id d; name := name d; type := type d; priority := v;
         conditions := conditions d; actions := actions d; children := children d;
         metadata := metadata d; timeout_seconds := timeout_seconds d |}
  | SetConditions v =>
      {| id := id d; name := name d; type := type d; priority := priority d;
         conditions := v; actions := actions d; children := children d;
         metadata := metadata d; timeout_seconds := timeout_seconds d |}
  | SetActions v =>
      {| id := id d; name := name d; type := type d; priority := priority d;
         conditions := conditions d; actions := v; children := children d;
         metadata := metadata d; timeout_seconds := timeout_seconds d |}
  | SetChildren v => set_children v d
  | SetMetadata v =>
      {| id := id d; name := name d; type := type d; priority := priority d;
         conditions := conditions d; actions := actions d; children := children d;
         metadata := v; timeout_seconds := timeout_seconds d |}
  | SetTimeoutSeconds v =>
      {| id := id d; name := name d; type := type d; priority := priority d;
         conditions := conditions d; actions := actions d; children := children d;
         metadata := metadata d; timeout_seconds := v |}
  | OtherKey _ => d
  end.

(** Whether an entry of [updates] gives [children] another list object. *)
Definition rebinds_children (u : FieldUpdate) : bool :=
  match u with
  | SetChildren _ => true
  | _ => false
  end.

(** The loop over [updates.items()]: each [setattr] replaces a field; a
    [children] entry makes the definition hold the list object of the
    caller, [l]. *)
Definition apply_updates (updates : list FieldUpdate) (l : nat)
    (s : BehaviorState) : BehaviorState :=
  set_children_id (if existsb rebinds_children updates then l else children_id s)
    (set_definition (fold_left apply_update updates (definition s)) s).

(** The [except Exception] handler of [modify_state]. *)
Definition modify_state_except (backup : gmap string StateData)
    (m : BehaviorTreeManager) (w : World)
    : Result bool * BehaviorTreeManager * World :=
  match restore_backup backup m w with
  | (Return _, m1, w1) => (Return false, m1, w1)
  | (Raise e, m1, w1) => (Raise e, m1, w1)
  end.

Definition modify_state (state_id : string) (updates : list FieldUpdate)
    (m : BehaviorTreeManager) (w : World)
    : Result bool * BehaviorTreeManager * World :=
  match states m !! state_id with
  | None =>
      (Raise (BehaviorTreeError ("State '" +:+ state_id +:+ "' not found")), m, w)
  | Some r =>
      let '(now, w1) := datetime_now w in
      if Z.ltb (now - last_modification m) (modification_cooldown m) then
        (Raise (BehaviorTreeError "Modification cooldown active"), m, w1)
      else
        let backup := create_backup m in
        let '(l, m0) := new_list m in
        let m1 := update r (apply_updates updates l) m0 in
        let '(t2, w2) := datetime_now w1 in
        let m2 := update r (fun s => set_definition (set_modified_at t2 (definition s)) s) m1 in
        let '(t3, w3) := datetime_now w2 in
        let m3 := with_last_modification t3 m2 in
        if negb (validate_tree m3) then
          match restore_backup backup m3 w3 with
          | (Return _, m4, w4) => (Return false, m4, w4)
          | (Raise _, m4, w4) => modify_state_except backup m4 w4
          end
        else
          match save_states m3 w3 with
          | (Return _, w4) => (Return true, m3, w4)
          | (Raise _, w4) => modify_state_except backup m3 w4
          end
  end.

(** *** What a caller can observe of the tree *)

(** The ids of the objects in the ownership list of the node registered
    under [state_id]. *)
Definition attached_ids (m : BehaviorTreeManager) (state_id : string)
    : option (list string) :=
  s ← state_of m state_id;
  Some (omap (fun r => (fun o => id (definition o)) <$> objects m !! r) (attached s)).

Definition definition_of (m : BehaviorTreeManager) (state_id : string)
    : option StateDefinition :=
  definition <$> state_of m state_id.

End Tree.

(** ** memory_system.py *)

Module Mem.

Inductive MemoryType : Type := EPISODIC | SEMANTIC | WORKING | PROCEDURAL.

#[global] Instance MemoryType_eq_dec : EqDecision MemoryType.
Proof. solve_decision. Defined.

(** The keys of a context dict that the calculator reads, with the value
    [context.get] gives when a key is absent: [{}] is [empty_context]. *)
Record Context : Type := mkContext {
  ctx_tags : list string;
  ctx_current_states : list string;
  ctx_content : string
}.

Definition empty_context : Context :=
  {| ctx_tags := []; ctx_current_states := []; ctx_content := "" |}.

Record Memory : Type := mkMemory {
  id : string;
  content : Py.PyVal;
  type : MemoryType;
  importance : Q;
  timestamp : Z;
  associated_states : list string;
  access_count : Z;
  last_accessed : option Z;
  tags : list string;
  context : Context
}.

Definition set_importance (q : Q) (m : Memory) : Memory :=
  {| id := id m; content := content m; type := type m; importance := q;
     timestamp := timestamp m; associated_states := associated_states m;
     access_count := access_count m; last_accessed := last_accessed m;
     tags := tags m; context := context m |}.

Definition touch (now : Z) (m : Memory) : Memory :=
  {| id := id m; content := content m; type := type m; importance := importance m;
     timestamp := timestamp m; associated_states := associated_states m;
     access_count := access_count m + 1; last_accessed := Some now;
     tags := tags m; context := context m |}.

(** *** MemoryStorage

    The table [memories] has the column [id] as primary key: it is a
    finite map from ids to the other columns.  [pickle] and [json] give
    back what was stored, and [content_hash] is a function of
    [content_data], so a row holds the fields of the memory as they are.
    The database is taken to be reachable: the [except] branches, which
    log and return a default, have no case. *)

Record Row : Type := mkRow {
  content_data : Py.PyVal;
  col_type : MemoryType;
  col_importance : Q;
  col_timestamp : Z;
  col_associated_states : list string;
  col_access_count : Z;
  col_last_accessed : option Z;
  col_tags : list string;
  col_context : Context
}.

(** The values bound by the [INSERT] of [store_memory]. *)
Definition to_row (memory : Memory) : Row :=
  {| content_data := content memory; col_type := type memory;
     col_importance := importance memory; col_timestamp := timestamp memory;
     col_associated_states := associated_states memory;
     col_access_count := access_count memory;
     col_last_accessed := last_accessed memory;
     col_tags := tags memory; col_context := context memory |}.

(** The [Memory(id=row[0], ...)] built from a fetched row. *)
Definition of_row (key : string) (row : Row) : Memory :=
  {| id := key; content := content_data row; type := col_type row;
     importance := col_importance row; timestamp := col_timestamp row;
     associated_states := col_associated_states row;
     access_count := col_access_count row;
     last_accessed := col_last_accessed row;
     tags := col_tags row; context := col_context row |}.

(** [INSERT OR REPLACE]. *)
Definition storage_store_memory (memory : Memory) (db : gmap string Row)
    : bool * gmap string Row :=
  (true, <[id memory := to_row memory]> db).

Definition storage_retrieve_memory (memory_id : string) (db : gmap string Row)
    : option Memory :=
  of_row memory_id <$> db !! memory_id.

Definition storage_delete_memory (memory_id : string) (db : gmap string Row)
    : bool * gmap string Row :=
  (true, delete memory_id db).

Definition get_memory_count (db : gmap string Row) : Z :=
  Z.of_nat (size db).

(** [ORDER BY importance DESC, timestamp DESC]: [above y x] when the row
    [y] has to come before the row [x]. *)
Definition above (y x : string * Row) : bool :=
  if Qlt_le_dec (col_importance (snd x)) (col_importance (snd y)) then true
  else if Qeq_dec (col_importance (snd x)) (col_importance (snd y))
       then Z.ltb (col_timestamp (snd x)) (col_timestamp (snd y))
       else false.

(** The [WHERE] clause. *)
Definition matches (memory_type : option MemoryType) (min_importance : Q)
    (kr : string * Row) : bool :=
  (Qle_bool min_importance (col_importance (snd kr)) &&
   match memory_type with
   | Some t => bool_decide (col_type (snd kr) = t)
   | None => true
   end)%bool.

(** [LIMIT n]; a negative [n] is no limit. *)
Definition sql_limit {A : Type} (n : Z) (l : list A) : list A :=
  if Z.ltb n 0 then l else firstn (Z.to_nat n) l.

(** The rows the query of [find_memories] returns.  SQL leaves the order
    of rows with equal sort keys open; here they keep the order in which
    the table enumerates them. *)
Definition select (memory_type : option MemoryType) (min_importance : Q)
    (limit : Z) (db : gmap string Row) : list (string * Row) :=
  sql_limit limit
    (Py.sorted_desc above
       (List.filter (matches memory_type min_importance) (map_to_list db))).

(** [any(tag in memory.tags for tag in tags)]. *)
Definition any_tag (wanted : list string) (memory : Memory) : bool :=
  existsb (fun tag => bool_decide (tag ∈ tags memory)) wanted.

(** The [for row in cursor.fetchall()] loop with its [continue]; [tags]
    filters only when it is a non-empty list. *)
Fixpoint collect (wanted : option (list string)) (rows : list (string * Row))
    (memories : list Memory) : list Memory :=
  match rows with
  | [] => memories
  | (key, row) :: rest =>
      let memory := of_row key row in
      match wanted with
      | Some (t :: ts) =>
          if negb (any_tag (t :: ts) memory) then collect wanted rest memories
          else collect wanted rest (memories ++ [memory])
      | _ => collect wanted rest (memories ++ [memory])
      end
  end.

Definition find_memories (memory_type : option MemoryType) (min_importance : Q)
    (limit : Z) (wanted : option (list string)) (db : gmap string Row)
    : list Memory :=
  collect wanted (select memory_type min_importance limit db) [].

Section Calculator.

(** Rounding to the nearest float, applied to each literal that is not a
    float itself and to the result of each arithmetic operation. *)
Variable rnd : Q -> Q.

(** *** ImportanceCalculator *)

Definition _calculate_relevance (memory : Memory) (context : Context) : Q :=
  let relevance := 0%Q in
  let context_tags := ctx_tags context in
  let relevance :=
    match context_tags, tags memory with
    | _ :: _, _ :: _ =>
        let tag_overlap := Py.common context_tags (tags memory) in
        rnd (relevance +
             rnd (inject_Z (Z.of_nat tag_overlap) /
                  inject_Z (Z.of_nat (Nat.max (length context_tags)
                                              (length (tags memory))))))
    | _, _ => relevance
    end in
  let current_states := ctx_current_states context in
  let relevance :=
    match current_states, associated_states memory with
    | _ :: _, _ :: _ =>
        let state_overlap := Py.common current_states (associated_states memory) in
        rnd (relevance +
             rnd (inject_Z (Z.of_nat state_overlap) /
                  inject_Z (Z.of_nat (Nat.max (length current_states)
                                              (length (associated_states memory))))))
    | _, _ => relevance
    end in
  let current_content := ctx_content context in
  let relevance :=
    match content memory with
    | Py.PStr text =>
        if String.eqb current_content "" then relevance
        else
          let current_words := Py.split (Py.lower current_content) in
          let memory_words := Py.split (Py.lower text) in
          match current_words, memory_words with
          | _ :: _, _ :: _ =>
              let word_overlap := Py.common current_words memory_words in
              rnd (relevance +
                   rnd (inject_Z (Z.of_nat word_overlap) /
                        inject_Z (Z.of_nat (Nat.max (length (remove_dups current_words))
                                                    (length (remove_dups memory_words))))))
          | _, _ => relevance
          end
    | _ => relevance
    end in
  Py.min 1 relevance.

Definition positive_words : list string :=
  ["happy"; "joy"; "excited"; "great"; "wonderful"; "amazing"].
Definition negative_words : list string :=
  ["sad"; "angry"; "frustrated"; "terrible"; "awful"; "hate"].
Definition important_words : list string :=
  ["important"; "critical"; "urgent"; "remember"; "key"].

(** [sum(1 for word in words if word in content)]. *)
Definition count_in (words : list string) (text : string) : nat :=
  length (List.filter (fun word => Py.contains word text) words).

Definition _extract_emotional_weight (memory : Memory) : Q :=
  match content memory with
  | Py.PStr s =>
      let text := Py.lower s in
      let positive_count := count_in positive_words text in
      let negative_count := count_in negative_words text in
      let important_count := count_in important_words text in
      let emotional_weight := (1 # 2)%Q in
      let emotional_weight :=
        rnd (emotional_weight +
             rnd (inject_Z (Z.of_nat (positive_count + negative_count + important_count)) *
                  rnd (1 # 10))) in
      Py.min 1 (Py.max 0 emotional_weight)
  | _ => (1 # 2)%Q
  end.

(** [sum(factors[key] * weights[key] for key in weights.keys())]: the
    sum starts from the integer 0 and adds the five products in the order
    of the keys of [weights]. *)
Definition weighted_sum (recency frequency relevance emotional state : Q) : Q :=
  let acc := rnd (0 + rnd (recency * rnd (3 # 10))) in
  let acc := rnd (acc + rnd (frequency * rnd (2 # 10))) in
  let acc := rnd (acc + rnd (relevance * rnd (3 # 10))) in
  let acc := rnd (acc + rnd (emotional * rnd (1 # 10))) in
  rnd (acc + rnd (state * rnd (1 # 10))).

(** [calculate_importance], with the reading [now] of the clock. *)
Definition calculate_importance (now : Z) (memory : Memory) (context : Context) : Q :=
  let time_diff := now - timestamp memory in
  let total_seconds := rnd (inject_Z time_diff / 1000000) in
  let recency_score :=
    Py.max (rnd (1 # 10)) (rnd (1 - rnd (total_seconds / inject_Z (30 * 24 * 3600)))) in
  let frequency_score := Py.min 1 (rnd (inject_Z (access_count memory) / 10)) in
  let relevance_score := _calculate_relevance memory context in
  let emotional_score := _extract_emotional_weight memory in
  let state_score :=
    Py.min 1 (rnd (inject_Z (Z.of_nat (length (associated_states memory))) * rnd (2 # 10))) in
  let weighted_score :=
    weighted_sum recency_score frequency_score relevance_score
                 emotional_score state_score in
  Py.max 0 (Py.min 1 weighted_score).

(** *** MemoryManager *)

Record MemoryManager : Type := mkMemoryManager {
  storage : gmap string Row;             (* the table of [self.storage] *)
  working_memory : gmap string Memory;   (* [self.working_memory] *)
  max_memories : Z;
  scheduled : nat      (* consolidation tasks created and not yet run *)
}.

Definition with_storage (db : gmap string Row) (mm : MemoryManager) : MemoryManager :=
  {| storage := db; working_memory := working_memory mm;
     max_memories := max_memories mm; scheduled := scheduled mm |}.

Definition with_working_memory (c : gmap string Memory) (mm : MemoryManager) : MemoryManager :=
  {| storage := storage mm; working_memory := c;
     max_memories := max_memories mm; scheduled := scheduled mm |}.

Definition schedule_consolidation (mm : MemoryManager) : MemoryManager :=
  {| storage := storage mm; working_memory := working_memory mm;
     max_memories := max_memories mm; scheduled := S (scheduled mm) |}.

(** [store_memory].  [memory_id] is the value [uuid.uuid4()] returns;
    [tags or []], [context or {}] and [associated_states or []] make an
    absent argument the empty one.  The call is made inside a running
    event loop, and the consolidation is only scheduled:
    [asyncio.create_task] does not run it. *)
Definition store_memory (memory_id : string) (content : Py.PyVal)
    (memory_type : MemoryType) (tags : list string) (context : Context)
    (associated_states : list string) (mm : MemoryManager) (w : World)
    : string * MemoryManager * World :=
  let '(t, w1) := datetime_now w in
  let memory :=
    {| id := memory_id; content := content; type := memory_type;
       importance := (1 # 2)%Q; timestamp := t;
       associated_states := associated_states; access_count := 0;
       last_accessed := None; tags := tags; context := context |} in
  let '(now, w2) := datetime_now w1 in
  let memory := set_importance (calculate_importance now memory context) memory in
  let mm1 :=
    if bool_decide (memory_type = WORKING)
    then with_working_memory (<[memory_id := memory]> (working_memory mm)) mm
    else with_storage (snd (storage_store_memory memory (storage mm))) mm in
  let mm2 :=
    if Z.ltb (max_memories mm1) (get_memory_count (storage mm1))
    then schedule_consolidation mm1 else mm1 in
  (memory_id, mm2, w2).

Definition retrieve_memory (memory_id : string) (mm : MemoryManager) (w : World)
    : option Memory * MemoryManager * World :=
  let found :=
    match working_memory mm !! memory_id with
    | Some memory => Some (true, memory)
    | None =>
        match storage_retrieve_memory memory_id (storage mm) with
        | Some memory => Some (false, memory)
        | None => None
        end
    end in
  match found with
  | None => (None, mm, w)
  | Some (cached, memory) =>
      let '(t, w1) := datetime_now w in
      let memory := touch t memory in
      let '(now, w2) := datetime_now w1 in
      let memory := set_importance (calculate_importance now memory empty_context) memory in
      let mm1 :=
        if cached
        then with_working_memory (<[memory_id := memory]> (working_memory mm)) mm
        else mm in
      let mm2 :=
        if bool_decide (type memory = WORKING) then mm1
        else with_storage (snd (storage_store_memory memory (storage mm1))) mm1 in
      (Some memory, mm2, w2)
  end.

Definition clear_working_memory (mm : MemoryManager) : MemoryManager :=
  with_working_memory ∅ mm.

(** The inner loop of [_consolidate_memories]: the ids to remove among
    the memories of one query. *)
Definition removable (cutoff_date : Z) (memory : Memory) : bool :=
  (Z.ltb (timestamp memory) cutoff_date &&
   (if Qlt_le_dec (importance memory) (rnd (3 # 10)) then true else false) &&
   Z.ltb (access_count memory) 2)%bool.

Definition candidates (cutoff_date : Z) (db : gmap string Row) : list string :=
  flat_map
    (fun memory_type =>
       id <$> List.filter (removable cutoff_date)
                (find_memories (Some memory_type) 0 1000 None db))
    [EPISODIC; SEMANTIC].

(** The loop over [memories_to_remove[:100]]. *)
Fixpoint delete_all (ids : list string) (db : gmap string Row) (removed_count : Z)
    : gmap string Row * Z :=
  match ids with
  | [] => (db, removed_count)
  | memory_id :: rest =>
      let '(ok, db1) := storage_delete_memory memory_id db in
      delete_all rest db1 (if ok then removed_count + 1 else removed_count)
  end.

(** [_consolidate_memories]: the coroutine has no [await], it runs as one
    step.  The second component is the logged [removed_count]. *)
Definition _consolidate_memories (mm : MemoryManager) (w : World)
    : MemoryManager * Z * World :=
  let '(now, w1) := datetime_now w in
  let cutoff_date := now - 30 * 24 * 3600 * 1000000 in
  let memories_to_remove := candidates cutoff_date (storage mm) in
  let '(db, removed_count) :=
    delete_all (Py.slice_to 100 memories_to_remove) (storage mm) 0 in
  (with_storage db mm, removed_count, w1).

(** [find_relevant_memories].  [cache_values] is
    [self.working_memory.values()], the memories of the cache in the
    order the dict holds them.  [memory_types or [...]] makes an absent or
    empty list the three persistent types.  A memory read from the table
    is a fresh object: raising its importance changes what is returned,
    not what is stored. *)
Definition relevant (context : Context) (memory : Memory) : bool :=
  if Qlt_le_dec (rnd (3 # 10)) (_calculate_relevance memory context) then true else false.

Definition boost (context : Context) (memory : Memory) : Memory :=
  set_importance (Py.max (importance memory) (_calculate_relevance memory context)) memory.

Definition search_type (cache_values : list Memory) (context : Context) (limit : Z)
    (db : gmap string Row) (memory_type : MemoryType) : list Memory :=
  if bool_decide (memory_type = WORKING) then
    List.filter (relevant context) cache_values
  else
    boost context <$>
      List.filter (relevant context)
        (find_memories (Some memory_type) (rnd (3 # 10)) limit None db).

(** The comparison of [sort(key=lambda m: m.importance, reverse=True)]. *)
Definition by_importance (y x : Memory) : bool :=
  if Qlt_le_dec (importance x) (importance y) then true else false.

Definition find_relevant_memories (cache_values : list Memory) (context : Context)
    (memory_types : option (list MemoryType)) (limit : Z) (mm : MemoryManager)
    : list Memory :=
  let types_to_search :=
    match memory_types with
    | Some (t :: ts) => t :: ts
    | _ => [EPISODIC; SEMANTIC; PROCEDURAL]
    end in
  let relevant_memories :=
    flat_map (search_type cache_values context limit (storage mm)) types_to_search in
  Py.slice limit (Py.sorted_desc by_importance relevant_memories).

(** [get_memory_stats]: [memory_types] lists the counts in the order of
    the members of [MemoryType]. *)
Record MemoryStats : Type := mkMemoryStats {
  total_memories : Z;
  working_memory_count : Z;
  memory_types : list (MemoryType * Z)
}.

Definition type_count (mm : MemoryManager) (memory_type : MemoryType) : Z :=
  if bool_decide (memory_type = WORKING) then
    Z.of_nat (length (List.filter (fun m => bool_decide (type m = memory_type))
                        (map_to_list (working_memory mm)).*2))
  else
    Z.of_nat (length (find_memories (Some memory_type) 0 1000 None (storage mm))).

Definition get_memory_stats (mm : MemoryManager) : MemoryStats :=
  {| total_memories := get_memory_count (storage mm);
     working_memory_count := Z.of_nat (size (working_memory mm));
     memory_types :=
       (fun memory_type => (memory_type, type_count mm memory_type))
         <$> [EPISODIC; SEMANTIC; WORKING; PROCEDURAL] |}.

End Calculator.

End Mem.

(** ** config_manager.py: merging updates into a configuration *)

Module Config.

Section DeepUpdate.

(** The values of a configuration that are not dicts. *)
Variable Scalar : Type.

(** A value of a configuration dict.  A dict lists its items in
    insertion order; its keys are distinct. *)
Inductive Value : Type :=
| Leaf (v : Scalar)
| Dict (items : list (string * Value)).

(** [d.get(key)]. *)
Fixpoint dict_get (key : string) (d : list (string * Value)) : option Value :=
  match d with
  | [] => None
  | (k, v) :: rest => if String.eqb k key then Some v else dict_get key rest
  end.

(** [d[key] = value]: a key that is present keeps its place, a new one
    goes to the end. *)
Fixpoint dict_set (key : string) (value : Value) (d : list (string * Value))
    : list (string * Value) :=
  match d with
  | [] => [(key, value)]
  | (k, v) :: rest =>
      if String.eqb k key then (k, value) :: rest
      else (k, v) :: dict_set key value rest
  end.

(** [ConfigManager._deep_update], as a function from the dict it is given
    to the dict it leaves: [base_dict] is a tree, as [model_dump] builds
    it, so changing a nested dict in place changes this entry only.  The
    recursion is on the update, taken as a value. *)
Fixpoint deep_update_value (base_dict : list (string * Value)) (update : Value)
    {struct update} : list (string * Value) :=
  match update with
  | Leaf _ => base_dict
  | Dict update_dict =>
      (fix each_item (items base : list (string * Value)) :=
         match items with
         | [] => base
         | (key, value) :: rest =>
             each_item rest
               (match dict_get key base, value with
                | Some (Dict sub), Dict _ =>
                    dict_set key (Dict (deep_update_value sub value)) base
                | _, _ => dict_set key value base
                end)
         end) update_dict base_dict
  end.

Definition _deep_update (base_dict update_dict : list (string * Value))
    : list (string * Value) :=
  deep_update_value base_dict (Dict update_dict).

(** What [_deep_update] leaves under a key the update names. *)
Definition merged (old : option Value) (value : Value) : Value :=
  match old, value with
  | Some (Dict sub), Dict update_dict => Dict (_deep_update sub update_dict)
  | _, _ => value
  end.

Definition keys (d : list (string * Value)) : list string := d.*1.

End DeepUpdate.

Arguments Leaf {Scalar} v.
Arguments Dict {Scalar} items.
Arguments dict_get {Scalar} key d.
Arguments dict_set {Scalar} key value d.
Arguments deep_update_value {Scalar} base_dict update.
Arguments _deep_update {Scalar} base_dict update_dict.
Arguments merged {Scalar} old value.
Arguments keys {Scalar} d.

End Config.

(** ** Specification-side definitions *)

Module Spec.

Import Exec.

Section Sequences.

Variable py_eval : StateDefinition -> Context -> string -> option bool.
Variable action_runner : string -> Context -> option bool.

(** The order of §4.1 for the children of a composite: descending
    priority, ties in the order of the ownership list. *)
Definition priority_order (order l : list BehaviorState) : Prop :=
  order ≡ₚ l ∧
  StronglySorted (fun a b => priority (definition b) <= priority (definition a)) order ∧
  ∀ p : Z, filter (fun c => priority (definition c) = p) order
           = filter (fun c => priority (definition c) = p) l.

(** A composite that started at [start], with [timeout] microseconds to
    run, takes its children in sequence from the world [w]: before each
    child one clock reading decides the timeout; the first child that
    fails or is still running ends the sequence in the world that child
    left. *)
Inductive runs_in_sequence (start timeout : Z) (context : Context)
  : list BehaviorState -> World -> StateStatus -> World -> Prop :=
| seq_done w :
    runs_in_sequence start timeout context [] w SUCCESS w
| seq_timed_out c rest w :
    timeout < clock w (ticks w) - start ->
    runs_in_sequence start timeout context (c :: rest) w FAILURE (snd (datetime_now w))
| seq_child_failure c rest w c' w' :
    clock w (ticks w) - start <= timeout ->
    execute py_eval action_runner c context (snd (datetime_now w)) = (FAILURE, c', w') ->
    runs_in_sequence start timeout context (c :: rest) w FAILURE w'
| seq_child_running c rest w c' w' :
    clock w (ticks w) - start <= timeout ->
    execute py_eval action_runner c context (snd (datetime_now w)) = (RUNNING, c', w') ->
    runs_in_sequence start timeout context (c :: rest) w RUNNING w'
| seq_child_success c rest w c' w1 st w' :
    clock w (ticks w) - start <= timeout ->
    execute py_eval action_runner c context (snd (datetime_now w)) = (SUCCESS, c', w1) ->
    runs_in_sequence start timeout context rest w1 st w' ->
    runs_in_sequence start timeout context (c :: rest) w st w'.

(** An action node [state_id] that started at [start] runs its action
    identifiers in order from the world [w]: each call is logged; an
    action that does not report success ends the run with Failure, and so
    does a clock reading past the timeout after a successful action. *)
Inductive runs_actions (state_id : string) (start timeout : Z) (context : Context)
  : list string -> World -> StateStatus -> World -> Prop :=
| act_done w :
    runs_actions state_id start timeout context [] w SUCCESS w
| act_unsuccessful a rest w :
    action_runner a context ≠ Some true ->
    runs_actions state_id start timeout context (a :: rest) w FAILURE
                 (emit (EvAction state_id a) w)
| act_timed_out a rest w :
    action_runner a context = Some true ->
    timeout < clock w (ticks w) - start ->
    runs_actions state_id start timeout context (a :: rest) w FAILURE
                 (snd (datetime_now (emit (EvAction state_id a) w)))
| act_next a rest w st w' :
    action_runner a context = Some true ->
    clock w (ticks w) - start <= timeout ->
    runs_actions state_id start timeout context rest
                 (snd (datetime_now (emit (EvAction state_id a) w))) st w' ->
    runs_actions state_id start timeout context (a :: rest) w st w'.

(** A child in the loop of a composite is bound to the object at its
    position in the ownership list [kids]. *)
Definition bound_to (kids : list BehaviorState) (c : Child) : Prop :=
  ∃ b, kids !! position c = Some b
       ∧ child_execute c = execute py_eval action_runner b.

End Sequences.

(** The statuses a finished execution can report. *)
Definition terminal (st : StateStatus) : Prop := st = SUCCESS ∨ st = FAILURE.

(** The order of the query of [find_memories]: [a] may come before [b]
    when it is more important, or as important and not older. *)
Definition precedes (a b : string * Mem.Row) : Prop :=
  (Mem.col_importance b.2 < Mem.col_importance a.2)%Q ∨
  ((Mem.col_importance a.2 == Mem.col_importance b.2)%Q
   ∧ Mem.col_timestamp b.2 <= Mem.col_timestamp a.2).

(** A context without one of the three things relevance compares. *)
Definition drop_tags (c : Mem.Context) : Mem.Context :=
  {| Mem.ctx_tags := []; Mem.ctx_current_states := Mem.ctx_current_states c;
     Mem.ctx_content := Mem.ctx_content c |}.

Definition drop_states (c : Mem.Context) : Mem.Context :=
  {| Mem.ctx_tags := Mem.ctx_tags c; Mem.ctx_current_states := [];
     Mem.ctx_content := Mem.ctx_content c |}.

Definition drop_content (c : Mem.Context) : Mem.Context :=
  {| Mem.ctx_tags := Mem.ctx_tags c;
     Mem.ctx_current_states := Mem.ctx_current_states c;
     Mem.ctx_content := "" |}.

(** The words of a text, as relevance compares them. *)
Definition words (s : string) : list string := Py.split (Py.lower s).

(** A node and everything under it with the two fields an execution
    writes ([status], [start_time]) blanked: what is left is the class,
    the definition and the shape of the ownership lists. *)
Fixpoint erase (s : BehaviorState) : BehaviorState :=
  mkBehaviorState (cls s) (definition s) IDLE None (map erase (attached s)).

(** The world [w'] comes after [w]: same clock, same disk, at least as
    many clock readings, and a log that starts with the log of [w]. *)
Definition later (w w' : World) : Prop :=
  clock w' = clock w ∧ states_file w' = states_file w ∧ disk_ok w' = disk_ok w
  ∧ fails_after_open w' = fails_after_open w
  ∧ (ticks w <= ticks w')%nat ∧ trace w `prefix_of` trace w'.

(** Every registered reference points into the store. *)
Definition valid_refs (m : Tree.BehaviorTreeManager) : Prop :=
  ∀ k r, Tree.states m !! k = Some r -> is_Some (Tree.objects m !! r).

(** No object is registered under two ids. *)
Definition distinct_refs (m : Tree.BehaviorTreeManager) : Prop :=
  ∀ k1 k2 r, Tree.states m !! k1 = Some r -> Tree.states m !! k2 = Some r -> k1 = k2.

(** Two registered objects that hold one list in [definition.children]
    are one object. *)
Definition distinct_lists (m : Tree.BehaviorTreeManager) : Prop :=
  ∀ k1 k2 r1 r2 s1 s2,
    Tree.states m !! k1 = Some r1 -> Tree.states m !! k2 = Some r2 ->
    Tree.objects m !! r1 = Some s1 -> Tree.objects m !! r2 = Some s2 ->
    Tree.children_id s1 = Tree.children_id s2 -> r1 = r2.

(** The list object [l] is the [definition.children] of a registered
    object, and it holds [state_id]. *)
Definition lists_child (m : Tree.BehaviorTreeManager) (state_id : string) (l : nat) : Prop :=
  ∃ k r s, Tree.states m !! k = Some r ∧ Tree.objects m !! r = Some s
           ∧ Tree.children_id s = l ∧ state_id ∈ children (Tree.definition s).

(** Every list object held in the store was counted when it came. *)
Definition known_lists (m : Tree.BehaviorTreeManager) : Prop :=
  ∀ r s, Tree.objects m !! r = Some s -> (Tree.children_id s < Tree.lists_made m)%nat.

(** The objects that hold one list object see the same items in it. *)
Definition lists_agree (m : Tree.BehaviorTreeManager) : Prop :=
  ∀ r1 r2 s1 s2,
    Tree.objects m !! r1 = Some s1 -> Tree.objects m !! r2 = Some s2 ->
    Tree.children_id s1 = Tree.children_id s2 ->
    children (Tree.definition s1) = children (Tree.definition s2).

(** What the methods of the manager keep true of the lists. *)
Definition coherent_lists (m : Tree.BehaviorTreeManager) : Prop :=
  known_lists m ∧ distinct_lists m ∧ lists_agree m.

(** What the methods of the manager keep true of the registry. *)
Definition sound_registry (m : Tree.BehaviorTreeManager) : Prop :=
  valid_refs m ∧ distinct_refs m.

(** The definition [RootState()] builds at the clock readings [t1], [t2]. *)
Definition root_definition (t1 t2 : Z) : StateDefinition :=
  {| id := "root"; name := "Root State"; type := ROOT; priority := 10;
     conditions := []; actions := []; children := [];
     metadata := StateMetadata_default t1 t2; timeout_seconds := 300 |}.

(** [b] is listed in [definition.children] of the node registered as [a]. *)
Definition child_of (m : Tree.BehaviorTreeManager) (a b : string) : Prop :=
  ∃ s, Tree.state_of m a = Some s ∧ b ∈ children (Tree.definition s).

(** The nodes a traversal is done with: each is registered, lists only
    nodes of the set, and lies on no cycle. *)
Definition finished (m : Tree.BehaviorTreeManager) (D : gset string) : Prop :=
  ∀ y, y ∈ D ->
    (∃ s, Tree.state_of m y = Some s
          ∧ ∀ c, c ∈ children (Tree.definition s) -> c ∈ D)
    ∧ ¬ tc (child_of m) y y.

(** [from_dict] makes the definition [d] of a dict that holds [data],
    whatever list object its [children] entry is and whatever the time. *)
Definition parsed (data : StateDict) (d : StateDefinition) : Prop :=
  ∀ l w, (Tree.from_dict {| Tree.fields := data; Tree.children_list := l |} w).1
         = Tree.Return (d, l).

(** The world [w'] differs from [w] by clock readings and log lines only. *)
Definition same_disk (w w' : World) : Prop :=
  states_file w' = states_file w ∧ disk_ok w' = disk_ok w
  ∧ fails_after_open w' = fails_after_open w ∧ clock w' = clock w.

(** The order [find_memories] returns memories in: more important first,
    and among equally important ones the newer first. *)
Definition outranks (a b : Mem.Memory) : Prop :=
  (Mem.importance b < Mem.importance a)%Q ∨
  ((Mem.importance a == Mem.importance b)%Q ∧ Mem.timestamp b <= Mem.timestamp a).

(** A string without an opening brace. *)
Fixpoint no_brace (s : string) : bool :=
  match s with
  | EmptyString => true
  | String c s' => (negb (Ascii.eqb c "{") && no_brace s')%bool
  end.

End Spec.

(** ** Concrete inputs used by the examples *)

Module Demo.

(** A restricted evaluator for condition strings: two integer literals
    around one of [>], [<], [>=], [<=], [==], [!=], without blanks.
    Anything else is rejected, as an exception would be. *)
Definition digit_of (c : ascii) : option Z :=
  let n := nat_of_ascii c in
  if (Nat.leb 48 n && Nat.leb n 57)%bool then Some (Z.of_nat (n - 48)) else None.

Fixpoint read_digits (acc : Z) (s : string) : Z * string :=
  match s with
  | EmptyString => (acc, s)
  | String c s' =>
      match digit_of c with
      | Some d => read_digits (10 * acc + d) s'
      | None => (acc, s)
      end
  end.

Definition read_nat (s : string) : option (Z * string) :=
  match s with
  | EmptyString => None
  | String c _ =>
      match digit_of c with
      | Some _ => Some (read_digits 0 s)
      | None => None
      end
  end.

Definition read_int (s : string) : option (Z * string) :=
  match s with
  | String "-" s' =>
      match read_nat s' with
      | Some (n, rest) => Some (- n, rest)
      | None => None
      end
  | _ => read_nat s
  end.

Definition read_op (s : string) : option ((Z -> Z -> bool) * string) :=
  match s with
  | String ">" (String "=" rest) => Some (Z.geb, rest)
  | String "<" (String "=" rest) => Some (Z.leb, rest)
  | String "=" (String "=" rest) => Some (Z.eqb, rest)
  | String "!" (String "=" rest) => Some (fun a b => negb (Z.eqb a b), rest)
  | String ">" rest => Some (Z.gtb, rest)
  | String "<" rest => Some (Z.ltb, rest)
  | _ => None
  end.

Definition eval_comparison (d : StateDefinition) (context : Exec.Context)
    (expression : string) : option bool :=
  match read_int expression with
  | Some (a, s1) =>
      match read_op s1 with
      | Some (op, s2) =>
          match read_int s2 with
          | Some (b, EmptyString) => Some (op a b)
          | _ => None
          end
      | None => None
      end
  | None => None
  end.

(** A clock that starts in the year 2026 and advances one millisecond
    between two readings; an empty log; no saved file; a writable disk. *)
Definition t0 : Z := 63900000000000000.

Definition world : World :=
  {| clock := fun n => t0 + 1000 * Z.of_nat n; ticks := 0; trace := [];
     states_file := NoFile; disk_ok := true; fails_after_open := false |}.

Definition definition_of_kind (state_id : string) (t : StateType) (p : Z)
    (conds acts : list string) (timeout : Z) : StateDefinition :=
  {| id := state_id; name := state_id; type := t; priority := p;
     conditions := conds; actions := acts; children := [];
     metadata := StateMetadata_default t0 t0; timeout_seconds := timeout |}.

(** The node [a1] of the scenario of §8: priority 5, one condition, one
    action, a timeout of one second. *)
Definition a1_definition : StateDefinition :=
  definition_of_kind "a1" ACTION 5 ["{x}>0"] ["act"] 1.

Definition a2_definition : StateDefinition :=
  definition_of_kind "a2" ACTION 1 [] ["act"] 1.

Definition a1 : Exec.BehaviorState :=
  Exec.mkBehaviorState ActionState a1_definition IDLE None [].

Definition a2 : Exec.BehaviorState :=
  Exec.mkBehaviorState ActionState a2_definition IDLE None [].

(** A composite over [a2] and [a1], attached in that order. *)
Definition pair : Exec.BehaviorState :=
  Exec.mkBehaviorState CompositeState
    (definition_of_kind "pair" COMPOSITE 5 [] [] 300) IDLE None [a2; a1].

(** The manager after [__init__] (no saved file) and [add_state(a1)]. *)
Definition tree_a1 : Tree.BehaviorTreeManager * World :=
  let '(m, w) := Tree.init world in
  let '(_, m1, w1) := Tree.add_state a1_definition "root" m w in
  (m1, w1).

(** The same after [add_state(a2)]: both nodes are children of the root. *)
Definition tree_a1_a2 : Tree.BehaviorTreeManager * World :=
  let '(m, w) := tree_a1 in
  let '(_, m1, w1) := Tree.add_state a2_definition "root" m w in
  (m1, w1).

(** The world of [tree_a1] with a disk that refuses the next write. *)
Definition read_only (w : World) : World :=
  {| clock := clock w; ticks := ticks w; trace := trace w;
     states_file := states_file w; disk_ok := false;
     fails_after_open := fails_after_open w |}.

(** The same world with a disk on which the next write fails once the
    file has been opened. *)
Definition cut_short (w : World) : World :=
  {| clock := clock w; ticks := ticks w; trace := trace w;
     states_file := states_file w; disk_ok := false; fails_after_open := true |}.

(** A table with three rows; only [m2] and [m3] carry the tag [x]. *)
Definition row (ty : Mem.MemoryType) (imp : Q) (ts : Z) (acc : Z)
    (tgs : list string) : Mem.Row :=
  {| Mem.content_data := Py.PStr "note"; Mem.col_type := ty;
     Mem.col_importance := imp; Mem.col_timestamp := ts;
     Mem.col_associated_states := []; Mem.col_access_count := acc;
     Mem.col_last_accessed := None; Mem.col_tags := tgs;
     Mem.col_context := Mem.empty_context |}.

Definition table : gmap string Mem.Row :=
  <["m1" := row Mem.EPISODIC (9 # 10) t0 0 []]>
    (<["m2" := row Mem.EPISODIC (5 # 10) t0 0 ["x"]]>
       (<["m3" := row Mem.SEMANTIC (4 # 10) t0 0 ["x"]]> ∅)).

(** A manager over a table with one stale row ([old]: forty days old at
    the first clock reading, importance 0.1, never read), one row just
    as old that was read twice, and one recent row. *)
Definition forty_days : Z := 40 * 24 * 3600 * 1000000.

Definition manager : Mem.MemoryManager :=
  {| Mem.storage :=
       <["old" := row Mem.EPISODIC (1 # 10) (t0 - forty_days) 0 []]>
         (<["read" := row Mem.SEMANTIC (1 # 10) (t0 - forty_days) 2 []]>
            (<["new" := row Mem.EPISODIC (1 # 10) t0 0 []]> ∅));
     Mem.working_memory := ∅; Mem.max_memories := 10000; Mem.scheduled := 0 |}.

(** Exact arithmetic, for evaluating the calculator on examples. *)
Definition exact (q : Q) : Q := q.

(** The object a manager holds at a reference (a fresh root object when
    the reference points nowhere). *)
Definition object_at (m : Tree.BehaviorTreeManager) (r : Tree.ref) : Tree.BehaviorState :=
  default (Tree.new_state RootState (Spec.root_definition 0 0) 0) (Tree.objects m !! r).

(** The same manager with one memory in its cache. *)
Definition cached : Mem.Memory :=
  Mem.of_row "w1" (row Mem.WORKING (1 # 2) t0 0 ["x"]).

Definition caching_manager : Mem.MemoryManager :=
  Mem.with_working_memory {["w1" := cached]} manager.

(** A dumped configuration and a dict of updates for it. *)
Definition config_dict : list (string * Config.Value Py.PyVal) :=
  [("debug", Config.Leaf (Py.PBool false));
   ("llm", Config.Dict [("model", Config.Leaf (Py.PStr "gpt-4"));
                         ("timeout", Config.Leaf (Py.PInt 30))]);
   ("port", Config.Leaf (Py.PInt 8000))].

Definition config_updates : list (string * Config.Value Py.PyVal) :=
  [("llm", Config.Dict [("timeout", Config.Leaf (Py.PInt 60))]);
   ("theme", Config.Leaf (Py.PStr "dark"))].

End Demo.

(** * Properties *)

(** ** The Python fragments on examples *)

Example replace_every_occurrence :
  Py.replace "{x}" "5" "{x}>0 and {x}<9" = "5>0 and 5<9".
Proof. reflexivity. Qed.

Example str_of_values :
  Py.str (Py.PInt (-12)) = "-12" ∧ Py.str (Py.PInt 0) = "0"
  ∧ Py.str (Py.PBool true) = "True" ∧ Py.str Py.PNone = "None".
Proof. repeat split; reflexivity. Qed.

Example split_on_white_space :
  Py.split (Py.lower "  Urgent: call  Bob ") = ["urgent:"; "call"; "bob"].
Proof. reflexivity. Qed.

Example common_counts_distinct :
  Py.common ["a"; "b"; "a"] ["a"; "c"; "a"] = 1%nat.
Proof. reflexivity. Qed.

Example sorted_is_stable :
  Py.sorted_desc (Py.by_key snd) [("a", 1); ("b", 5); ("c", 1); ("d", 5)]
  = [("b", 5); ("d", 5); ("a", 1); ("c", 1)].
Proof. reflexivity. Qed.

Example substitute_then_evaluate :
  Exec.substitute "{x}>0" [("x", Py.PInt (-1))] = "-1>0" ∧
  Demo.eval_comparison Demo.a1_definition [] "-1>0" = Some false ∧
  Demo.eval_comparison Demo.a1_definition [] "5>0" = Some true ∧
  Demo.eval_comparison Demo.a1_definition [] "{x}>0" = None.
Proof. repeat split; reflexivity. Qed.

(** ** Facts about the stable descending sort *)

Section SortPerm.

Context {A : Type} (above : A -> A -> bool).

Lemma insert_desc_perm (x : A) (l : list A) :
  Py.insert_desc above x l ≡ₚ x :: l.
Proof.
  induction l as [|y l IH]; simpl; [done|].
  destruct (above y x); [|done].
  rewrite IH. apply Permutation_swap.
Qed.

Lemma sorted_desc_perm (l : list A) : Py.sorted_desc above l ≡ₚ l.
Proof.
  unfold Py.sorted_desc.
  induction l as [|x l IH]; simpl; [done|].
  by rewrite insert_desc_perm, IH.
Qed.

End SortPerm.

Section SortOrder.

Context {A : Type} (above : A -> A -> bool) (R : A -> A -> Prop).
Hypothesis above_true : ∀ x y, above y x = true -> R y x.
Hypothesis above_false : ∀ x y, above y x = false -> R x y.
Hypothesis R_trans : ∀ a b c, R a b -> R b c -> R a c.

Lemma insert_desc_sorted (x : A) (l : list A) :
  Sorted R l -> Sorted R (Py.insert_desc above x l).
Proof.
  induction 1 as [|y l Hs IH Hd]; simpl.
  - repeat constructor.
  - destruct (above y x) eqn:Hyx.
    + constructor; [exact IH|].
      destruct Hd as [|z l Hz]; simpl.
      * constructor. by apply above_true.
      * destruct (above z x); constructor; [done|by apply above_true].
    + constructor; [by constructor|]. constructor. by apply above_false.
Qed.

Lemma sorted_desc_sorted (l : list A) : StronglySorted R (Py.sorted_desc above l).
Proof.
  apply Sorted_StronglySorted; [exact R_trans|].
  unfold Py.sorted_desc.
  induction l as [|x l IH]; simpl; [constructor|].
  by apply insert_desc_sorted.
Qed.

End SortOrder.

Section SortByKey.

Context {A : Type} (key : A -> Z).

Lemma sorted_by_key_sorted (l : list A) :
  StronglySorted (fun a b => key b <= key a) (Py.sorted_desc (Py.by_key key) l).
Proof.
  apply sorted_desc_sorted; unfold Py.by_key.
  - intros x y H%Z.ltb_lt. lia.
  - intros x y H%Z.ltb_ge. lia.
  - intros a b c ? ?. lia.
Qed.

Lemma insert_desc_filter (p : Z) (x : A) (l : list A) :
  filter (fun a => key a = p) (Py.insert_desc (Py.by_key key) x l)
  = filter (fun a => key a = p) (x :: l).
Proof.
  induction l as [|y l IH]; simpl; [done|].
  unfold Py.by_key at 1. destruct (Z.ltb_spec (key x) (key y)); [|done].
  rewrite filter_cons, IH, !filter_cons.
  repeat case_decide; try done; lia.
Qed.

Lemma sorted_desc_stable (p : Z) (l : list A) :
  filter (fun a => key a = p) (Py.sorted_desc (Py.by_key key) l)
  = filter (fun a => key a = p) l.
Proof.
  unfold Py.sorted_desc.
  induction l as [|x l IH]; simpl; [done|].
  by rewrite insert_desc_filter, !filter_cons, IH.
Qed.

End SortByKey.

(** Two lists related element by element, with equal keys, stay related
    when both are sorted. *)
Lemma insert_desc_Forall2 {A B : Type} (R : A -> B -> Prop)
    (ka : A -> Z) (kb : B -> Z) (a : A) (b : B) (la : list A) (lb : list B) :
  (∀ a b, R a b -> ka a = kb b) ->
  R a b -> Forall2 R la lb ->
  Forall2 R (Py.insert_desc (Py.by_key ka) a la) (Py.insert_desc (Py.by_key kb) b lb).
Proof.
  intros Hk Hab. induction 1 as [|a' b' sa sb Hab' Hs IHs]; simpl.
  - by repeat constructor.
  - unfold Py.by_key at 1 3. rewrite (Hk _ _ Hab), (Hk _ _ Hab').
    destruct (Z.ltb _ _); by repeat constructor.
Qed.

Lemma sorted_desc_Forall2 {A B : Type} (R : A -> B -> Prop)
    (ka : A -> Z) (kb : B -> Z) (la : list A) (lb : list B) :
  (∀ a b, R a b -> ka a = kb b) ->
  Forall2 R la lb ->
  Forall2 R (Py.sorted_desc (Py.by_key ka) la) (Py.sorted_desc (Py.by_key kb) lb).
Proof.
  intros Hk. unfold Py.sorted_desc.
  induction 1 as [|a b la lb Hab Hl IH]; simpl; [constructor|].
  by apply insert_desc_Forall2.
Qed.

(** ** Executing a node *)

Section ExecuteFacts.

Import Exec Spec.

Variable py_eval : StateDefinition -> Context -> string -> option bool.
Variable action_runner : string -> Context -> option bool.

Abbreviation exec := (execute py_eval action_runner).

Lemma execute_unfold (self : BehaviorState) :
  exec self =
  match cls self with
  | ActionState => ActionState_execute py_eval action_runner self
  | ConditionState => ConditionState_execute py_eval self
  | CompositeState | RootState =>
      CompositeState_execute py_eval self
        (number_children 0
           (map (fun c => (priority (definition c), exec c)) (attached self)))
  end.
Proof. by destruct self. Qed.

Lemma all_conditions_Forall (self : BehaviorState) (conds : list string) (context : Context) :
  all_conditions py_eval self conds context = true <->
  Forall (fun c => _evaluate_condition py_eval self c context = true) conds.
Proof.
  induction conds as [|c conds IH]; simpl.
  - split; [constructor|done].
  - destruct (_evaluate_condition py_eval self c context) eqn:E; simpl.
    + rewrite IH. split; [by constructor|by inversion 1].
    + split; [done|]. inversion 1; congruence.
Qed.

Lemma is_timed_out_started (self : BehaviorState) (start : Z) (w : World) :
  start_time self = Some start ->
  is_timed_out self w =
  (Z.ltb (timeout_seconds (definition self) * 1000000) (clock w (ticks w) - start),
   snd (datetime_now w)).
Proof. intros H. unfold is_timed_out. by rewrite H. Qed.

Lemma run_actions_spec (self : BehaviorState) (start : Z) (context : Context)
    (acts : list string) (w : World) :
  start_time self = Some start ->
  runs_actions action_runner (id (definition self)) start
    (timeout_seconds (definition self) * 1000000) context acts w
    (fst (run_actions action_runner self acts context w))
    (snd (run_actions action_runner self acts context w)).
Proof.
  intros Hs. revert w. induction acts as [|a rest IH]; intros w; simpl.
  - constructor.
  - destruct (action_runner a context) as [[|]|] eqn:Ha.
    + rewrite (is_timed_out_started _ _ _ Hs).
      destruct (Z.ltb_spec (timeout_seconds (definition self) * 1000000)
                  (clock (emit (EvAction (id (definition self)) a) w)
                     (ticks (emit (EvAction (id (definition self)) a) w)) - start))
        as [Hlate|Hok]; simpl in *.
      * by apply act_timed_out.
      * apply act_next; [done|done|]. apply IH.
    + apply act_unsuccessful. congruence.
    + apply act_unsuccessful. congruence.
Qed.

Lemma run_actions_status (self : BehaviorState) (context : Context)
    (acts : list string) (w : World) :
  fst (run_actions action_runner self acts context w) = SUCCESS ∨
  fst (run_actions action_runner self acts context w) = FAILURE.
Proof.
  revert w. induction acts as [|a rest IH]; intros w; simpl; [by left|].
  destruct (action_runner a context) as [[|]|]; [|by right|by right].
  destruct (is_timed_out self _) as [[|] w2]; [by right|apply IH].
Qed.

Lemma run_children_status (self : BehaviorState) (context : Context)
    (cs : list Child) (kids : list BehaviorState) (w : World) :
  (run_children self cs context kids w).1.1 ≠ IDLE.
Proof.
  revert kids w. induction cs as [|c rest IH]; intros kids w; simpl; [done|].
  destruct (is_timed_out self w) as [[|] w1]; [done|].
  destruct (child_execute c context w1) as [[[] child'] w2]; simpl; try done; apply IH.
Qed.

Lemma execute_not_idle (self : BehaviorState) (context : Context) (w : World) :
  (exec self context w).1.1 ≠ IDLE.
Proof.
  rewrite execute_unfold. destruct (cls self).
  - unfold ActionState_execute. destruct (can_execute _ _ _); simpl; [|done].
    pose proof (run_actions_status
      (set_start_time (clock w (ticks w)) (set_status RUNNING self)) context
      (actions (definition self))
      (snd (datetime_now (emit (EvExecute (id (definition self))) w)))) as H.
    simpl in *. destruct (run_actions _ _ _ _ _) as [st w2]. simpl in *.
    destruct H; congruence.
  - unfold ConditionState_execute. simpl. by destruct (can_execute _ _ _).
  - unfold CompositeState_execute. destruct (can_execute _ _ _); simpl; [|done].
    match goal with |- context [run_children ?s ?c ?x ?k ?w] =>
      pose proof (run_children_status s x c k w) as H;
      destruct (run_children s c x k w) as [[st k'] w2] end.
    done.
  - unfold CompositeState_execute. destruct (can_execute _ _ _); simpl; [|done].
    match goal with |- context [run_children ?s ?c ?x ?k ?w] =>
      pose proof (run_children_status s x c k w) as H;
      destruct (run_children s c x k w) as [[st k'] w2] end.
    done.
Qed.

Lemma number_children_Forall2 (l : list BehaviorState) (i : nat) :
  Forall2 (fun c b => child_priority c = priority (definition b)
                      ∧ child_execute c = exec b)
    (number_children i (map (fun c => (priority (definition c), exec c)) l)) l.
Proof.
  revert i. induction l as [|b l IH]; intros i; simpl; constructor; [done|apply IH].
Qed.

Lemma run_children_spec (self : BehaviorState) (start : Z) (context : Context)
    (cs : list Child) (order kids : list BehaviorState) (w : World) :
  start_time self = Some start ->
  Forall2 (fun c b => child_priority c = priority (definition b)
                      ∧ child_execute c = exec b) cs order ->
  runs_in_sequence py_eval action_runner start
    (timeout_seconds (definition self) * 1000000) context order w
    (run_children self cs context kids w).1.1
    (run_children self cs context kids w).2.
Proof.
  intros Hs Hall. revert kids w.
  induction Hall as [|c b cs order [_ Hcb] _ IH]; intros kids w; simpl.
  - constructor.
  - rewrite (is_timed_out_started _ _ _ Hs).
    destruct (Z.ltb_spec (timeout_seconds (definition self) * 1000000)
                (clock w (ticks w) - start)) as [Hlate|Hok].
    + by apply seq_timed_out.
    + rewrite Hcb.
      pose proof (execute_not_idle b context (snd (datetime_now w))) as Hidle.
      destruct (exec b context (snd (datetime_now w))) as [[st b'] w2] eqn:Hb.
      destruct st; simpl in *.
      * by eapply seq_child_running.
      * eapply seq_child_success; [done|exact Hb|apply IH].
      * by eapply seq_child_failure.
      * done.
Qed.

Lemma runs_in_sequence_success (start timeout : Z) (context : Context)
    (order : list BehaviorState) (w w' : World) (st : StateStatus) :
  runs_in_sequence py_eval action_runner start timeout context order w st w' ->
  st = SUCCESS ->
  Forall (fun c => ∃ w1 c' w2, exec c context w1 = (SUCCESS, c', w2)) order.
Proof.
  induction 1; intros Hst; try discriminate; constructor; eauto.
Qed.

(** C5. A composite node whose own conditions are false returns Failure
    and leaves the world as it was after the call was entered: no child
    is executed and the clock is not read.  Otherwise its children are
    taken in the order [order], which is the ownership list sorted by
    descending priority with ties in their original order, and they run
    in sequence from the world in which the start time was read: the
    timeout is checked before each child, the first child that fails
    gives Failure and the first child that is still running gives
    Running, in the world that child left, and Success is returned only
    if every child returned Success. *)
Theorem composite_runs_children_by_priority
    (self : BehaviorState) (context : Context) (w : World) :
  cls self = CompositeState ∨ cls self = RootState ->
  ∃ order : list BehaviorState,
    priority_order order (attached self) ∧
    let w0 := emit (EvExecute (id (definition self))) w in
    let r := exec self context w in
    (if can_execute py_eval self context
     then runs_in_sequence py_eval action_runner (clock w (ticks w))
            (timeout_seconds (definition self) * 1000000) context order
            (snd (datetime_now w0)) r.1.1 r.2
     else r.1.1 = FAILURE ∧ r.2 = w0) ∧
    (r.1.1 = SUCCESS ->
     Forall (fun c => ∃ w1 c' w2, exec c context w1 = (SUCCESS, c', w2)) order).
Proof.
  intros Hcls.
  exists (Py.sorted_desc (Py.by_key (fun c => priority (definition c))) (attached self)).
  split.
  { split; [apply sorted_desc_perm|].
    split; [apply (sorted_by_key_sorted (fun c => priority (definition c)))|].
    intros p. apply (sorted_desc_stable (fun c => priority (definition c))). }
  assert (exec self = CompositeState_execute py_eval self
            (number_children 0
               (map (fun c => (priority (definition c), exec c)) (attached self))))
    as ->.
  { rewrite execute_unfold. by destruct Hcls as [-> | ->]. }
  unfold CompositeState_execute.
  destruct (can_execute py_eval self context) eqn:Hcan; simpl; [|done].
  match goal with |- context [run_children ?s ?cs ?x ?k ?w1] =>
    pose proof (run_children_spec s (clock w (ticks w)) x cs
      (Py.sorted_desc (Py.by_key (fun b => priority (definition b))) (attached self))
      k w1 eq_refl) as Hrun;
    destruct (run_children s cs x k w1) as [[st k'] w2] end.
  simpl in *.
  assert (runs_in_sequence py_eval action_runner (clock w (ticks w))
            (timeout_seconds (definition self) * 1000000) context
            (Py.sorted_desc (Py.by_key (fun c => priority (definition c))) (attached self))
            (snd (datetime_now (emit (EvExecute (id (definition self))) w))) st w2) as Hseq.
  { apply Hrun. apply sorted_desc_Forall2; [by intros ? ? [? _]|].
    apply number_children_Forall2. }
  split; [exact Hseq|]. intros ->. by eapply runs_in_sequence_success.
Qed.

Lemma runs_actions_success (state_id : string) (start timeout : Z)
    (context : Context) (acts : list string) (w w' : World) (st : StateStatus) :
  runs_actions action_runner state_id start timeout context acts w st w' ->
  st = SUCCESS ->
  Forall (fun a => action_runner a context = Some true) acts
  ∧ trace w' = (trace w ++ (EvAction state_id <$> acts))%list.
Proof.
  induction 1 as [w|a rest w Ha|a rest w Ha Hlate|a rest w st w' Ha Hok Hrun IH];
    intros Hst; try discriminate.
  - split; [constructor|]. simpl. by rewrite app_nil_r.
  - destruct (IH Hst) as [Hall Htrace]. split; [by constructor|].
    rewrite Htrace. simpl. by rewrite <- app_assoc.
Qed.

Lemma action_execute_spec (self : BehaviorState) (context : Context) (w : World) :
  cls self = ActionState ->
  let w0 := emit (EvExecute (id (definition self))) w in
  let r := exec self context w in
  (can_execute py_eval self context = true <->
   Forall (fun c => _evaluate_condition py_eval self c context = true)
          (conditions (definition self))) ∧
  (if can_execute py_eval self context
   then runs_actions action_runner (id (definition self)) (clock w (ticks w))
          (timeout_seconds (definition self) * 1000000) context
          (actions (definition self)) (snd (datetime_now w0)) r.1.1 r.2
   else r.1.1 = FAILURE ∧ r.2 = w0) ∧
  (r.1.1 = SUCCESS ->
   Forall (fun a => action_runner a context = Some true) (actions (definition self))
   ∧ trace r.2 = (trace w0 ++ (EvAction (id (definition self))
                                 <$> actions (definition self)))%list).
Proof.
  intros Hcls. simpl. split; [apply all_conditions_Forall|].
  rewrite execute_unfold, Hcls. unfold ActionState_execute.
  destruct (can_execute py_eval self context); simpl; [|done].
  pose proof (run_actions_spec
    (set_start_time (clock w (ticks w)) (set_status RUNNING self))
    (clock w (ticks w)) context (actions (definition self))
    (snd (datetime_now (emit (EvExecute (id (definition self))) w))) eq_refl) as H.
  simpl in H. destruct (run_actions _ _ _ _ _) as [st w2]. simpl in *.
  split; [exact H|]. intros ->.
  by apply (runs_actions_success _ _ _ _ _ _ _ _ H).
Qed.

End ExecuteFacts.

(** A composite over two actions: the theorem applies to it. *)
Lemma composite_runs_children_by_priority_witness :
  ∃ order : list Exec.BehaviorState,
    Spec.priority_order order [Demo.a2; Demo.a1] ∧
    let w0 := emit (EvExecute "pair") Demo.world in
    let r := Exec.execute Demo.eval_comparison Exec._execute_action Demo.pair
               [("x", Py.PInt 5)] Demo.world in
    (if Exec.can_execute Demo.eval_comparison Demo.pair [("x", Py.PInt 5)]
     then Spec.runs_in_sequence Demo.eval_comparison Exec._execute_action
            (clock Demo.world (ticks Demo.world)) (300 * 1000000)
            [("x", Py.PInt 5)] order (snd (datetime_now w0)) r.1.1 r.2
     else r.1.1 = FAILURE ∧ r.2 = w0) ∧
    (r.1.1 = SUCCESS ->
     Forall (fun c => ∃ w1 c' w2,
               Exec.execute Demo.eval_comparison Exec._execute_action c
                 [("x", Py.PInt 5)] w1 = (SUCCESS, c', w2)) order).
Proof.
  apply (composite_runs_children_by_priority Demo.eval_comparison
           Exec._execute_action Demo.pair [("x", Py.PInt 5)] Demo.world).
  left. reflexivity.
Defined.

(** The children of the composite run by descending priority: [a1]
    (priority 5) before [a2] (priority 1), both succeed. *)
Example pair_runs_a1_then_a2 :
  let r := Exec.execute Demo.eval_comparison Exec._execute_action Demo.pair
             [("x", Py.PInt 5)] Demo.world in
  r.1.1 = SUCCESS ∧
  trace r.2 = [EvExecute "pair"; EvExecute "a1"; EvAction "a1" "act";
               EvExecute "a2"; EvAction "a2" "act"].
Proof. vm_compute. split; reflexivity. Qed.

(** With a false condition in the first child the second is not run. *)
Example pair_stops_at_first_failure :
  let r := Exec.execute Demo.eval_comparison Exec._execute_action Demo.pair
             [("x", Py.PInt (-1))] Demo.world in
  r.1.1 = FAILURE ∧ trace r.2 = [EvExecute "pair"; EvExecute "a1"].
Proof. vm_compute. split; reflexivity. Qed.

(** With the placeholder runner and no clock reading past the timeout,
    every action list runs to Success. *)
Lemma run_actions_in_time (self : Exec.BehaviorState) (start : Z)
    (context : Exec.Context) (acts : list string) (w0 w : World) :
  Exec.start_time self = Some start ->
  clock w = clock w0 ->
  (∀ n, clock w0 n - start <= timeout_seconds (Exec.definition self) * 1000000) ->
  (Exec.run_actions Exec._execute_action self acts context w).1 = SUCCESS.
Proof.
  intros Hs Hclock Hin. revert w Hclock.
  induction acts as [|a rest IH]; intros w Hclock; simpl; [reflexivity|].
  rewrite (is_timed_out_started _ _ _ Hs). simpl. rewrite Hclock.
  destruct (Z.ltb_spec (timeout_seconds (Exec.definition self) * 1000000)
              (clock w0 (ticks w) - start)) as [Hlate|_].
  - specialize (Hin (ticks w)). lia.
  - by apply IH.
Qed.

(** C6. An action node with a false condition returns Failure in the
    world it was called in, with only the call recorded: no action is
    run.  Otherwise its action identifiers run in order; an action that
    does not report success, or a clock reading past the timeout after an
    action, ends the run with Failure; when Success is returned every
    action has reported success and the log shows each of them once, in
    the order of the definition.  For an action node whose only condition is
    ["{x}>0"], any evaluator that computes [5>0] and [-1>0] as Python
    does gives Success for [{x: 5}] when no clock reading is past the
    timeout, and Failure with no action run for [{x: -1}]. *)
Theorem action_node_semantics :
  (∀ py_eval action_runner (self : Exec.BehaviorState)
     (context : Exec.Context) (w : World),
     Exec.cls self = ActionState ->
     let w0 := emit (EvExecute (id (Exec.definition self))) w in
     let r := Exec.execute py_eval action_runner self context w in
     (Exec.can_execute py_eval self context = true <->
      Forall (fun c => Exec._evaluate_condition py_eval self c context = true)
             (conditions (Exec.definition self))) ∧
     (if Exec.can_execute py_eval self context
      then Spec.runs_actions action_runner (id (Exec.definition self))
             (clock w (ticks w))
             (timeout_seconds (Exec.definition self) * 1000000) context
             (actions (Exec.definition self)) (snd (datetime_now w0)) r.1.1 r.2
      else r.1.1 = FAILURE ∧ r.2 = w0) ∧
     (r.1.1 = SUCCESS ->
      Forall (fun a => action_runner a context = Some true)
             (actions (Exec.definition self))
      ∧ trace r.2 = (trace w0 ++ (EvAction (id (Exec.definition self))
                                    <$> actions (Exec.definition self)))%list)) ∧
  (∀ py_eval (self : Exec.BehaviorState) (w : World),
     Exec.cls self = ActionState ->
     conditions (Exec.definition self) = ["{x}>0"] ->
     (∀ d context, py_eval d context "5>0" = Some true) ->
     (∀ d context, py_eval d context "-1>0" = Some false) ->
     ((∀ n, clock w n - clock w (ticks w)
            <= timeout_seconds (Exec.definition self) * 1000000) ->
      (Exec.execute py_eval Exec._execute_action self
         [("x", Py.PInt 5)] w).1.1 = SUCCESS) ∧
     Exec.execute py_eval Exec._execute_action self [("x", Py.PInt (-1))] w
     = (FAILURE, self, emit (EvExecute (id (Exec.definition self))) w)).
Proof.
  split.
  - intros. by apply action_execute_spec.
  - intros py_eval self w Hcls Hconds H5 Hneg. split.
    + intros Hclock. rewrite execute_unfold, Hcls.
      unfold Exec.ActionState_execute, Exec.can_execute. rewrite Hconds. simpl.
      unfold Exec._evaluate_condition.
      change (Exec.substitute "{x}>0" [("x", Py.PInt 5)]) with "5>0".
      rewrite H5. simpl.
      match goal with |- context [Exec.run_actions ?r ?s ?a ?c ?w1] =>
        pose proof (run_actions_in_time s (clock w (ticks w)) c a w w1
                      eq_refl eq_refl Hclock) as Hrun;
        destruct (Exec.run_actions r s a c w1) as [st w2]
      end.
      exact Hrun.
    + rewrite execute_unfold, Hcls.
      unfold Exec.ActionState_execute, Exec.can_execute. rewrite Hconds. simpl.
      unfold Exec._evaluate_condition.
      change (Exec.substitute "{x}>0" [("x", Py.PInt (-1))]) with "-1>0".
      by rewrite Hneg.
Qed.

(** The scenario of §8: the node [a1] with the restricted evaluator, on
    a clock that stays within the second. *)
Lemma action_node_semantics_witness :
  let w := {| clock := fun n => Demo.t0 + Z.of_nat (Nat.min n 1000);
              ticks := 0; trace := []; states_file := NoFile; disk_ok := true;
              fails_after_open := false |} in
  (Exec.execute Demo.eval_comparison Exec._execute_action Demo.a1
     [("x", Py.PInt 5)] w).1.1 = SUCCESS ∧
  Exec.execute Demo.eval_comparison Exec._execute_action Demo.a1
    [("x", Py.PInt (-1))] w
  = (FAILURE, Demo.a1, emit (EvExecute "a1") w).
Proof.
  intros w.
  destruct (proj2 action_node_semantics Demo.eval_comparison Demo.a1 w)
    as [Hpos Hneg]; try reflexivity.
  split; [|exact Hneg]. apply Hpos. intros n.
  change (Demo.t0 + Z.of_nat (n `min` 1000) - (Demo.t0 + 0) <= 1000000). lia.
Defined.

(** ** The manager *)

Lemma state_of_registered (m : Tree.BehaviorTreeManager) (state_id : string)
    (s : Tree.BehaviorState) :
  Tree.state_of m state_id = Some s -> state_id ∈ dom (Tree.states m).
Proof.
  unfold Tree.state_of. intros H. apply elem_of_dom.
  destruct (Tree.states m !! state_id); [eauto|discriminate].
Qed.

(** The fuel [validate_tree] gives to [check_cycles] is enough: the
    traversal never stops for lack of it. *)
Lemma check_cycles_fuel (fuel : nat) (m : Tree.BehaviorTreeManager)
    (state_id : string) (path visited : gset string) :
  (size (dom (Tree.states m) ∖ path) < fuel)%nat ->
  is_Some (Tree.check_cycles fuel m state_id path visited).
Proof.
  revert state_id path visited.
  induction fuel as [|fuel IH]; intros state_id path visited Hsize; [lia|].
  simpl. destruct (decide (state_id ∈ path)) as [|Hpath]; [eauto|].
  destruct (decide (state_id ∈ visited)); [eauto|].
  destruct (Tree.state_of m state_id) as [s|] eqn:Hs; [|eauto].
  apply state_of_registered in Hs.
  assert (size (dom (Tree.states m) ∖ ({[state_id]} ∪ path)) < fuel)%nat as Hless.
  { assert (dom (Tree.states m) ∖ ({[state_id]} ∪ path) ⊂ dom (Tree.states m) ∖ path)
      as Hsub.
    { split.
      - intros x. rewrite !elem_of_difference, elem_of_union. tauto.
      - intros Hall. specialize (Hall state_id).
        rewrite !elem_of_difference, elem_of_union, elem_of_singleton in Hall.
        tauto. }
    apply subset_size in Hsub. lia. }
  generalize ({[state_id]} ∪ visited).
  induction (children (Tree.definition s)) as [|child_id rest IHrest]; intros vis; [eauto|].
  destruct (IH child_id ({[state_id]} ∪ path) vis Hless) as [[[|] vis'] ->]; [apply IHrest|eauto].
Qed.

Lemma validate_tree_fuel (m : Tree.BehaviorTreeManager) :
  is_Some (Tree.check_cycles (S (size (Tree.states m))) m "root" ∅ ∅).
Proof.
  apply check_cycles_fuel.
  rewrite difference_empty_L, size_dom. lia.
Qed.

(** Both demo trees are reached by successful calls and pass validation. *)
Example demo_trees_are_valid :
  (Tree.add_state Demo.a1_definition "root"
     (Tree.init Demo.world).1 (Tree.init Demo.world).2).1.1 = Tree.Return true ∧
  (Tree.add_state Demo.a2_definition "root" Demo.tree_a1.1 Demo.tree_a1.2).1.1
  = Tree.Return true ∧
  Tree.validate_tree Demo.tree_a1.1 = true ∧
  Tree.validate_tree Demo.tree_a1_a2.1 = true ∧
  children <$> Tree.definition_of Demo.tree_a1_a2.1 "root" = Some ["a1"; "a2"] ∧
  Tree.attached_ids Demo.tree_a1_a2.1 "root" = Some ["a1"; "a2"].
Proof. vm_compute. repeat split; reflexivity. Qed.

(** The guards of [add_state] and [remove_state], and a removal. *)
Example add_and_remove_guards :
  let '(m, w) := Demo.tree_a1_a2 in
  (Tree.add_state Demo.a1_definition "root" m w).1.1
  = Tree.Raise (Tree.BehaviorTreeError "State with ID 'a1' already exists") ∧
  (Tree.add_state (Demo.definition_of_kind "b" ACTION 5 [] [] 1) "nowhere" m w).1.1
  = Tree.Raise (Tree.BehaviorTreeError "Parent state 'nowhere' not found") ∧
  (Tree.remove_state "root" m w).1
  = (Tree.Raise (Tree.BehaviorTreeError "Cannot remove root state"), m) ∧
  (Tree.remove_state "a1" m w).1.1 = Tree.Return true ∧
  dom (Tree.states (Tree.remove_state "a1" m w).1.2) = {["root"; "a2"]} ∧
  children <$> Tree.definition_of (Tree.remove_state "a1" m w).1.2 "root" = Some ["a2"] ∧
  Tree.attached_ids (Tree.remove_state "a1" m w).1.2 "root" = Some ["a2"].
Proof. vm_compute. repeat split; reflexivity. Qed.

(** [remove_state("root")] raises and changes nothing, whatever the tree. *)
Lemma remove_state_root (m : Tree.BehaviorTreeManager) (w : World) :
  Tree.remove_state "root" m w
  = (Tree.Raise (Tree.BehaviorTreeError "Cannot remove root state"), m, w).
Proof. reflexivity. Qed.

(** Inside the cooldown window a call on a registered id raises the
    cooldown error and leaves the manager as it was. *)
Lemma modify_state_in_cooldown (state_id : string) (updates : list Tree.FieldUpdate)
    (m : Tree.BehaviorTreeManager) (w : World) :
  is_Some (Tree.states m !! state_id) ->
  clock w (ticks w) - Tree.last_modification m < Tree.modification_cooldown m ->
  Tree.modify_state state_id updates m w
  = (Tree.Raise (Tree.BehaviorTreeError "Modification cooldown active"),
     m, snd (datetime_now w)).
Proof.
  intros [r Hr] Hlt. unfold Tree.modify_state. rewrite Hr. simpl.
  destruct (Z.ltb_spec (clock w (ticks w) - Tree.last_modification m)
              (Tree.modification_cooldown m)); [reflexivity|lia].
Qed.

Lemma update_keeps_settings (r : Tree.ref)
    (f : Tree.BehaviorState -> Tree.BehaviorState) (m : Tree.BehaviorTreeManager) :
  Tree.modification_cooldown (Tree.update r f m) = Tree.modification_cooldown m
  ∧ Tree.last_modification (Tree.update r f m) = Tree.last_modification m
  ∧ Tree.states (Tree.update r f m) = Tree.states m.
Proof. unfold Tree.update. by destruct (Tree.objects m !! r). Qed.

(** A successful [modify_state] leaves the third clock reading of the
    call in [last_modification], and the registry and the cooldown as
    they were. *)
Lemma modify_state_success (state_id : string) (updates : list Tree.FieldUpdate)
    (m m1 : Tree.BehaviorTreeManager) (w w1 : World) :
  Tree.modify_state state_id updates m w = (Tree.Return true, m1, w1) ->
  Tree.last_modification m1 = clock w (S (S (ticks w)))
  ∧ Tree.modification_cooldown m1 = Tree.modification_cooldown m
  ∧ Tree.states m1 = Tree.states m.
Proof.
  unfold Tree.modify_state, Tree.modify_state_except.
  destruct (Tree.states m !! state_id) as [r|]; [|discriminate]. simpl.
  destruct (Z.ltb _ _); [discriminate|].
  destruct (Tree.validate_tree _); simpl.
  - destruct (Tree.save_states _ _) as [[[]|e] w4].
    + intros [= <- <-]. simpl.
      rewrite !(proj1 (update_keeps_settings _ _ _)).
      rewrite !(proj2 (proj2 (update_keeps_settings _ _ _))).
      done.
    + destruct (Tree.restore_backup _ _ _) as [[[[]|?] ?] ?]; discriminate.
  - destruct (Tree.restore_backup _ _ _) as [[[[]|?] m4] w4]; [discriminate|].
    destruct (Tree.restore_backup _ _ _) as [[[[]|?] ?] ?]; discriminate.
Qed.

(** The first half of C4 on the code: a call that follows a successful
    modification before the cooldown has elapsed raises the cooldown
    error and leaves the manager, hence every definition, as it was. *)
Lemma second_modify_state_in_cooldown
    (state_id state_id' : string) (updates updates' : list Tree.FieldUpdate)
    (m m1 : Tree.BehaviorTreeManager) (w w1 w2 : World) :
  Tree.modify_state state_id updates m w = (Tree.Return true, m1, w1) ->
  is_Some (Tree.states m !! state_id') ->
  clock w2 (ticks w2) - clock w (S (S (ticks w))) < Tree.modification_cooldown m ->
  Tree.modify_state state_id' updates' m1 w2
  = (Tree.Raise (Tree.BehaviorTreeError "Modification cooldown active"),
     m1, snd (datetime_now w2)).
Proof.
  intros Hfirst Hreg Hsoon.
  apply modify_state_success in Hfirst as (Hlast & Hcool & Hstates).
  apply modify_state_in_cooldown.
  - by rewrite Hstates.
  - rewrite Hlast, Hcool. exact Hsoon.
Qed.

(** C1, at a failing input.  On the tree with [a1] under the root,
    [modify_state("a1", {"children": ["a1"]})] makes a cycle: validation
    fails, the backup is restored and the call returns [False].  The
    registered ids and the definition of [a1] are as before, but the root
    has lost its child, in [definition.children] and in its ownership
    list. *)
Theorem modify_state_failure_empties_root :
  let '(m, w) := Demo.tree_a1 in
  let '(r, m', _) := Tree.modify_state "a1" [Tree.SetChildren ["a1"]] m w in
  r = Tree.Return false ∧
  dom (Tree.states m') = dom (Tree.states m) ∧
  Tree.definition_of m' "a1" = Tree.definition_of m "a1" ∧
  children <$> Tree.definition_of m "root" = Some ["a1"] ∧
  children <$> Tree.definition_of m' "root" = Some [] ∧
  Tree.attached_ids m "root" = Some ["a1"] ∧
  Tree.attached_ids m' "root" = Some [].
Proof. vm_compute. repeat split; reflexivity. Qed.

(** The same loss on the path through the exception handler: the update
    is valid but the file cannot be written. *)
Example modify_state_exception_empties_root :
  let '(m, w) := Demo.tree_a1 in
  let '(r, m', _) :=
    Tree.modify_state "a1" [Tree.SetName "renamed"] m (Demo.read_only w) in
  r = Tree.Return false ∧
  name <$> Tree.definition_of m' "a1" = Some "a1" ∧
  children <$> Tree.definition_of m "root" = Some ["a1"] ∧
  children <$> Tree.definition_of m' "root" = Some [] ∧
  Tree.attached_ids m' "root" = Some [].
Proof. vm_compute. repeat split; reflexivity. Qed.

(** C2, at a failing input.  [restore_backup(create_backup())] on the
    tree with [a1] under the root keeps the ids and the node [a1], and
    replaces the root by a new [RootState()]: its children are gone and
    its metadata carry the time of the restore. *)
Theorem restore_backup_replaces_root :
  let '(m, w) := Demo.tree_a1 in
  let '(r, m', _) := Tree.restore_backup (Tree.create_backup m) m w in
  r = Tree.Return tt ∧
  dom (Tree.states m') = dom (Tree.states m) ∧
  Tree.definition_of m' "a1" = Tree.definition_of m "a1" ∧
  children <$> Tree.definition_of m "root" = Some ["a1"] ∧
  children <$> Tree.definition_of m' "root" = Some [] ∧
  Tree.attached_ids m "root" = Some ["a1"] ∧
  Tree.attached_ids m' "root" = Some [] ∧
  created_at ∘ metadata <$> Tree.definition_of m' "root"
  ≠ created_at ∘ metadata <$> Tree.definition_of m "root" ∧
  Tree.root_state m' ≠ default 0%nat (Tree.states m' !! "root").
Proof. vm_compute. repeat split; try reflexivity; discriminate. Qed.

(** C3, at a failing input.  On the tree with [a1] and [a2] under the
    root, [modify_state("a1", {"children": ["a2"]})] succeeds (the tree
    stays acyclic).  Afterwards [definition.children] of [a1] is
    [["a2"]] while its ownership list is still empty. *)
Theorem modify_state_children_not_attached :
  let '(m, w) := Demo.tree_a1_a2 in
  let '(r, m', _) := Tree.modify_state "a1" [Tree.SetChildren ["a2"]] m w in
  r = Tree.Return true ∧
  Tree.validate_tree m' = true ∧
  children <$> Tree.definition_of m' "a1" = Some ["a2"] ∧
  Tree.attached_ids m' "a1" = Some [].
Proof. vm_compute. repeat split; reflexivity. Qed.

(** C4, at a failing input.  No modification has succeeded yet
    ([last_modification] is [datetime.min]).  A first call fails
    validation and returns [False]; a second, valid call a few
    milliseconds later is rejected by the cooldown, because the first
    call had already recorded its time. *)
Theorem failed_validation_starts_cooldown :
  let '(m, w) := Demo.tree_a1 in
  let '(r1, m1, w1) := Tree.modify_state "a1" [Tree.SetChildren ["a1"]] m w in
  let '(r2, m2, _) := Tree.modify_state "a1" [Tree.SetName "renamed"] m1 w1 in
  Tree.last_modification m = 0 ∧
  r1 = Tree.Return false ∧
  Tree.last_modification m1 = clock w (ticks w + 2) ∧
  r2 = Tree.Raise (Tree.BehaviorTreeError "Modification cooldown active") ∧
  name <$> Tree.definition_of m2 "a1" = Some "a1".
Proof. vm_compute. repeat split; reflexivity. Qed.

(** ** The memory system *)

Section MemFacts.

Import Mem Spec.

Variable rnd : Q -> Q.

Lemma py_clamp_unit (x : Q) : (0 <= Py.max 0 (Py.min 1 x) <= 1)%Q.
Proof.
  unfold Py.max, Py.min.
  destruct (Qlt_le_dec x 1); destruct (Qlt_le_dec 0 _); split; lra.
Qed.

Lemma delete_all_lookup (ids : list string) (db : gmap string Row) (n : Z) (k : string) :
  (delete_all ids db n).1 !! k = if decide (k ∈ ids) then None else db !! k.
Proof.
  revert db n. induction ids as [|i ids IH]; intros db n; simpl.
  - destruct (decide (k ∈ [])) as [Hin|]; [by apply elem_of_nil in Hin|done].
  - rewrite IH.
    destruct (decide (k ∈ ids)) as [Hin|Hin], (decide (k ∈ i :: ids)) as [Hin'|Hin'];
      try done.
    + exfalso. apply Hin'. by right.
    + apply elem_of_cons in Hin' as [->|?]; [apply lookup_delete_eq|done].
    + apply lookup_delete_ne. intros ->. apply Hin'. by left.
Qed.

Lemma delete_all_size (ids : list string) (db : gmap string Row) (n : Z) :
  (size db <= size (delete_all ids db n).1 + length ids)%nat.
Proof.
  revert db n. induction ids as [|i ids IH]; intros db n; simpl; [lia|].
  specialize (IH (delete i db) (n + 1)).
  destruct (db !! i) eqn:Hi.
  - assert (is_Some (db !! i)) as Hs by eauto.
    rewrite (map_size_delete_Some i db Hs) in IH.
    destruct (size db); simpl in IH; lia.
  - rewrite delete_id in IH |- * by done. lia.
Qed.


Lemma elem_of_sql_limit {A : Type} (n : Z) (l : list A) (x : A) :
  x ∈ sql_limit n l -> x ∈ l.
Proof.
  unfold sql_limit. destruct (Z.ltb n 0); [done|].
  rewrite <- (take_drop (Z.to_nat n) l) at 2. intros H.
  apply elem_of_app. by left.
Qed.

Lemma elem_of_select (memory_type : option MemoryType) (min_importance : Q)
    (limit : Z) (db : gmap string Row) (key : string) (row : Row) :
  (key, row) ∈ select memory_type min_importance limit db ->
  db !! key = Some row ∧ matches memory_type min_importance (key, row) = true.
Proof.
  unfold select. intros H. apply elem_of_sql_limit in H.
  rewrite (sorted_desc_perm above) in H.
  apply list_elem_of_In, filter_In in H as [H1 H2].
  split; [|done]. by apply elem_of_map_to_list, list_elem_of_In.
Qed.

Lemma elem_of_collect (wanted : option (list string)) (rows : list (string * Row))
    (acc : list Memory) (memory : Memory) :
  memory ∈ collect wanted rows acc ->
  memory ∈ acc ∨ ∃ key row, (key, row) ∈ rows ∧ memory = of_row key row.
Proof.
  revert acc. induction rows as [|[key row] rows IH]; intros acc; simpl; [by left|].
  assert (memory ∈ collect wanted rows (acc ++ [of_row key row]) ->
          memory ∈ acc ∨ ∃ key0 row0, (key0, row0) ∈ (key, row) :: rows
                                      ∧ memory = of_row key0 row0) as Hadd.
  { intros H. apply IH in H as [H|(k & r & ? & ?)].
    - apply elem_of_app in H as [?|H]; [by left|].
      apply list_elem_of_singleton in H. right. exists key, row. split; [by left|done].
    - right. exists k, r. split; [by right|done]. }
  assert (memory ∈ collect wanted rows acc ->
          memory ∈ acc ∨ ∃ key0 row0, (key0, row0) ∈ (key, row) :: rows
                                      ∧ memory = of_row key0 row0) as Hskip.
  { intros H. apply IH in H as [H|(k & r & ? & ?)]; [by left|].
    right. exists k, r. split; [by right|done]. }
  destruct wanted as [[|t ts]|]; [exact Hadd| |exact Hadd].
  destruct (negb _); [exact Hskip|exact Hadd].
Qed.

Lemma elem_of_candidates (cutoff_date : Z) (db : gmap string Row) (key : string) :
  key ∈ candidates rnd cutoff_date db ->
  ∃ row, db !! key = Some row ∧
         (col_type row = EPISODIC ∨ col_type row = SEMANTIC) ∧
         removable rnd cutoff_date (of_row key row) = true.
Proof.
  unfold candidates. intros H.
  apply list_elem_of_In, in_flat_map in H as (ty & Hty & H).
  apply list_elem_of_In, list_elem_of_fmap in H as (memory & -> & H).
  apply list_elem_of_In, filter_In in H as [H Hrem].
  apply list_elem_of_In in H. unfold find_memories in H.
  apply elem_of_collect in H as [H|(k & row & H & ->)]; [by apply elem_of_nil in H|].
  apply elem_of_select in H as [Hdb Hm]. simpl.
  exists row. split; [done|]. split; [|done].
  unfold matches in Hm. apply andb_true_iff in Hm as [_ Hm].
  apply bool_decide_eq_true in Hm. simpl in Hm.
  simpl in Hty. destruct Hty as [<-|[<-|[]]]; auto.
Qed.


Lemma delete_all_count (ids : list string) (db : gmap string Row) (n : Z) :
  (delete_all ids db n).2 = n + Z.of_nat (length ids).
Proof.
  revert db n. induction ids as [|i ids IH]; intros db n; simpl; [lia|].
  rewrite IH. lia.
Qed.

(** C7. One pass of [_consolidate_memories] makes the table smaller by
    at most 100 rows and logs a count of at most 100; it adds and changes
    nothing, and leaves the working memory alone.  Every row it deletes
    is Episodic or Semantic, has a timestamp more than thirty days before
    the clock reading of the pass, an importance below 0.3 and an access
    count below 2; so a row with an access count of 2 or more, or an
    importance of 0.3 or more, or an age under thirty days, is kept. *)
Theorem consolidation_removes_only_stale (mm : MemoryManager) (w : World) :
  let r := _consolidate_memories rnd mm w in
  let mm' := r.1.1 in
  let now := clock w (ticks w) in
  let thirty_days := 30 * 24 * 3600 * 1000000 in
  (size (storage mm) <= size (storage mm') + 100)%nat ∧
  0 <= r.1.2 <= 100 ∧
  storage mm' ⊆ storage mm ∧
  working_memory mm' = working_memory mm ∧
  (∀ key row,
     storage mm !! key = Some row -> storage mm' !! key = None ->
     (col_type row = EPISODIC ∨ col_type row = SEMANTIC) ∧
     col_timestamp row < now - thirty_days ∧
     (col_importance row < rnd (3 # 10))%Q ∧
     col_access_count row < 2) ∧
  (∀ key row,
     storage mm !! key = Some row ->
     2 <= col_access_count row ∨ (rnd (3 # 10) <= col_importance row)%Q
       ∨ now - col_timestamp row < thirty_days ->
     storage mm' !! key = Some row).
Proof.
  cbv beta iota zeta delta [_consolidate_memories datetime_now].
  set (cutoff := clock w (ticks w) - 30 * 24 * 3600 * 1000000).
  set (ids := Py.slice_to 100 (candidates rnd cutoff (storage mm))).
  assert (length ids <= 100)%nat as Hlen by apply firstn_le_length.
  pose proof (delete_all_size ids (storage mm) 0) as Hsize.
  pose proof (delete_all_count ids (storage mm) 0) as Hcount.
  pose proof (delete_all_lookup ids (storage mm) 0) as Hlookup.
  destruct (delete_all ids (storage mm) 0) as [db removed].
  cbn [fst snd storage working_memory with_storage] in *.
  assert (∀ key row, storage mm !! key = Some row -> db !! key = None ->
            (col_type row = EPISODIC ∨ col_type row = SEMANTIC) ∧
            col_timestamp row < cutoff ∧
            (col_importance row < rnd (3 # 10))%Q ∧
            col_access_count row < 2) as Hdeleted.
  { intros key row Hrow Hgone. rewrite Hlookup in Hgone.
    destruct (decide (key ∈ ids)) as [Hin|]; [|congruence].
    assert (key ∈ candidates rnd cutoff (storage mm)) as Hcand.
    { unfold ids, Py.slice_to in Hin.
      rewrite <- (take_drop 100 (candidates rnd cutoff (storage mm))).
      apply elem_of_app. by left. }
    apply elem_of_candidates in Hcand as (row' & Hrow' & Hty & Hrem).
    assert (row' = row) as -> by congruence.
    split; [done|]. unfold removable in Hrem. simpl in Hrem.
    apply andb_true_iff in Hrem as [Hrem Hacc].
    apply andb_true_iff in Hrem as [Hts Himp].
    apply Z.ltb_lt in Hts, Hacc.
    destruct (Qlt_le_dec (col_importance row) (rnd (3 # 10))); [done|discriminate]. }
  split; [lia|]. split; [lia|]. split; [|split; [done|split; [exact Hdeleted|]]].
  - apply map_subseteq_spec. intros key row. rewrite Hlookup.
    by destruct (decide (key ∈ ids)).
  - intros key row Hrow Hkeep.
    destruct (db !! key) as [row'|] eqn:Hdb.
    + rewrite Hlookup in Hdb. destruct (decide (key ∈ ids)); congruence.
    + destruct (Hdeleted key row Hrow Hdb) as (_ & Hts & Himp & Hacc).
      unfold cutoff in Hts. destruct Hkeep as [?|[?|?]]; [lia|lra|lia].
Qed.

(** C9. Storing a Working memory under a fresh id returns that id and
    leaves the table of the durable store as it was.  The cache then
    holds under the id the record that was built: the given content,
    tags, context and states, the type Working, the first clock reading
    as timestamp, no access yet, and the importance the calculator gives
    it at the second reading; the other entries of the cache are kept.
    [clear_working_memory] empties the cache of any manager and leaves
    its table as it was.  After the clear, [retrieve_memory] of the id
    returns [None] and changes nothing. *)
Theorem working_memory_is_not_durable (memory_id : string) (content : Py.PyVal)
    (tags : list string) (context : Context) (associated_states : list string)
    (mm : MemoryManager) (w w2 : World) :
  storage mm !! memory_id = None ->
  let r := store_memory rnd memory_id content WORKING tags context
             associated_states mm w in
  let mm1 := r.1.2 in
  let built :=
    {| id := memory_id; Mem.content := content; type := WORKING;
       importance := 1 # 2; timestamp := clock w (ticks w);
       Mem.associated_states := associated_states; access_count := 0;
       last_accessed := None; Mem.tags := tags; Mem.context := context |} in
  r.1.1 = memory_id ∧
  storage mm1 = storage mm ∧
  working_memory mm1 !! memory_id
  = Some (set_importance
            (calculate_importance rnd (clock w (S (ticks w))) built context) built) ∧
  (∀ k, k ≠ memory_id -> working_memory mm1 !! k = working_memory mm !! k) ∧
  (∀ mm0, working_memory (clear_working_memory mm0) = ∅
          ∧ storage (clear_working_memory mm0) = storage mm0) ∧
  retrieve_memory rnd memory_id (clear_working_memory mm1) w2
  = (None, clear_working_memory mm1, w2).
Proof.
  intros Hfresh. unfold store_memory.
  cbn [datetime_now fst snd ticks clock].
  rewrite bool_decide_eq_true_2 by done.
  set (built := mkMemory memory_id content WORKING (1 # 2) (clock w (ticks w))
                  associated_states 0 None tags context).
  set (memory := set_importance _ built).
  set (mm0 := with_working_memory (<[memory_id := memory]> (working_memory mm)) mm).
  assert (∀ mm2 : MemoryManager,
            mm2 = schedule_consolidation mm0 ∨ mm2 = mm0 ->
            storage mm2 = storage mm
            ∧ working_memory mm2 = <[memory_id := memory]> (working_memory mm))
    as Hfields.
  { intros mm2 [-> | ->]; done. }
  match goal with |- context [if ?c then schedule_consolidation mm0 else mm0] =>
    destruct (Hfields (if c then schedule_consolidation mm0 else mm0)) as [Hst Hwm];
    [destruct c; auto|] end.
  cbn [fst snd]. split; [done|]. split; [exact Hst|].
  split; [by rewrite Hwm, lookup_insert_eq|].
  split; [intros k Hk; by rewrite Hwm, lookup_insert_ne|]. split; [done|].
  unfold retrieve_memory, storage_retrieve_memory.
  cbn [working_memory storage clear_working_memory with_working_memory].
  rewrite lookup_empty, Hst, Hfresh. reflexivity.
Qed.


Lemma above_precedes (x y : string * Row) : above y x = true -> precedes y x.
Proof.
  unfold above, precedes.
  destruct (Qlt_le_dec _ _); [by left|].
  destruct (Qeq_dec _ _) as [Heq|]; [|done].
  intros H%Z.ltb_lt. right. split; [by symmetry|lia].
Qed.

Lemma not_above_precedes (x y : string * Row) : above y x = false -> precedes x y.
Proof.
  unfold above, precedes.
  destruct (Qlt_le_dec _ _); [done|].
  destruct (Qeq_dec _ _) as [Heq|Hne].
  - intros H%Z.ltb_ge. by right.
  - intros _. left. lra.
Qed.

Lemma precedes_trans (a b c : string * Row) :
  precedes a b -> precedes b c -> precedes a c.
Proof.
  unfold precedes. intros [H1|[H1 H1']] [H2|[H2 H2']].
  - left. lra.
  - left. lra.
  - left. lra.
  - right. split; [lra|lia].
Qed.

Lemma collect_filter (wanted : list string) (rows : list (string * Row))
    (acc : list Memory) :
  wanted ≠ [] ->
  collect (Some wanted) rows acc
  = (acc ++ List.filter (any_tag wanted) (uncurry of_row <$> rows))%list.
Proof.
  intros Hne. destruct wanted as [|t ts]; [done|]. clear Hne.
  revert acc. induction rows as [|[key row] rows IH]; intros acc.
  - simpl. by rewrite app_nil_r.
  - cbn [collect fmap list_fmap List.filter uncurry].
    destruct (any_tag (t :: ts) (of_row key row)); cbn [negb].
    + rewrite IH. by rewrite <- app_assoc.
    + apply IH.
Qed.

End MemFacts.


(** The table of the demo manager reads [None] under a new id. *)
Lemma working_memory_is_not_durable_witness :
  let r := Mem.store_memory Demo.exact "w1" (Py.PStr "draft") Mem.WORKING
             ["x"] Mem.empty_context [] Demo.manager Demo.world in
  let mm1 := r.1.2 in
  let built :=
    {| Mem.id := "w1"; Mem.content := Py.PStr "draft"; Mem.type := Mem.WORKING;
       Mem.importance := 1 # 2; Mem.timestamp := clock Demo.world (ticks Demo.world);
       Mem.associated_states := []; Mem.access_count := 0;
       Mem.last_accessed := None; Mem.tags := ["x"];
       Mem.context := Mem.empty_context |} in
  r.1.1 = "w1" ∧
  Mem.storage mm1 = Mem.storage Demo.manager ∧
  Mem.working_memory mm1 !! "w1"
  = Some (Mem.set_importance
            (Mem.calculate_importance Demo.exact
               (clock Demo.world (S (ticks Demo.world))) built Mem.empty_context)
            built) ∧
  (∀ k, k ≠ "w1" ->
        Mem.working_memory mm1 !! k = Mem.working_memory Demo.manager !! k) ∧
  (∀ mm0, Mem.working_memory (Mem.clear_working_memory mm0) = ∅
          ∧ Mem.storage (Mem.clear_working_memory mm0) = Mem.storage mm0) ∧
  Mem.retrieve_memory Demo.exact "w1" (Mem.clear_working_memory mm1) Demo.world
  = (None, Mem.clear_working_memory mm1, Demo.world).
Proof.
  apply (working_memory_is_not_durable Demo.exact "w1" (Py.PStr "draft")
           ["x"] Mem.empty_context [] Demo.manager Demo.world Demo.world).
  reflexivity.
Defined.

(** On the demo manager one pass removes the stale row and nothing else. *)
Example consolidation_removes_old :
  let r := Mem._consolidate_memories Demo.exact Demo.manager Demo.world in
  dom (Mem.storage r.1.1) = {["read"; "new"]} ∧ r.1.2 = 1.
Proof. vm_compute. split; reflexivity. Qed.

(** C10. With a non-empty [tags] argument [find_memories] returns the
    tagged records among the first [limit] rows of the query, where the
    rows that match the type and the minimum importance are taken by
    descending importance, then descending timestamp: the tags are looked
    at after the limit.  On the demo table, with limit 2 and tag [x], the
    result is [m2] alone although [m2] and [m3] both match and carry the
    tag. *)
Theorem find_memories_filters_tags_after_limit :
  (∀ (memory_type : option Mem.MemoryType) (min_importance : Q) (limit : Z)
     (wanted : list string) (db : gmap string Mem.Row),
     wanted ≠ [] ->
     ∃ ordered : list (string * Mem.Row),
       ordered ≡ₚ List.filter (Mem.matches memory_type min_importance) (map_to_list db) ∧
       StronglySorted Spec.precedes ordered ∧
       Mem.find_memories memory_type min_importance limit (Some wanted) db
       = List.filter (Mem.any_tag wanted)
           (uncurry Mem.of_row <$> Mem.sql_limit limit ordered)) ∧
  (Mem.id <$> Mem.find_memories None 0 2 (Some ["x"]) Demo.table = ["m2"] ∧
   Mem.id <$> List.filter (Mem.any_tag ["x"])
                (uncurry Mem.of_row <$>
                   List.filter (Mem.matches None 0) (map_to_list Demo.table))
   ≡ₚ ["m2"; "m3"]).
Proof.
  split.
  - intros memory_type min_importance limit wanted db Hne.
    exists (Py.sorted_desc Mem.above
              (List.filter (Mem.matches memory_type min_importance) (map_to_list db))).
    split; [apply sorted_desc_perm|]. split.
    + apply (sorted_desc_sorted Mem.above Spec.precedes).
      * apply above_precedes.
      * apply not_above_precedes.
      * apply precedes_trans.
    + unfold Mem.find_memories, Mem.select. by rewrite collect_filter.
  - split; vm_compute; [reflexivity|].
    apply Permutation_refl || apply perm_swap.
Qed.


(** The query with tag [x] on the demo table. *)
Lemma find_memories_filters_tags_after_limit_witness :
  ∃ ordered : list (string * Mem.Row),
    ordered ≡ₚ List.filter (Mem.matches None 0) (map_to_list Demo.table) ∧
    StronglySorted Spec.precedes ordered ∧
    Mem.find_memories None 0 2 (Some ["x"]) Demo.table
    = List.filter (Mem.any_tag ["x"])
        (uncurry Mem.of_row <$> Mem.sql_limit 2 ordered).
Proof.
  apply (proj1 find_memories_filters_tags_after_limit None 0%Q 2 ["x"] Demo.table).
  discriminate.
Defined.

(** C8. For every memory, context, clock reading and rounding,
    [calculate_importance] is between 0 and 1.  A comparison with an
    empty side adds nothing to the relevance: with no tags on one side
    the relevance is what it is without the tags of the context; the same
    holds for the states; with no word on one side of the content
    comparison, or a content that is not a string, it is what it is
    without the content of the context; and when each of the three
    comparisons has an empty side the relevance is 0. *)
Theorem importance_in_unit_interval (rnd : Q -> Q) (now : Z)
    (memory : Mem.Memory) (context : Mem.Context) :
  (0 <= Mem.calculate_importance rnd now memory context <= 1)%Q ∧
  (Mem.ctx_tags context = [] ∨ Mem.tags memory = [] ->
   Mem._calculate_relevance rnd memory context
   = Mem._calculate_relevance rnd memory (Spec.drop_tags context)) ∧
  (Mem.ctx_current_states context = [] ∨ Mem.associated_states memory = [] ->
   Mem._calculate_relevance rnd memory context
   = Mem._calculate_relevance rnd memory (Spec.drop_states context)) ∧
  (Spec.words (Mem.ctx_content context) = []
   ∨ (∀ text, Mem.content memory = Py.PStr text -> Spec.words text = []) ->
   Mem._calculate_relevance rnd memory context
   = Mem._calculate_relevance rnd memory (Spec.drop_content context)) ∧
  (Mem.ctx_tags context = [] ∨ Mem.tags memory = [] ->
   Mem.ctx_current_states context = [] ∨ Mem.associated_states memory = [] ->
   Spec.words (Mem.ctx_content context) = []
   ∨ (∀ text, Mem.content memory = Py.PStr text -> Spec.words text = []) ->
   Mem._calculate_relevance rnd memory context = 0%Q).
Proof.
  split; [apply py_clamp_unit|].
  assert (∀ c, Mem.ctx_tags c = [] ∨ Mem.tags memory = [] ->
               Mem._calculate_relevance rnd memory c
               = Mem._calculate_relevance rnd memory (Spec.drop_tags c)) as Htags.
  { intros c. unfold Mem._calculate_relevance, Spec.drop_tags.
    cbn [Mem.ctx_tags Mem.ctx_current_states Mem.ctx_content].
    intros [-> | ->]; [reflexivity|]. by destruct (Mem.ctx_tags c). }
  assert (∀ c, Mem.ctx_current_states c = [] ∨ Mem.associated_states memory = [] ->
               Mem._calculate_relevance rnd memory c
               = Mem._calculate_relevance rnd memory (Spec.drop_states c)) as Hstates.
  { intros c. unfold Mem._calculate_relevance, Spec.drop_states.
    cbn [Mem.ctx_tags Mem.ctx_current_states Mem.ctx_content].
    intros [-> | ->]; [reflexivity|]. by destruct (Mem.ctx_current_states c). }
  assert (∀ c, Spec.words (Mem.ctx_content c) = []
               ∨ (∀ text, Mem.content memory = Py.PStr text -> Spec.words text = []) ->
               Mem._calculate_relevance rnd memory c
               = Mem._calculate_relevance rnd memory (Spec.drop_content c)) as Hcontent.
  { intros c. unfold Mem._calculate_relevance, Spec.drop_content, Spec.words.
    cbn [Mem.ctx_tags Mem.ctx_current_states Mem.ctx_content].
    intros [Hw | Hw].
    - rewrite Hw. destruct (Mem.content memory); try reflexivity.
      by destruct (String.eqb _ _).
    - destruct (Mem.content memory) as [|text| |] eqn:Hc; try reflexivity.
      rewrite (Hw text eq_refl).
      destruct (String.eqb _ _); [reflexivity|].
      by destruct (Py.split (Py.lower (Mem.ctx_content c))). }
  split; [apply Htags|]. split; [apply Hstates|]. split; [apply Hcontent|].
  intros H1 H2 H3.
  rewrite Htags, Hstates, Hcontent by (done || (by left)).
  unfold Mem._calculate_relevance. simpl. by destruct (Mem.content memory).
Qed.

(** The calculator in exact arithmetic: a new memory that was never read
    and matches nothing scores 0.3 (recency) + 0.05 (neutral emotion);
    two marker words add 0.02; a matching tag adds 0.3. *)
Example importance_of_a_note :
  let memory text tgs :=
    Mem.of_row "m" {| Mem.content_data := Py.PStr text; Mem.col_type := Mem.EPISODIC;
                      Mem.col_importance := 1 # 2; Mem.col_timestamp := Demo.t0;
                      Mem.col_associated_states := []; Mem.col_access_count := 0;
                      Mem.col_last_accessed := None; Mem.col_tags := tgs;
                      Mem.col_context := Mem.empty_context |} in
  (Mem.calculate_importance Demo.exact Demo.t0 (memory "a note" [])
     Mem.empty_context == 35 # 100)%Q ∧
  (Mem.calculate_importance Demo.exact Demo.t0 (memory "URGENT and important" [])
     Mem.empty_context == 37 # 100)%Q ∧
  (Mem.calculate_importance Demo.exact Demo.t0 (memory "a note" ["x"])
     {| Mem.ctx_tags := ["x"]; Mem.ctx_current_states := [];
        Mem.ctx_content := "" |} == 65 # 100)%Q.
Proof. vm_compute. repeat split; reflexivity. Qed.

(** A memory without tags, scored against a context that has some. *)
Lemma importance_in_unit_interval_witness :
  let memory := Mem.of_row "m1" (Demo.row Mem.EPISODIC (9 # 10) Demo.t0 0 []) in
  let context := {| Mem.ctx_tags := ["x"]; Mem.ctx_current_states := [];
                    Mem.ctx_content := "a note" |} in
  (0 <= Mem.calculate_importance Demo.exact Demo.t0 memory context <= 1)%Q ∧
  Mem._calculate_relevance Demo.exact memory context
  = Mem._calculate_relevance Demo.exact memory (Spec.drop_tags context).
Proof.
  intros memory context.
  destruct (importance_in_unit_interval Demo.exact Demo.t0 memory context)
    as (Hrange & Htags & _).
  split; [exact Hrange|]. apply Htags. right. reflexivity.
Defined.

(** * Further properties of the code *)

Set Warnings "-clear-no-such-hyp".

(** ** Executing a node: what a call returns and what it changes *)

Section ExecuteMore.

Import Exec Spec.

Variable py_eval : StateDefinition -> Context -> string -> option bool.
Variable action_runner : string -> Context -> option bool.

Abbreviation exec := (execute py_eval action_runner).

(** Induction on a node with the property known of every attached child. *)
Lemma BehaviorState_tree_ind (P : BehaviorState -> Prop) :
  (∀ self, Forall P (attached self) -> P self) -> ∀ self, P self.
Proof.
  intros step. fix IH 1. intros [c d st t kids]. apply step. simpl.
  induction kids as [|k kids IHkids]; constructor; [apply IH|exact IHkids].
Qed.

Lemma sort_children_Forall (P : Child -> Prop) (cs : list Child) :
  Forall P cs -> Forall P (sort_children cs).
Proof.
  intros H. unfold sort_children.
  by rewrite (sorted_desc_perm (Py.by_key child_priority) cs).
Qed.

Lemma number_children_bound (pre l : list BehaviorState) :
  Forall (bound_to py_eval action_runner (pre ++ l)%list)
    (number_children (length pre)
       (map (fun c => (priority (definition c), exec c)) l)).
Proof.
  revert pre. induction l as [|b l IH]; intros pre; simpl; constructor.
  - exists b. simpl. split; [|done].
    by rewrite lookup_app_r, Nat.sub_diag by lia.
  - specialize (IH (pre ++ [b])%list). rewrite length_app in IH. simpl in IH.
    rewrite <- app_assoc in IH. simpl in IH.
    by rewrite Nat.add_1_r in IH.
Qed.

Lemma children_bound (self : BehaviorState) :
  Forall (bound_to py_eval action_runner (attached self))
    (sort_children
       (number_children 0
          (map (fun c => (priority (definition c), exec c)) (attached self)))).
Proof. apply sort_children_Forall, (number_children_bound []). Qed.

(** *** Statuses *)


Lemma run_children_terminal (self : BehaviorState) (context : Context)
    (cs : list Child) (kids : list BehaviorState) (w : World) :
  Forall (fun c => ∀ w1, terminal (child_execute c context w1).1.1) cs ->
  terminal (run_children self cs context kids w).1.1.
Proof.
  intros Hall. revert kids w.
  induction Hall as [|c cs Hc _ IH]; intros kids w; simpl; [by left|].
  destruct (is_timed_out self w) as [[|] w1]; [by right|].
  specialize (Hc w1).
  destruct (child_execute c context w1) as [[st child'] w2]. simpl in *.
  destruct Hc as [-> | ->]; [apply IH|by right].
Qed.

(** X1.  Whatever the node, the context and the world, [execute] returns
    Success or Failure: no call ends with Running or Idle, although a
    node is marked Running while it runs. *)
Theorem execute_terminal (self : BehaviorState) (context : Context) (w : World) :
  terminal (exec self context w).1.1.
Proof.
  revert w. induction self as [self IH] using BehaviorState_tree_ind. intros w.
  rewrite execute_unfold.
  assert (terminal (CompositeState_execute py_eval self
            (number_children 0
               (map (fun c => (priority (definition c), exec c)) (attached self)))
            context w).1.1) as Hcomposite.
  { unfold CompositeState_execute.
    destruct (can_execute py_eval self context); simpl; [|by right].
    match goal with |- context [run_children ?s ?cs ?x ?k ?w1] =>
      pose proof (run_children_terminal s x cs k w1) as Hrun;
      destruct (run_children s cs x k w1) as [[st k'] w2] end.
    simpl in *. apply Hrun.
    apply sort_children_Forall.
    clear -IH. generalize 0%nat. induction IH as [|b l Hb _ IHl]; intros i; simpl;
      constructor; [intros w1; apply Hb|apply IHl]. }
  destruct (cls self); [| |exact Hcomposite|exact Hcomposite].
  - unfold ActionState_execute.
    destruct (can_execute py_eval self context); simpl; [|by right].
    match goal with |- context [run_actions ?r ?s ?a ?x ?w1] =>
      pose proof (run_actions_status r s x a w1) as Hrun;
      destruct (run_actions r s a x w1) as [st w2] end.
    exact Hrun.
  - unfold ConditionState_execute. simpl.
    destruct (can_execute py_eval _ context); [by left|by right].
Qed.

(** *** The world after a call *)

Lemma later_refl (w : World) : later w w.
Proof. by repeat split. Qed.

Lemma later_trans (w1 w2 w3 : World) : later w1 w2 -> later w2 w3 -> later w1 w3.
Proof.
  intros (? & ? & ? & ? & ? & ?) (? & ? & ? & ? & ? & ?).
  repeat split; try congruence; [lia|by etrans].
Qed.

Lemma later_emit (e : Event) (w : World) : later w (emit e w).
Proof. repeat split; simpl; [lia|by apply prefix_app_r]. Qed.

Lemma later_now (w : World) : later w (datetime_now w).2.
Proof. repeat split; simpl; [lia|done]. Qed.

Lemma is_timed_out_later (self : BehaviorState) (w : World) :
  later w (is_timed_out self w).2.
Proof.
  unfold is_timed_out. destruct (start_time self); [apply later_now|apply later_refl].
Qed.

Lemma run_actions_later (self : BehaviorState) (context : Context)
    (acts : list string) (w : World) :
  later w (run_actions action_runner self acts context w).2.
Proof.
  revert w. induction acts as [|a rest IH]; intros w; simpl; [apply later_refl|].
  destruct (action_runner a context) as [[|]|]; try apply later_emit.
  pose proof (is_timed_out_later self (emit (EvAction (id (definition self)) a) w)) as Hl.
  destruct (is_timed_out self _) as [[|] w2]; simpl in *.
  - eapply later_trans; [apply later_emit|exact Hl].
  - eapply later_trans; [apply later_emit|]. eapply later_trans; [exact Hl|apply IH].
Qed.

Lemma run_children_later (self : BehaviorState) (context : Context)
    (cs : list Child) (kids : list BehaviorState) (w : World) :
  Forall (fun c => ∀ w1, later w1 (child_execute c context w1).2) cs ->
  later w (run_children self cs context kids w).2.
Proof.
  intros Hall. revert kids w.
  induction Hall as [|c cs Hc _ IH]; intros kids w; simpl; [apply later_refl|].
  pose proof (is_timed_out_later self w) as Hl.
  destruct (is_timed_out self w) as [[|] w1]; [exact Hl|]. simpl in Hl.
  specialize (Hc w1).
  destruct (child_execute c context w1) as [[st child'] w2]. simpl in *.
  assert (later w w2) as Hw2 by (by eapply later_trans).
  destruct st; try exact Hw2; (eapply later_trans; [exact Hw2|apply IH]).
Qed.

(** X2.  A call of [execute] leaves the readings of the clock and the
    saved file as they are: it only takes readings and writes log lines,
    all of them after the entry of the call. *)
Theorem execute_later (self : BehaviorState) (context : Context) (w : World) :
  later (emit (EvExecute (id (definition self))) w) (exec self context w).2.
Proof.
  revert w. induction self as [self IH] using BehaviorState_tree_ind. intros w.
  rewrite execute_unfold.
  assert (later (emit (EvExecute (id (definition self))) w)
            (CompositeState_execute py_eval self
               (number_children 0
                  (map (fun c => (priority (definition c), exec c)) (attached self)))
               context w).2) as Hcomposite.
  { unfold CompositeState_execute.
    destruct (can_execute py_eval self context); simpl; [|apply later_refl].
    match goal with |- context [run_children ?s ?cs ?x ?k ?w1] =>
      pose proof (run_children_later s x cs k w1) as Hrun;
      destruct (run_children s cs x k w1) as [[st k'] w2] end.
    simpl in *. eapply later_trans; [apply later_now|]. apply Hrun.
    apply sort_children_Forall.
    clear -IH. generalize 0%nat. induction IH as [|b l Hb _ IHl]; intros i; simpl;
      constructor; [|apply IHl].
    intros w1. eapply later_trans; [apply later_emit|apply Hb]. }
  destruct (cls self); [| |exact Hcomposite|exact Hcomposite].
  - unfold ActionState_execute.
    destruct (can_execute py_eval self context); simpl; [|apply later_refl].
    match goal with |- context [run_actions ?r ?s ?a ?x ?w1] =>
      pose proof (run_actions_later s x a w1) as Hrun;
      destruct (run_actions r s a x w1) as [st w2] end.
    simpl in *. eapply later_trans; [apply later_now|exact Hrun].
  - unfold ConditionState_execute. simpl. apply later_now.
Qed.

(** *** The node after a call *)

Lemma bound_to_pick (P : BehaviorState -> Prop) (kids : list BehaviorState) (c : Child) :
  Forall P kids -> bound_to py_eval action_runner kids c ->
  ∃ b, kids !! position c = Some b ∧ child_execute c = exec b ∧ P b.
Proof.
  intros Hall (b & Hb & Hc). exists b. split; [done|]. split; [done|].
  by eapply Forall_lookup_1.
Qed.

Lemma run_children_erase (self : BehaviorState) (context : Context)
    (cs : list Child) (original kids : list BehaviorState) (w : World) :
  Forall (fun c => ∃ b, original !! position c = Some b ∧ child_execute c = exec b
                        ∧ ∀ x w1, erase (exec b x w1).1.2 = erase b) cs ->
  erase <$> kids = erase <$> original ->
  erase <$> (run_children self cs context kids w).1.2 = erase <$> original.
Proof.
  intros Hall. revert kids w.
  induction Hall as [|c cs (b & Hb & Hc & Hsame) _ IH]; intros kids w Hkids; simpl;
    [done|].
  destruct (is_timed_out self w) as [[|] w1]; [done|].
  rewrite Hc. specialize (Hsame context w1).
  destruct (exec b context w1) as [[st child'] w2]. simpl in *.
  assert (erase <$> <[position c := child']> kids = erase <$> original) as Hkids'.
  { rewrite list_fmap_insert, Hkids, Hsame.
    apply list_insert_id. by rewrite list_lookup_fmap, Hb. }
  destruct st; try exact Hkids'; by apply IH.
Qed.

(** X3.  [execute] changes nothing but [status] and [start_time]: the
    class, the definition and the ownership list of the node and of
    every node under it are after the call what they were before. *)
Theorem execute_erase (self : BehaviorState) (context : Context) (w : World) :
  erase (exec self context w).1.2 = erase self.
Proof.
  revert context w. induction self as [self IH] using BehaviorState_tree_ind.
  intros context w. rewrite execute_unfold.
  assert (erase (CompositeState_execute py_eval self
            (number_children 0
               (map (fun c => (priority (definition c), exec c)) (attached self)))
            context w).1.2 = erase self) as Hcomposite.
  { unfold CompositeState_execute.
    destruct (can_execute py_eval self context); simpl; [|done].
    match goal with |- context [run_children ?s ?cs ?x ?k ?w1] =>
      pose proof (run_children_erase s x cs (attached self) k w1) as Hrun;
      destruct (run_children s cs x k w1) as [[st k'] w2] end.
    simpl in *. destruct self as [c d s0 t kids]. simpl in *. f_equal.
    change (erase <$> k' = erase <$> kids). apply Hrun; [|done].
    eapply Forall_impl; [apply (children_bound (mkBehaviorState c d s0 t kids))|].
    intros ch Hch. simpl in Hch. by apply (bound_to_pick _ _ _ IH) in Hch. }
  destruct (cls self) eqn:Hcls; [| |exact Hcomposite|exact Hcomposite].
  - unfold ActionState_execute.
    destruct (can_execute py_eval self context); simpl; [|done].
    destruct (run_actions _ _ _ _ _) as [st w2]. by destruct self.
  - unfold ConditionState_execute. simpl. by destruct self.
Qed.

(** X4.  After [execute] the node holds the returned status in
    [status] and the first clock reading of the call in [start_time];
    the one exception is an action or composite node whose conditions do
    not all hold, which returns Failure and is left untouched.  A
    condition node is always stamped. *)
Theorem execute_bookkeeping (self : BehaviorState) (context : Context) (w : World) :
  let r := exec self context w in
  let stamped := status r.1.2 = r.1.1
                 ∧ start_time r.1.2 = Some (clock w (ticks w)) in
  match cls self with
  | ConditionState => stamped
  | _ => if can_execute py_eval self context then stamped
         else r.1.1 = FAILURE ∧ r.1.2 = self
  end.
Proof.
  simpl. rewrite execute_unfold.
  destruct (cls self); simpl.
  - unfold ActionState_execute.
    destruct (can_execute py_eval self context); simpl; [|done].
    by destruct (run_actions _ _ _ _ _) as [st w2].
  - unfold ConditionState_execute. simpl. done.
  - unfold CompositeState_execute.
    destruct (can_execute py_eval self context); simpl; [|done].
    by destruct (run_children _ _ _ _ _) as [[st k'] w2].
  - unfold CompositeState_execute.
    destruct (can_execute py_eval self context); simpl; [|done].
    by destruct (run_children _ _ _ _ _) as [[st k'] w2].
Qed.

(** *** Substitution *)

Lemma prefix_brace (key new : string) (c : ascii) (s : string) :
  Ascii.eqb c "{" = false ->
  String.prefix ("{" +:+ key +:+ "}") (String c s) = false.
Proof.
  intros Hc.
  change (String.prefix (String "{" (key +:+ "}")) (String c s) = false).
  cbn [String.prefix]. destruct (ascii_dec "{" c) as [<-|]; [|done].
  by rewrite Ascii.eqb_refl in Hc.
Qed.

Lemma replace_no_brace (key new s : string) :
  no_brace s = true -> Py.replace ("{" +:+ key +:+ "}") new s = s.
Proof.
  unfold Py.replace. induction s as [|c s IH]; [done|].
  cbn [no_brace]. intros [Hc Hs]%andb_true_iff. apply negb_true_iff in Hc.
  cbn [Py.replace_from]. rewrite (prefix_brace key new c s Hc).
  by rewrite IH.
Qed.

Lemma substitute_no_brace (condition : string) (context : Context) :
  no_brace condition = true -> substitute condition context = condition.
Proof.
  intros Hc. unfold substitute.
  induction context as [|[key value] context IH]; [done|].
  simpl. by rewrite replace_no_brace.
Qed.

(** X5.  A condition without an opening brace is handed to the
    evaluator as it is, whatever the context holds, and
    [_evaluate_condition] is the evaluator's verdict, False when the
    evaluator raises. *)
Theorem evaluate_without_placeholder (self : BehaviorState)
    (condition : string) (context : Context) :
  no_brace condition = true ->
  substitute condition context = condition ∧
  _evaluate_condition py_eval self condition context
  = default false (py_eval (definition self) context condition).
Proof.
  intros Hc. split; [by apply substitute_no_brace|].
  unfold _evaluate_condition. rewrite substitute_no_brace by done.
  by destruct (py_eval _ _ _).
Qed.

End ExecuteMore.

Lemma evaluate_without_placeholder_witness :
  Exec.substitute "5>0" [("x", Py.PInt 1)] = "5>0" ∧
  Exec._evaluate_condition Demo.eval_comparison Demo.a1 "5>0" [("x", Py.PInt 1)]
  = default false
      (Demo.eval_comparison (Exec.definition Demo.a1) [("x", Py.PInt 1)] "5>0").
Proof.
  apply (evaluate_without_placeholder Demo.eval_comparison Demo.a1 "5>0"
           [("x", Py.PInt 1)]).
  reflexivity.
Defined.

(** ** The manager: restoring, loading, validating, changing *)

Section ManagerMore.

Import Tree Spec.

(** *** The store *)

Lemma update_lookup (r r' : ref) (f : BehaviorState -> BehaviorState)
    (m : BehaviorTreeManager) :
  objects (update r f m) !! r'
  = if decide (r' = r) then f <$> objects m !! r else objects m !! r'.
Proof.
  unfold update. destruct (objects m !! r) as [s|] eqn:Hr; simpl.
  - destruct (decide (r' = r)) as [->|Hne].
    + apply list_lookup_insert_eq. by eapply lookup_lt_Some.
    + by apply list_lookup_insert_ne.
  - destruct (decide (r' = r)) as [->|]; [by rewrite Hr|done].
Qed.

Lemma update_length (r : ref) (f : BehaviorState -> BehaviorState)
    (m : BehaviorTreeManager) :
  length (objects (update r f m)) = length (objects m).
Proof.
  unfold update. destruct (objects m !! r); simpl; [apply length_insert|done].
Qed.

Lemma update_root_state (r : ref) (f : BehaviorState -> BehaviorState)
    (m : BehaviorTreeManager) :
  root_state (update r f m) = root_state m.
Proof. unfold update. by destruct (objects m !! r). Qed.

Lemma from_dict_to_dict (d : StateDefinition) (l : nat) (w : World) :
  from_dict (to_dict d l) w = (Return (d, l), (datetime_now (datetime_now w).2).2).
Proof.
  unfold from_dict. simpl. f_equal.
  destruct d as [i n t p c a ch md ts]. simpl.
  by destruct t.
Qed.

(** *** _rebuild_tree_structure *)

Lemma rebuild_one_states (m m' : BehaviorTreeManager) (s : BehaviorState) :
  states m = states m' -> rebuild_one m s = rebuild_one m' s.
Proof. unfold rebuild_one. by intros ->. Qed.

Abbreviation rebuild_fold l m :=
  (foldr (fun kr acc => update (snd kr) (rebuild_one acc) acc) m l).

Lemma rebuild_fold_settings (l : list (string * ref)) (m : BehaviorTreeManager) :
  states (rebuild_fold l m) = states m
  ∧ modification_cooldown (rebuild_fold l m) = modification_cooldown m
  ∧ last_modification (rebuild_fold l m) = last_modification m
  ∧ root_state (rebuild_fold l m) = root_state m
  ∧ length (objects (rebuild_fold l m)) = length (objects m).
Proof.
  induction l as [|kr l (IH1 & IH2 & IH3 & IH4 & IH5)]; simpl; [done|].
  destruct (update_keeps_settings kr.2 (rebuild_one (rebuild_fold l m))
              (rebuild_fold l m)) as (-> & -> & ->).
  by rewrite update_root_state, update_length.
Qed.

Lemma rebuild_fold_lookup (l : list (string * ref)) (m : BehaviorTreeManager) (r : ref) :
  objects (rebuild_fold l m) !! r
  = (if decide (r ∈ l.*2) then rebuild_one m else (fun s => s)) <$> objects m !! r.
Proof.
  induction l as [|kr l IH].
  - simpl. destruct (decide (r ∈ [])) as [H|]; [by apply elem_of_nil in H|].
    by destruct (objects m !! r).
  - cbn [foldr].
    rewrite update_lookup.
    assert (∀ s, rebuild_one (rebuild_fold l m) s = rebuild_one m s) as Hsame.
    { intros s. apply rebuild_one_states, rebuild_fold_settings. }
    assert (∀ s, rebuild_one m (rebuild_one m s) = rebuild_one m s) as Hidem by done.
    destruct (decide (r = kr.2)) as [->|Hne];
      destruct (decide (_ ∈ (kr :: l).*2)) as [Hin'|Hin'];
      rewrite IH; destruct (decide (_ ∈ l.*2)) as [Hin|Hin];
      destruct (objects m !! _) as [s|]; simpl; rewrite ?Hsame; try done.
    + exfalso. apply Hin'. apply elem_of_cons. by left.
    + exfalso. apply Hin'. apply elem_of_cons. by left.
    + apply elem_of_cons in Hin' as [?|?]; done.
    + exfalso. apply Hin'. apply elem_of_cons. by right.
Qed.

Lemma registered_ref (m : BehaviorTreeManager) (r : ref) :
  r ∈ (map_to_list (states m)).*2 <-> ∃ k, states m !! k = Some r.
Proof.
  rewrite list_elem_of_fmap. split.
  - intros ([k r'] & -> & H%elem_of_map_to_list). by exists k.
  - intros (k & H). exists (k, r). split; [done|]. by apply elem_of_map_to_list.
Qed.

Lemma rebuild_settings (m : BehaviorTreeManager) :
  states (_rebuild_tree_structure m) = states m
  ∧ modification_cooldown (_rebuild_tree_structure m) = modification_cooldown m
  ∧ last_modification (_rebuild_tree_structure m) = last_modification m
  ∧ root_state (_rebuild_tree_structure m) = root_state m
  ∧ length (objects (_rebuild_tree_structure m)) = length (objects m).
Proof. apply rebuild_fold_settings. Qed.

Lemma rebuild_lookup (m : BehaviorTreeManager) (r : ref) :
  objects (_rebuild_tree_structure m) !! r
  = (if decide (r ∈ (map_to_list (states m)).*2) then rebuild_one m else (fun s => s))
      <$> objects m !! r.
Proof. apply rebuild_fold_lookup. Qed.

(** X7.  [_rebuild_tree_structure] keeps the registry and gives to
    every registered object, as its ownership list, the objects
    registered under the ids of its [definition.children], in that
    order, ids that are not registered being skipped; an object no id is
    registered for is left as it is. *)
Theorem rebuild_mirrors_children (m : BehaviorTreeManager) (r : ref) (s : BehaviorState) :
  objects m !! r = Some s ->
  states (_rebuild_tree_structure m) = states m ∧
  ((∃ k, states m !! k = Some r) ->
   objects (_rebuild_tree_structure m) !! r
   = Some (set_attached
             (omap (fun child_id => states m !! child_id) (children (definition s))) s)) ∧
  ((∀ k, states m !! k ≠ Some r) ->
   objects (_rebuild_tree_structure m) !! r = Some s).
Proof.
  intros Hs. split; [apply rebuild_settings|].
  rewrite rebuild_lookup, Hs. split.
  - intros Hreg%registered_ref. by rewrite decide_True.
  - intros Hno. rewrite decide_False; [done|].
    intros (k & Hk)%registered_ref. by apply (Hno k).
Qed.

(** *** restore_backup *)

Lemma alloc_lookup (s : BehaviorState) (m : BehaviorTreeManager) (r : ref) (o : BehaviorState) :
  objects m !! r = Some o -> objects (alloc s m).2 !! r = Some o.
Proof. intros H. simpl. by apply lookup_app_l_Some. Qed.

(** Whatever the outcome, a pass over saved entries keeps every object
    that was in the store, the entries of the registry under other ids,
    and the settings of the manager; the store and the count of lists
    only grow. *)
Lemma restore_entries_frame {A : Type} (dict_of : A -> BehaviorTreeManager -> StateData)
    (l : list (string * A)) (m : BehaviorTreeManager) (w : World) :
  let r := restore_entries dict_of l m w in
  (∀ ref o, objects m !! ref = Some o -> objects r.1.2 !! ref = Some o) ∧
  (∀ k, k ∉ l.*1 -> states r.1.2 !! k = states m !! k) ∧
  modification_cooldown r.1.2 = modification_cooldown m ∧
  last_modification r.1.2 = last_modification m ∧
  root_state r.1.2 = root_state m ∧
  (lists_made m <= lists_made r.1.2)%nat ∧
  (∀ k (r0 : ref), states r.1.2 !! k = Some r0 ->
     states m !! k = Some r0 ∨ (length (objects m) <= r0)%nat).
Proof.
  revert m w. induction l as [|[k item] l IH]; intros m w; simpl.
  { repeat split; try done. intros; by left. }
  unfold restore_entry.
  destruct (from_dict (dict_of item m) w) as [[[d l0]|e] w1].
  2:{ simpl. repeat split; try done. intros; by left. }
  unfold new_list. cbv beta iota.
  destruct (create_state d l0 (lists_made m) w1) as [s w2]. simpl.
  match goal with |- context [restore_entries dict_of l ?m1 w2] =>
    specialize (IH m1 w2) end.
  destruct IH as (Hobj & Hst & Hc & Hl & Hr & Hn & Hnew). simpl in *.
  rewrite length_app in Hnew. simpl in Hnew.
  split; [|split; [|repeat split; try done; try lia]].
  - intros ref o Ho. apply Hobj. by apply lookup_app_l_Some.
  - intros k' Hk'. rewrite Hst.
    + apply lookup_insert_ne. intros ->. apply Hk'. by left.
    + intros ?. apply Hk'. by right.
  - intros k' ref Hk'. destruct (Hnew k' ref Hk') as [Hold|Hge]; [|right; lia].
    destruct (decide (k = k')) as [->|Hne].
    + rewrite lookup_insert_eq in Hold. injection Hold as <-. right. lia.
    + rewrite lookup_insert_ne in Hold by done. by left.
Qed.

Lemma from_dict_result (data : StateData) (w : World) :
  from_dict data w
  = ((from_dict data w).1, (datetime_now (datetime_now w).2).2).
Proof. by unfold from_dict. Qed.

Lemma from_dict_any_world (data : StateData) (w w' : World) :
  (from_dict data w).1 = (from_dict data w').1.
Proof. by unfold from_dict. Qed.

Lemma parsed_to_dict (d : StateDefinition) (l : nat) : parsed (fields (to_dict d l)) d.
Proof.
  intros l0 w0. change (mkStateData (fields (to_dict d l)) l0) with (to_dict d l0).
  by rewrite from_dict_to_dict.
Qed.

Lemma parsed_inj (data : StateDict) (d d' : StateDefinition) (w : World) :
  parsed data d -> parsed data d' -> d = d'.
Proof.
  intros H H'. specialize (H 0%nat w). specialize (H' 0%nat w).
  congruence.
Qed.

Lemma from_dict_parsed (data : StateData) (d : StateDefinition) (w : World) :
  parsed (fields data) d -> (from_dict data w).1 = Return (d, children_list data).
Proof. intros H. destruct data as [f l]. apply H. Qed.

(** When every saved type is a value of the enumeration and no id is
    saved twice, the pass succeeds and each id ends up registered with a
    new object, built by the factory from its saved definition and the
    list of its dict. *)
Lemma restore_entries_ok {A : Type} (dict_of : A -> BehaviorTreeManager -> StateData)
    (l : list (string * A)) (m : BehaviorTreeManager) (w : World) :
  NoDup l.*1 ->
  Forall (fun kd => ∃ d, ∀ m0, parsed (fields (dict_of kd.2 m0)) d) l ->
  let r := restore_entries dict_of l m w in
  r.1.1 = Return tt ∧
  ∀ k item, (k, item) ∈ l ->
    ∃ d (r0 : ref) w1 mk,
      (∀ m0, parsed (fields (dict_of item m0)) d) ∧
      states r.1.2 !! k = Some r0 ∧
      (length (objects m) <= r0)%nat ∧
      (lists_made m <= lists_made mk)%nat ∧
      objects r.1.2 !! r0
      = Some (create_state d (children_list (dict_of item mk)) (lists_made mk) w1).1.
Proof.
  revert m w. induction l as [|[k item] l IH]; intros m w Hnd Hall; simpl.
  - split; [done|]. intros k data H. by apply elem_of_nil in H.
  - apply NoDup_cons in Hnd as [Hk Hnd]. apply Forall_cons in Hall as [(d & Hd) Hall]. cbn [snd] in Hd.
    unfold restore_entry. rewrite from_dict_result, (from_dict_parsed _ d w (Hd m)).
    unfold new_list. cbv beta iota.
    destruct (create_state d _ _ _) as [s w2] eqn:Hcs. simpl.
    match goal with |- context [restore_entries dict_of l ?m' w2] => set (m1 := m') end.
    destruct (IH m1 w2 Hnd Hall) as [Hret Hin].
    destruct (restore_entries_frame dict_of l m1 w2) as (Hobj & Hst & _).
    split; [exact Hret|].
    intros k' data' [[= -> ->]|Hl]%elem_of_cons.
    + exists d, (length (objects m)), (datetime_now (datetime_now w).2).2, m.
      split; [exact Hd|]. rewrite Hcs. simpl. split; [|split; [lia|split; [lia|]]].
      * rewrite Hst by done. subst m1. simpl. apply lookup_insert_eq.
      * apply Hobj. subst m1. simpl.
        by rewrite lookup_app_r, Nat.sub_diag by lia.
    + destruct (Hin k' data' Hl) as (d' & ref & w3 & mk & H1 & H2 & H3 & H4 & H5).
      exists d', ref, w3, mk. subst m1. simpl in *.
      rewrite length_app in H3. simpl in H3.
      repeat split; try done; lia.
Qed.

Lemma create_backup_lookup (m : BehaviorTreeManager) (k : string) :
  create_backup m !! k
  = (fun s => to_dict (definition s) (children_id s)) <$> state_of m k.
Proof.
  unfold create_backup, state_of. rewrite lookup_omap.
  by destruct (states m !! k).
Qed.

Lemma create_state_definition (d : StateDefinition) (l fresh : nat) (w : World) :
  definition (create_state d l fresh w).1
  = if decide (type d = ROOT)
    then root_definition (clock w (ticks w)) (clock w (S (ticks w)))
    else d.
Proof. by destruct d as [? ? [] ? ? ? ? ? ?]. Qed.

Lemma create_state_attached (d : StateDefinition) (l fresh : nat) (w : World) :
  attached (create_state d l fresh w).1 = [].
Proof. by destruct d as [? ? [] ? ? ? ? ? ?]. Qed.

Lemma create_state_children_id (d : StateDefinition) (l fresh : nat) (w : World) :
  children_id (create_state d l fresh w).1 = if decide (type d = ROOT) then fresh else l.
Proof. by destruct d as [? ? [] ? ? ? ? ? ?]. Qed.

Lemma state_of_valid_iff (m : BehaviorTreeManager) (k : string) :
  valid_refs m -> is_Some (state_of m k) <-> is_Some (states m !! k).
Proof.
  intros Hv. unfold state_of. split.
  - intros [s Hs]. destruct (states m !! k); [eauto|done].
  - intros [r Hk]. specialize (Hv k r Hk). unfold ref in *. by rewrite Hk.
Qed.

Lemma restore_backup_general (m m0 : BehaviorTreeManager) (w : World) :
  valid_refs m ->
  let r := restore_backup (create_backup m) m0 w in
  r.1.1 = Return tt ∧
  dom (states r.1.2) = dom (states m) ∧
  modification_cooldown r.1.2 = modification_cooldown m0 ∧
  last_modification r.1.2 = last_modification m0 ∧
  root_state r.1.2 = root_state m0 ∧
  (∀ k (r0 : ref), states r.1.2 !! k = Some r0 -> (length (objects m0) <= r0)%nat) ∧
  (∀ ref o, objects m0 !! ref = Some o -> objects r.1.2 !! ref = Some o) ∧
  ∀ k s, state_of m k = Some s ->
    ∃ s', state_of r.1.2 k = Some s' ∧
          attached s'
          = omap (fun child_id => states r.1.2 !! child_id) (children (definition s')) ∧
          if decide (type (definition s) = ROOT)
          then (∃ t1 t2, definition s' = root_definition t1 t2)
               ∧ (lists_made m0 <= children_id s')%nat
          else definition s' = definition s ∧ children_id s' = children_id s.
Proof.
  intros Hvalid. unfold restore_backup.
  set (m0' := with_states ∅ m0).
  assert (NoDup (map_to_list (create_backup m)).*1) as Hnd
    by apply NoDup_fst_map_to_list.
  assert (Forall (fun kd => ∃ d, ∀ m1, parsed (fields (kept kd.2 m1)) d)
            (map_to_list (create_backup m))) as Hparse.
  { apply Forall_forall. intros [k data] Hin%elem_of_map_to_list.
    rewrite create_backup_lookup in Hin.
    destruct (state_of m k) as [s|]; [|done]. injection Hin as <-.
    exists (definition s). intros ?. apply parsed_to_dict. }
  destruct (restore_entries_ok kept _ m0' w Hnd Hparse) as [Hret Hin].
  destruct (restore_entries_frame kept (map_to_list (create_backup m)) m0' w)
    as (Hkeep & Hst & Hcool & Hlast & Hroot & _ & Hnew).
  destruct (restore_entries kept (map_to_list (create_backup m)) m0' w) as [[res m1] w1].
  simpl in *. subst res. simpl.
  destruct (rebuild_settings m1) as (Hs & Hc & Hl & Hr & _).
  assert (∀ k, is_Some (states m1 !! k) <-> is_Some (states m !! k)) as Hdom.
  { intros k. rewrite <- (state_of_valid_iff m k Hvalid).
    destruct (create_backup m !! k) as [data|] eqn:Hb.
    - destruct (Hin k data) as (d & ref & w2 & mk & _ & Hk & _);
        [by apply elem_of_map_to_list|].
      rewrite create_backup_lookup in Hb. rewrite Hk.
      destruct (state_of m k); [split; eauto|done].
    - rewrite Hst.
      + rewrite lookup_empty.
        rewrite create_backup_lookup in Hb.
        destruct (state_of m k); [done|]. split; intros [? ?]; done.
      + intros ([k' data] & -> & Hk')%list_elem_of_fmap.
        apply elem_of_map_to_list in Hk'. simpl in *. congruence. }
  assert (∀ k ref, states m1 !! k = Some ref -> (length (objects m0) <= ref)%nat)
    as Hfresh.
  { intros k ref Hk. destruct (Hnew k ref Hk) as [Hold|Hge]; [|done].
    by rewrite lookup_empty in Hold. }
  split; [done|]. split.
  { apply set_eq. intros k. rewrite !elem_of_dom, Hs. apply Hdom. }
  split; [by rewrite Hc|]. split; [by rewrite Hl|]. split; [by rewrite Hr|].
  split; [by rewrite Hs|]. split.
  { intros ref o Ho. rewrite rebuild_lookup. unfold Tree.ref in *.
    rewrite (Hkeep ref o Ho). rewrite decide_False; [done|].
    intros (k & Hk)%registered_ref. apply Hfresh in Hk.
    apply lookup_lt_Some in Ho. lia. }
  intros k s Hk.
  destruct (Hin k (to_dict (definition s) (children_id s)))
    as (d' & r0 & w2 & mk & Hd' & Href & _ & Hmk & Hobj).
  { apply elem_of_map_to_list. by rewrite create_backup_lookup, Hk. }
  assert (d' = definition s) as ->.
  { apply (parsed_inj (fields (to_dict (definition s) (children_id s))) _ _ w);
      [apply (Hd' m0)|apply parsed_to_dict]. }
  exists (rebuild_one m1 (create_state (definition s) (children_id s) (lists_made mk) w2).1).
  unfold state_of. rewrite Hs. unfold Tree.ref in *. rewrite Href.
  cbn [mbind option_bind]. rewrite rebuild_lookup. unfold Tree.ref in *.
  unfold kept in Hobj. cbn [children_list to_dict] in Hobj.
  rewrite Hobj. cbn [fmap option_fmap option_map].
  rewrite decide_True by (apply registered_ref; eauto).
  split; [done|]. unfold rebuild_one. simpl. split; [done|].
  rewrite create_state_definition, create_state_children_id.
  destruct (decide (type (definition s) = ROOT)); [|done].
  split; [eauto|]. simpl in Hmk. lia.
Qed.

(** X8.  On a manager whose registry points into the store,
    [restore_backup(create_backup())] returns normally, registers the
    same ids, keeps [last_modification] and [root_state], and gives
    every id a new object whose ownership list mirrors its
    [definition.children]; the definition is the one of the snapshot
    for every node whose type is not ROOT, and a fresh default root
    definition for a node of type ROOT.  The objects are new: every
    object the store held is still there, unchanged, and none of them is
    registered any more.  A new node whose type is not ROOT holds the
    very [children] list of the node it replaces; one of type ROOT
    holds a list of its own. *)
Theorem restore_of_backup (m : BehaviorTreeManager) (w : World) :
  valid_refs m ->
  let r := restore_backup (create_backup m) m w in
  r.1.1 = Return tt ∧
  dom (states r.1.2) = dom (states m) ∧
  last_modification r.1.2 = last_modification m ∧
  root_state r.1.2 = root_state m ∧
  (∀ k d, definition_of m k = Some d ->
    ∃ s', state_of r.1.2 k = Some s' ∧
          attached s'
          = omap (fun child_id => states r.1.2 !! child_id) (children (definition s')) ∧
          if decide (type d = ROOT)
          then ∃ t1 t2, definition s' = root_definition t1 t2
          else definition s' = d) ∧
  (∀ k (r0 : ref), states r.1.2 !! k = Some r0 -> (length (objects m) <= r0)%nat) ∧
  (∀ ref o, objects m !! ref = Some o -> objects r.1.2 !! ref = Some o) ∧
  (∀ k s, state_of m k = Some s ->
    ∃ s', state_of r.1.2 k = Some s' ∧
          if decide (type (definition s) = ROOT)
          then (lists_made m <= children_id s')%nat
          else children_id s' = children_id s).
Proof.
  intros Hvalid.
  destruct (restore_backup_general m m w Hvalid)
    as (H1 & H2 & _ & H3 & H4 & H5 & H6 & H7).
  do 4 (split; [done|]). split; [|split; [done|split; [done|]]].
  - intros k d Hd. unfold definition_of in Hd.
    destruct (state_of m k) as [s|] eqn:Hk; [|done]. injection Hd as <-.
    destruct (H7 k s Hk) as (s' & Hs' & Hatt & Hdef).
    exists s'. split; [done|]. split; [done|].
    destruct (decide (type (definition s) = ROOT)); [apply Hdef|apply Hdef].
  - intros k s Hk. destruct (H7 k s Hk) as (s' & Hs' & Hatt & Hdef).
    exists s'. split; [done|].
    destruct (decide (type (definition s) = ROOT)); apply Hdef.
Qed.

(** X6.  [StateDefinition.from_dict(d.to_dict())] returns a definition
    equal to [d] for every [d], and one that holds in [children] the
    very list object [d] holds: no copy is made on either way.  The call
    reads the clock twice (the defaults of the two [get]s) and touches
    neither the disk nor the log. *)
Theorem definition_round_trip (d : StateDefinition) (l : nat) (w : World) :
  (from_dict (to_dict d l) w).1 = Return (d, l) ∧
  ticks (from_dict (to_dict d l) w).2 = S (S (ticks w)) ∧
  same_disk w (from_dict (to_dict d l) w).2 ∧
  trace (from_dict (to_dict d l) w).2 = trace w.
Proof. by rewrite from_dict_to_dict. Qed.

(** *** __init__ and load_states *)

Abbreviation not_root := (fun kd : string * StateDict => negb (String.eqb kd.1 "root")).

Lemma filter_fst_NoDup {A : Type} (f : string * A -> bool) (l : list (string * A)) :
  NoDup l.*1 -> NoDup (List.filter f l).*1.
Proof.
  induction l as [|[k a] l IH]; simpl; [done|].
  intros [Hk Hnd]%NoDup_cons. destruct (f (k, a)); [|by apply IH].
  simpl. apply NoDup_cons. split; [|by apply IH].
  intros ([k' a'] & -> & Hin)%list_elem_of_fmap.
  apply list_elem_of_In, filter_In in Hin as [Hin _].
  apply Hk, list_elem_of_fmap. exists (k', a'). split; [done|].
  by apply list_elem_of_In.
Qed.

Lemma root_not_loaded (data : gmap string StateDict) :
  "root" ∉ (List.filter not_root (map_to_list data)).*1.
Proof.
  intros ([k d] & Hk & Hin)%list_elem_of_fmap. simpl in Hk. subst k.
  by apply list_elem_of_In, filter_In in Hin as [_ Hin].
Qed.

(** X9.  Whatever states the saved file holds, a new manager has the id
    [root] registered for [root_state], a root object built by
    [RootState()] at the first two clock readings (no children, nothing
    attached), a cooldown of sixty seconds and [last_modification] at
    [datetime.min]: the entry of the root in the file is never read. *)
Theorem init_root_is_default (w : World) :
  let m := (init w).1 in
  states m !! "root" = Some 0%nat ∧
  root_state m = 0%nat ∧
  objects m !! 0%nat
  = Some (new_state RootState
            (root_definition (clock w (ticks w)) (clock w (S (ticks w)))) 0) ∧
  last_modification m = 0 ∧
  modification_cooldown m = 60 * 1000000.
Proof.
  unfold init, RootState_init. cbn [datetime_now fst snd ticks clock].
  set (root := new_state RootState _ _).
  set (m0 := mkManager [root] {["root" := 0%nat]} 0%nat (60 * 1000000) 0 1).
  unfold load_states. cbn [states_file].
  destruct (states_file w) as [| |data]; [done|done|].
  match goal with |- context [restore_entries loaded ?l ?m ?w1] =>
    destruct (restore_entries_frame loaded l m w1) as (Hobj & Hst & Hc & Hl & Hr & _);
    destruct (restore_entries loaded l m w1) as [[res m1] w2] end.
  cbn [fst snd] in *.
  specialize (Hobj 0%nat root eq_refl).
  specialize (Hst "root" (root_not_loaded data)).
  assert (states m1 !! "root" = Some 0%nat) as Hroot by (etrans; [exact Hst|done]).
  destruct res as [[]|e]; cbn [fst].
  - destruct (rebuild_settings m1) as (-> & -> & -> & -> & _).
    rewrite rebuild_lookup. unfold Tree.ref in *. rewrite Hobj.
    rewrite decide_True by (apply registered_ref; eauto).
    done.
  - done.
Qed.

(** X10.  A manager started on the file a manager [m] wrote with
    [save_states] has, for every id of [m] other than [root], an object
    whose ownership list mirrors its [definition.children] and whose
    definition is the one [m] had, unless that node is of type ROOT, in
    which case it is a fresh default root definition. *)
Theorem load_of_saved (m : BehaviorTreeManager) (w : World) :
  states_file w = Saved (fields <$> create_backup m) ->
  let m' := (init w).1 in
  ∀ k d, k ≠ "root" -> definition_of m k = Some d ->
    ∃ s', state_of m' k = Some s' ∧
          attached s'
          = omap (fun child_id => states m' !! child_id) (children (definition s')) ∧
          if decide (type d = ROOT)
          then ∃ t1 t2, definition s' = root_definition t1 t2
          else definition s' = d.
Proof.
  intros Hfile. unfold init, RootState_init. cbn [datetime_now fst snd ticks clock].
  set (root := new_state RootState _ _).
  set (m0 := mkManager [root] {["root" := 0%nat]} 0%nat (60 * 1000000) 0 1).
  unfold load_states. cbn [states_file]. rewrite Hfile.
  set (l := List.filter not_root (map_to_list (fields <$> create_backup m))).
  assert (NoDup l.*1) as Hnd by apply filter_fst_NoDup, NoDup_fst_map_to_list.
  assert (Forall (fun kd => ∃ d, ∀ m1, parsed (fields (loaded kd.2 m1)) d) l) as Hparse.
  { apply Forall_forall. intros [k data] Hin.
    apply list_elem_of_In, filter_In in Hin as [Hin%list_elem_of_In _].
    apply elem_of_map_to_list in Hin. rewrite lookup_fmap, create_backup_lookup in Hin.
    destruct (state_of m k) as [s|]; [|done]. injection Hin as <-.
    exists (definition s). intros ?. apply parsed_to_dict. }
  match goal with |- context [restore_entries loaded l m0 ?w1] =>
    destruct (restore_entries_ok loaded l m0 w1 Hnd Hparse) as [Hret Hin];
    destruct (restore_entries loaded l m0 w1) as [[res m1] w2] end.
  cbn [fst snd] in *. subst res. cbn [fst].
  destruct (rebuild_settings m1) as (Hs & _).
  intros k d Hk Hd. unfold definition_of in Hd.
  destruct (state_of m k) as [s|] eqn:Hsk; [|done]. injection Hd as <-.
  destruct (Hin k (fields (to_dict (definition s) (children_id s))))
    as (d' & r0 & w3 & mk & Hd' & Href & _ & _ & Hobj).
  { apply list_elem_of_In, filter_In. split.
    - apply list_elem_of_In, elem_of_map_to_list.
      by rewrite lookup_fmap, create_backup_lookup, Hsk.
    - simpl. apply negb_true_iff, String.eqb_neq. done. }
  assert (d' = definition s) as ->.
  { apply (parsed_inj (fields (to_dict (definition s) (children_id s))) _ _ w);
      [apply (Hd' m0)|apply parsed_to_dict]. }
  eexists (rebuild_one m1 (create_state (definition s) _ _ w3).1).
  unfold state_of. rewrite Hs. unfold Tree.ref in *. rewrite Href.
  cbn [mbind option_bind]. rewrite rebuild_lookup. unfold Tree.ref in *.
  rewrite Hobj. cbn [fmap option_fmap option_map].
  rewrite decide_True by (apply registered_ref; eauto).
  split; [done|]. unfold rebuild_one. simpl. split; [done|].
  rewrite create_state_definition.
  destruct (decide (type (definition s) = ROOT)); eauto.
Qed.

End ManagerMore.

(** *** validate_tree *)

Section ValidateMore.
Import Tree Spec.

Variable m : BehaviorTreeManager.

Lemma finished_closed (D : gset string) (x y : string) :
  finished m D -> x ∈ D -> rtc (child_of m) x y -> y ∈ D.
Proof.
  intros HD Hx Hxy. induction Hxy as [|x z y (s & Hs & Hz) _ IH]; [done|].
  apply IH. destruct (HD x Hx) as [(s' & Hs' & Hc) _].
  rewrite Hs in Hs'. injection Hs' as <-. by apply Hc.
Qed.

Lemma check_cycles_true (fuel : nat) (x : string) (path vis vis' : gset string) :
  check_cycles fuel m x path vis = Some (true, vis') ->
  path ⊆ vis -> finished m (vis ∖ path) ->
  vis ⊆ vis' ∧ x ∈ vis' ∖ path ∧ finished m (vis' ∖ path).
Proof.
  revert x path vis vis'.
  induction fuel as [|fuel IH]; intros x path vis vis'; [done|].
  simpl. destruct (decide (x ∈ path)) as [|Hpath]; [done|].
  destruct (decide (x ∈ vis)) as [Hvis|Hvis].
  { intros [= <-] Hsub HD. split; [done|]. split; [set_solver|done]. }
  destruct (state_of m x) as [s|] eqn:Hs; [|done].
  intros Hloop Hsub HD.
  set (path1 := {[x]} ∪ path) in *.
  assert (∀ cs v,
    (fix each_child (cs : list string) (vis : gset string) :=
       match cs with
       | [] => Some (true, vis)
       | child_id :: rest =>
           match check_cycles fuel m child_id path1 vis with
           | Some (true, vis') => each_child rest vis'
           | other => other
           end
       end) cs v = Some (true, vis') ->
    path1 ⊆ v -> finished m (v ∖ path1) ->
    v ⊆ vis' ∧ finished m (vis' ∖ path1) ∧ ∀ c, c ∈ cs -> c ∈ vis' ∖ path1) as Hall.
  { induction cs as [|c cs IHcs]; intros v Hv Hsubv HDv.
    - injection Hv as <-. split; [done|]. split; [done|]. intros c Hc. by apply elem_of_nil in Hc.
    - destruct (check_cycles fuel m c path1 v) as [[[|] v1]|] eqn:Hc; [|done|done].
      destruct (IH c path1 v v1 Hc Hsubv HDv) as (Hvv1 & Hcin & HD1).
      destruct (IHcs v1 Hv) as (Hv1 & HD' & Hcs); [set_solver|done|].
      split; [set_solver|]. split; [done|].
      intros c' [->|Hc']%elem_of_cons; [|by apply Hcs].
      apply elem_of_difference in Hcin as [Hcin Hcp].
      apply elem_of_difference. split; [set_solver|done]. }
  destruct (Hall _ _ Hloop) as (Hv & HD' & Hcs).
  { subst path1. set_solver. }
  { replace (({[x]} ∪ vis) ∖ path1) with (vis ∖ path); [done|].
    subst path1. apply set_eq. intros z. set_solver. }
  split; [set_solver|]. split; [set_solver|].
  intros y Hy. destruct (decide (y = x)) as [->|Hyx].
  - split.
    + exists s. split; [done|]. intros c Hc. specialize (Hcs c Hc). set_solver.
    + intros Hcyc.
      inversion Hcyc as [? ? (s' & Hs' & Hc)|? c ? (s' & Hs' & Hc) Hrest]; subst.
      * rewrite Hs in Hs'. injection Hs' as <-. specialize (Hcs x Hc). set_solver.
      * rewrite Hs in Hs'. injection Hs' as <-. specialize (Hcs c Hc).
        apply tc_rtc in Hrest.
        pose proof (finished_closed _ _ _ HD' Hcs Hrest). set_solver.
  - assert (y ∈ vis' ∖ path1) as Hy1 by set_solver.
    destruct (HD' y Hy1) as [(s' & Hs' & Hc) Hacyc]. split; [|done].
    exists s'. split; [done|]. intros c Hcin. specialize (Hc c Hcin). set_solver.
Qed.

Lemma check_cycles_false (fuel : nat) (x : string) (path vis vis' : gset string) :
  check_cycles fuel m x path vis = Some (false, vis') ->
  (∀ p, p ∈ path -> tc (child_of m) p x) ->
  ∃ y, rtc (child_of m) x y ∧ (state_of m y = None ∨ tc (child_of m) y y).
Proof.
  revert x path vis vis'.
  induction fuel as [|fuel IH]; intros x path vis vis'; [done|].
  simpl. destruct (decide (x ∈ path)) as [Hpath|Hpath].
  { intros _ Hp. exists x. split; [done|]. right. by apply Hp. }
  destruct (decide (x ∈ vis)) as [Hvis|Hvis]; [done|].
  destruct (state_of m x) as [s|] eqn:Hs.
  2:{ intros _ _. exists x. split; [done|]. by left. }
  intros Hloop Hp.
  set (path1 := {[x]} ∪ path) in *.
  assert (∀ cs v,
    (fix each_child (cs : list string) (vis : gset string) :=
       match cs with
       | [] => Some (true, vis)
       | child_id :: rest =>
           match check_cycles fuel m child_id path1 vis with
           | Some (true, vis') => each_child rest vis'
           | other => other
           end
       end) cs v = Some (false, vis') ->
    ∃ c v0 v1, c ∈ cs ∧ check_cycles fuel m c path1 v0 = Some (false, v1)) as Hall.
  { induction cs as [|c cs IHcs]; intros v Hv; [done|].
    destruct (check_cycles fuel m c path1 v) as [[[|] v1]|] eqn:Hc; [| |done].
    - destruct (IHcs v1 Hv) as (c' & v0 & v2 & Hin & Hc').
      exists c', v0, v2. split; [by right|done].
    - exists c, v, v1. split; [by left|done]. }
  destruct (Hall _ _ Hloop) as (c & v0 & v1 & Hin & Hc).
  assert (child_of m x c) as Hedge by (exists s; done).
  destruct (IH c path1 v0 v1 Hc) as (y & Hy & Hbad).
  { intros p [->%elem_of_singleton|Hpp]%elem_of_union; [by apply tc_once|].
    eapply tc_r; [by apply Hp|done]. }
  exists y. split; [|done]. by eapply rtc_l.
Qed.

(** X11.  [validate_tree] returns True exactly when every id that can
    be reached from [root] through [definition.children] is registered
    and lies on no cycle of [definition.children].  (The traversal
    nests at most one call for each registered id, plus one; this depth
    is taken to be allowed.) *)
Theorem validate_tree_spec :
  validate_tree m = true <->
  ∀ y, rtc (child_of m) "root" y ->
       is_Some (state_of m y) ∧ ¬ tc (child_of m) y y.
Proof.
  unfold validate_tree. destruct (validate_tree_fuel m) as [[ok vis'] Hrun].
  rewrite Hrun. split.
  - intros ->. apply check_cycles_true in Hrun as (_ & Hroot & HD); [| done |].
    + intros y Hy. pose proof (finished_closed _ _ _ HD Hroot Hy) as Hin.
      destruct (HD y Hin) as [(s & Hs & _) Hacyc]. split; [by exists s|done].
    + intros y Hy. set_solver.
  - intros Hgood. destruct ok; [done|].
    apply check_cycles_false in Hrun as (y & Hy & Hbad); [|set_solver].
    destruct (Hgood y Hy) as [[s Hs] Hacyc]. destruct Hbad as [Hnone|Hcyc]; [congruence|done].
Qed.

End ValidateMore.

(** *** What a restore does to the world and to the settings *)

Section ManagerCalls.

Import Tree Spec.

Lemma same_disk_refl (w : World) : same_disk w w.
Proof. done. Qed.

Lemma same_disk_trans (w1 w2 w3 : World) :
  same_disk w1 w2 -> same_disk w2 w3 -> same_disk w1 w3.
Proof. intros (? & ? & ? & ?) (? & ? & ? & ?). repeat split; congruence. Qed.

Lemma same_disk_now (w : World) : same_disk w (datetime_now w).2.
Proof. done. Qed.

Lemma from_dict_disk (data : StateData) (w : World) : same_disk w (from_dict data w).2.
Proof. done. Qed.

Lemma create_state_disk (d : StateDefinition) (l fresh : nat) (w : World) :
  same_disk w (create_state d l fresh w).2.
Proof. by destruct d as [? ? [] ? ? ? ? ? ?]. Qed.

Lemma restore_entries_disk {A : Type} (dict_of : A -> BehaviorTreeManager -> StateData)
    (l : list (string * A)) (m : BehaviorTreeManager) (w : World) :
  same_disk w (restore_entries dict_of l m w).2.
Proof.
  revert m w. induction l as [|[k item] l IH]; intros m w; [done|].
  simpl. unfold restore_entry.
  pose proof (from_dict_disk (dict_of item m) w) as H1.
  destruct (from_dict (dict_of item m) w) as [[[d l0]|e] w1]; [|done].
  unfold new_list. cbv beta iota.
  pose proof (create_state_disk d l0 (lists_made m) w1) as H2.
  destruct (create_state d l0 (lists_made m) w1) as [s w2]. cbn [alloc fst snd] in *.
  eapply same_disk_trans; [exact H1|]. eapply same_disk_trans; [exact H2|]. apply IH.
Qed.

Lemma restore_backup_disk (backup : gmap string StateData)
    (m : BehaviorTreeManager) (w : World) :
  same_disk w (restore_backup backup m w).2.
Proof.
  unfold restore_backup.
  pose proof (restore_entries_disk kept (map_to_list backup) (with_states ∅ m) w) as H.
  by destruct (restore_entries _ _ _ _) as [[[[]|e] m1] w1].
Qed.

(** Restoring a snapshot taken by [create_backup] never raises, and it
    leaves the three settings of the manager it runs on. *)
Lemma restore_backup_returns (m m0 : BehaviorTreeManager) (w : World) :
  let r := restore_backup (create_backup m) m0 w in
  r.1.1 = Return tt ∧
  modification_cooldown r.1.2 = modification_cooldown m0 ∧
  last_modification r.1.2 = last_modification m0 ∧
  root_state r.1.2 = root_state m0.
Proof.
  unfold restore_backup.
  set (m0' := with_states ∅ m0).
  assert (NoDup (map_to_list (create_backup m)).*1) as Hnd
    by apply NoDup_fst_map_to_list.
  assert (Forall (fun kd => ∃ d, ∀ m1, parsed (fields (kept kd.2 m1)) d)
            (map_to_list (create_backup m))) as Hparse.
  { apply Forall_forall. intros [k data] Hin%elem_of_map_to_list.
    rewrite create_backup_lookup in Hin.
    destruct (state_of m k) as [s|]; [|done]. injection Hin as <-.
    exists (definition s). intros ?. apply parsed_to_dict. }
  destruct (restore_entries_ok kept _ m0' w Hnd Hparse) as [Hret _].
  destruct (restore_entries_frame kept (map_to_list (create_backup m)) m0' w)
    as (_ & _ & Hcool & Hlast & Hroot & _).
  destruct (restore_entries kept (map_to_list (create_backup m)) m0' w) as [[res m1] w1].
  cbn [fst snd] in *. subst res. cbn [fst snd].
  destruct (rebuild_settings m1) as (_ & -> & -> & -> & _). done.
Qed.

(** *** modify_state *)

Lemma update_lists_made (r : ref) (f : BehaviorState -> BehaviorState)
    (m : BehaviorTreeManager) :
  lists_made (update r f m) = lists_made m.
Proof. unfold update. by destruct (objects m !! r). Qed.

(** The manager a call of [modify_state] validates: the updates are
    applied to the object [r], which is stamped with the second clock
    reading of the call. *)
Abbreviation stamped r updates m t :=
  (update r (fun s => set_definition (set_modified_at t (definition s)) s)
     (update r (apply_updates updates (lists_made m)) (new_list m).2)).

Lemma stamped_settings (r : ref) (updates : list FieldUpdate)
    (m : BehaviorTreeManager) (t : Z) :
  modification_cooldown (stamped r updates m t) = modification_cooldown m
  ∧ root_state (stamped r updates m t) = root_state m
  ∧ states (stamped r updates m t) = states m
  ∧ length (objects (stamped r updates m t)) = length (objects m)
  ∧ lists_made (stamped r updates m t) = S (lists_made m).
Proof.
  rewrite !update_root_state, !update_length, !update_lists_made.
  rewrite !(proj1 (update_keeps_settings _ _ _)).
  rewrite !(proj2 (proj2 (update_keeps_settings _ _ _))).
  done.
Qed.

(** [modify_state] past its two guards, with the manager it validates
    named. *)
Lemma modify_state_unfold (state_id : string) (updates : list FieldUpdate)
    (m : BehaviorTreeManager) (w : World) (r : ref) :
  states m !! state_id = Some r ->
  Z.ltb (clock w (ticks w) - last_modification m) (modification_cooldown m) = false ->
  let m3 := with_last_modification (clock w (S (S (ticks w))))
              (stamped r updates m (clock w (S (ticks w)))) in
  let w3 := (datetime_now (datetime_now (datetime_now w).2).2).2 in
  modify_state state_id updates m w
  = if negb (validate_tree m3) then
      match restore_backup (create_backup m) m3 w3 with
      | (Return _, m4, w4) => (Return false, m4, w4)
      | (Raise _, m4, w4) => modify_state_except (create_backup m) m4 w4
      end
    else
      match save_states m3 w3 with
      | (Return _, w4) => (Return true, m3, w4)
      | (Raise _, w4) => modify_state_except (create_backup m) m3 w4
      end.
Proof.
  intros Hr Hcool. unfold modify_state. rewrite Hr.
  cbn [datetime_now fst snd ticks clock]. by rewrite Hcool.
Qed.

Lemma modify_state_settings (state_id : string) (updates : list FieldUpdate)
    (m : BehaviorTreeManager) (w : World) :
  is_Some (states m !! state_id) ->
  modification_cooldown m <= clock w (ticks w) - last_modification m ->
  let res := modify_state state_id updates m w in
  (res.1.1 = Return true ∨ res.1.1 = Return false) ∧
  last_modification res.1.2 = clock w (S (S (ticks w))) ∧
  modification_cooldown res.1.2 = modification_cooldown m ∧
  root_state res.1.2 = root_state m.
Proof.
  intros [r Hr] Hcool.
  rewrite (modify_state_unfold state_id updates m w r Hr)
    by (apply Z.ltb_ge; lia).
  destruct (stamped_settings r updates m (clock w (S (ticks w)))) as (Hc2 & Hr2 & _).
  set (m2 := stamped r updates m _) in *.
  set (m3 := with_last_modification _ m2).
  assert (modification_cooldown m3 = modification_cooldown m ∧ root_state m3 = root_state m)
    as [Hc3 Hr3] by done.
  destruct (validate_tree m3); cbn [negb].
  - unfold save_states. destruct (disk_ok _); cbn [fst snd].
    + auto.
    + assert (∀ w0, let res := modify_state_except (create_backup m) m3 w0 in
                (res.1.1 = Return true ∨ res.1.1 = Return false)
                ∧ last_modification res.1.2 = clock w (S (S (ticks w)))
                ∧ modification_cooldown res.1.2 = modification_cooldown m
                ∧ root_state res.1.2 = root_state m) as Hexc.
      { intros w0. unfold modify_state_except.
        destruct (restore_backup_returns m m3 w0) as (Hret & H1 & H2 & H3).
        destruct (restore_backup (create_backup m) m3 w0) as [[res m4] w4].
        cbn [fst snd] in *. subst res. cbn [fst snd].
        rewrite H1, H2, H3. auto. }
      destruct (fails_after_open _); apply Hexc.
  - match goal with |- context [restore_backup (create_backup m) m3 ?w0] =>
      destruct (restore_backup_returns m m3 w0) as (Hret & H1 & H2 & H3);
      destruct (restore_backup (create_backup m) m3 w0) as [[res m4] w4] end.
    cbn [fst snd] in *. subst res. cbn [fst snd].
    rewrite H1, H2, H3. auto.
Qed.

(** X12.  A call of [modify_state] on a registered id outside the
    cooldown window never raises: it returns True or False.  In both
    cases [last_modification] is the third clock reading of the call,
    and the cooldown and [root_state] are kept; a later call on a
    registered id that reads the clock less than the cooldown after
    that third reading raises the cooldown error and changes nothing. *)
Theorem modify_state_past_cooldown (state_id : string) (updates : list FieldUpdate)
    (m : BehaviorTreeManager) (w : World) :
  is_Some (states m !! state_id) ->
  modification_cooldown m <= clock w (ticks w) - last_modification m ->
  let res := modify_state state_id updates m w in
  (res.1.1 = Return true ∨ res.1.1 = Return false) ∧
  last_modification res.1.2 = clock w (S (S (ticks w))) ∧
  modification_cooldown res.1.2 = modification_cooldown m ∧
  root_state res.1.2 = root_state m ∧
  ∀ (state_id' : string) (updates' : list FieldUpdate) (w' : World),
    is_Some (states res.1.2 !! state_id') ->
    clock w' (ticks w') - clock w (S (S (ticks w))) < modification_cooldown m ->
    modify_state state_id' updates' res.1.2 w'
    = (Raise (BehaviorTreeError "Modification cooldown active"),
       res.1.2, (datetime_now w').2).
Proof.
  intros Hreg Hcool.
  destruct (modify_state_settings state_id updates m w Hreg Hcool)
    as (Hres & Hlast & Hlen & Hroot).
  cbv zeta. split; [exact Hres|]. split; [exact Hlast|].
  split; [exact Hlen|]. split; [exact Hroot|].
  intros state_id' updates' w' Hreg' Hsoon.
  apply modify_state_in_cooldown; [exact Hreg'|].
  rewrite Hlast, Hlen. exact Hsoon.
Qed.

(** X13.  When [modify_state] returns True, the id was registered, the
    resulting tree passes [validate_tree] and is what the saved file
    holds; the registry and the size of the store are unchanged, and the
    only object that changed is the one registered under the id: it got
    the updates and the second clock reading as [modified_at], and kept
    its status, start time and ownership list.  Its [children] is the
    list object of the caller when the updates name [children], and the
    list object it was otherwise. *)
Theorem modify_state_true_spec (state_id : string) (updates : list FieldUpdate)
    (m m1 : BehaviorTreeManager) (w w1 : World) :
  modify_state state_id updates m w = (Return true, m1, w1) ->
  ∃ r, states m !! state_id = Some r ∧
       validate_tree m1 = true ∧
       states_file w1 = Saved (fields <$> create_backup m1) ∧
       states m1 = states m ∧
       length (objects m1) = length (objects m) ∧
       lists_made m1 = S (lists_made m) ∧
       ∀ r' s, objects m !! r' = Some s ->
         objects m1 !! r'
         = Some (if decide (r' = r)
                 then set_definition
                        (set_modified_at (clock w (S (ticks w)))
                           (fold_left apply_update updates (definition s)))
                        (set_children_id
                           (if existsb rebinds_children updates
                            then lists_made m else children_id s) s)
                 else s).
Proof.
  destruct (states m !! state_id) as [r|] eqn:Hr;
    [|unfold modify_state; by rewrite Hr].
  destruct (Z.ltb (clock w (ticks w) - last_modification m) (modification_cooldown m))
    eqn:Hcool.
  { unfold modify_state. rewrite Hr. cbn [datetime_now fst snd ticks clock].
    by rewrite Hcool. }
  rewrite (modify_state_unfold state_id updates m w r Hr Hcool).
  destruct (stamped_settings r updates m (clock w (S (ticks w))))
    as (_ & _ & Hst & Hlen & Hlm).
  set (m3 := with_last_modification _ (stamped r updates m _)).
  destruct (validate_tree m3) eqn:Hvalid; cbn [negb].
  2:{ destruct (restore_backup _ _ _) as [[[[]|e] m4] w4]; [done|].
      unfold modify_state_except.
      by destruct (restore_backup _ _ _) as [[[[]|e'] m5] w5]. }
  unfold save_states. destruct (disk_ok _); cbn [fst snd].
  2:{ unfold modify_state_except.
      destruct (fails_after_open _);
      by destruct (restore_backup _ _ _) as [[[[]|e'] m5] w5]. }
  intros [= <- <-]. exists r. split; [done|]. split; [done|]. split; [done|].
  split; [exact Hst|]. split; [exact Hlen|]. split; [exact Hlm|].
  intros r' s Hs. subst m3. cbn [objects with_last_modification].
  rewrite !update_lookup. destruct (decide (r' = r)) as [->|]; [|done].
  unfold Tree.ref in *. rewrite decide_True by done.
  cbn [new_list snd objects]. by rewrite Hs.
Qed.

(** X14.  When [modify_state] returns False on a manager whose
    registry points into the store, the same ids are registered and
    every node whose type is not ROOT has the definition it had before
    the call.  The saved file is as it was when the updated tree failed
    validation, and when the write was refused before the file was
    opened; when the updated tree was valid and the write failed once
    the file was open, the file is left cut short, and the call still
    returns False. *)
Theorem modify_state_false_restores (state_id : string) (updates : list FieldUpdate)
    (m m1 : BehaviorTreeManager) (w w1 : World) :
  modify_state state_id updates m w = (Return false, m1, w1) ->
  valid_refs m ->
  (states_file w1 = states_file w ∨ states_file w1 = Unreadable) ∧
  (disk_ok w = true ∨ fails_after_open w = false -> states_file w1 = states_file w) ∧
  (∀ r, states m !! state_id = Some r ->
     let updated := with_last_modification (clock w (S (S (ticks w))))
                      (stamped r updates m (clock w (S (ticks w)))) in
     states_file w1
     = if validate_tree updated && fails_after_open w
       then Unreadable else states_file w) ∧
  dom (states m1) = dom (states m) ∧
  ∀ k d, definition_of m k = Some d -> type d ≠ ROOT -> definition_of m1 k = Some d.
Proof.
  intros Hcall Hvalid.
  assert (∃ r m3 w3,
            states m !! state_id = Some r ∧
            m3 = with_last_modification (clock w (S (S (ticks w))))
                   (stamped r updates m (clock w (S (ticks w)))) ∧
            states_file w3
            = (if validate_tree m3 && fails_after_open w
               then Unreadable else states_file w) ∧
            (validate_tree m3 = true -> disk_ok w = false) ∧
            restore_backup (create_backup m) m3 w3 = (Return tt, m1, w1))
    as (r & m3 & w3 & Hr & Hm3 & Hfile3 & Hfailed & Hrestore).
  { revert Hcall.
    destruct (states m !! state_id) as [r|] eqn:Hr;
      [|unfold modify_state; by rewrite Hr].
    destruct (Z.ltb (clock w (ticks w) - last_modification m) (modification_cooldown m))
      eqn:Hcool.
    { unfold modify_state. rewrite Hr. cbn [datetime_now fst snd ticks clock].
      by rewrite Hcool. }
    rewrite (modify_state_unfold state_id updates m w r Hr Hcool).
    match goal with |- context [with_last_modification ?t ?m2] =>
      set (m3 := with_last_modification t m2) end.
    set (w3 := (datetime_now (datetime_now (datetime_now w).2).2).2).
    assert (same_disk w w3) as Hw3 by done.
    destruct (validate_tree m3) eqn:Hv; cbn [negb].
    - unfold save_states.
      change (disk_ok w3) with (disk_ok w).
      change (fails_after_open w3) with (fails_after_open w).
      destruct (disk_ok w) eqn:Hok; [done|].
      unfold modify_state_except.
      destruct (fails_after_open w) eqn:Hfail.
      + destruct (restore_backup (create_backup m) m3 (set_states_file Unreadable w3))
          as [[[[]|e] m4] w4] eqn:Hrb; [|done].
        intros [= <- <-]. exists r, m3, (set_states_file Unreadable w3).
        rewrite Hv. by repeat split.
      + destruct (restore_backup (create_backup m) m3 w3)
          as [[[[]|e] m4] w4] eqn:Hrb; [|done].
        intros [= <- <-]. exists r, m3, w3. rewrite Hv. by repeat split.
    - pose proof (restore_backup_returns m m3 w3) as (Hret & _).
      destruct (restore_backup (create_backup m) m3 w3) as [[res m4] w4] eqn:Hrb.
      cbn [fst snd] in Hret. subst res.
      intros [= <- <-]. exists r, m3, w3. rewrite Hv. by repeat split. }
  pose proof (restore_backup_disk (create_backup m) m3 w3) as Hdisk'.
  destruct (restore_backup_general m m3 w3 Hvalid) as (_ & Hdom & _ & _ & _ & _ & _ & Hdefs).
  rewrite Hrestore in Hdisk', Hdom, Hdefs. cbn [fst snd] in *.
  destruct Hdisk' as (Hfile & _). rewrite Hfile, Hfile3.
  split; [|split; [|split; [|split; [done|]]]].
  - destruct (_ && _); [by right|by left].
  - intros Hmode. destruct (validate_tree m3) eqn:Hv; [|done].
    specialize (Hfailed eq_refl). destruct Hmode as [?|Hmode]; [congruence|].
    by rewrite Hmode.
  - intros r' Hr'. assert (r' = r) as -> by congruence. cbv zeta. by rewrite <- Hm3.
  - intros k d Hd Hroot. unfold definition_of in Hd.
    destruct (state_of m k) as [s|] eqn:Hk; [|done]. injection Hd as <-.
    destruct (Hdefs k s Hk) as (s' & Hs' & _ & Hdef).
    rewrite decide_False in Hdef by done.
    unfold definition_of. rewrite Hs'. simpl. by rewrite (proj1 Hdef).
Qed.

(** *** add_state *)

Lemma change_list_lookup (l : nat) (f : list string -> list string)
    (m : BehaviorTreeManager) (r : ref) :
  objects (change_list l f m) !! r = in_list l f <$> objects m !! r.
Proof. unfold change_list. cbn [objects with_objects]. apply list_lookup_fmap. Qed.

Lemma change_list_settings (l : nat) (f : list string -> list string)
    (m : BehaviorTreeManager) :
  states (change_list l f m) = states m
  ∧ modification_cooldown (change_list l f m) = modification_cooldown m
  ∧ last_modification (change_list l f m) = last_modification m
  ∧ root_state (change_list l f m) = root_state m
  ∧ lists_made (change_list l f m) = lists_made m
  ∧ length (objects (change_list l f m)) = length (objects m).
Proof. unfold change_list. cbn. by rewrite length_fmap. Qed.

(** X15.  [add_state] of a new id under a registered parent registers
    a new object built by the factory, appends it to the ownership list
    of the parent and, unless the id is already there, appends the id in
    place to the list the parent holds in [definition.children].  The
    append is seen by every object that holds that list object, the
    registered parent and the nodes a restore has replaced by it alike;
    an object that holds another list is unchanged.  The call returns
    True and saves the tree when the file can be written; when it
    cannot, [OSError] leaves the call, the new node stays in the tree,
    and the file is as it was or cut short, as the write failed before
    or after the file was opened. *)
Theorem add_state_registers (d : StateDefinition) (parent_id : string)
    (m : BehaviorTreeManager) (w : World) (p : ref) (ps : BehaviorState) :
  states m !! id d = None ->
  states m !! parent_id = Some p ->
  objects m !! p = Some ps ->
  let res := add_state d parent_id m w in
  let new := length (objects m) in
  let seen := fun s : BehaviorState =>
    if bool_decide (id d ∈ children (definition ps)) then s
    else in_list (children_id ps) (fun items => (items ++ [id d])%list) s in
  res.1.1 = (if disk_ok w then Return true else Raise OSError) ∧
  states res.1.2 = <[id d := new]> (states m) ∧
  length (objects res.1.2) = S (length (objects m)) ∧
  lists_made res.1.2 = S (lists_made m) ∧
  objects res.1.2 !! new
  = Some (seen (create_state d (lists_made m) (lists_made m) w).1) ∧
  objects res.1.2 !! p
  = Some (set_definition
            (set_children
               (if bool_decide (id d ∈ children (definition ps))
                then children (definition ps)
                else (children (definition ps) ++ [id d])%list)
               (definition ps))
            (add_child new ps)) ∧
  (∀ r s, r ≠ p -> objects m !! r = Some s -> objects res.1.2 !! r = Some (seen s)) ∧
  (∀ r s, objects m !! r = Some s -> children_id s ≠ children_id ps ->
     objects res.1.2 !! r = Some s) ∧
  states_file res.2
  = (if disk_ok w then Saved (fields <$> create_backup res.1.2)
     else if fails_after_open w then Unreadable else states_file w).
Proof.
  intros Hnew Hparent Hps. unfold add_state. rewrite Hnew, Hparent.
  unfold new_list. cbv beta iota.
  pose proof (create_state_disk d (lists_made m) (lists_made m) w) as (Hfile & Hok & Hfail & _).
  destruct (create_state d (lists_made m) (lists_made m) w) as [s w1].
  cbn [alloc fst snd] in *.
  cbn [states with_states with_objects objects].
  assert (id d ≠ parent_id) as Hne by (intros <-; congruence).
  rewrite lookup_insert_ne by done. rewrite Hparent.
  assert (p < length (objects m))%nat as Hp by (by eapply lookup_lt_Some).
  set (new := length (objects m)).
  set (m2 := with_states _ (with_objects _ _)).
  assert (objects (update p (add_child new) m2) !! p = Some (add_child new ps)) as Hps3.
  { rewrite update_lookup, decide_True by done.
    subst m2. cbn [objects with_states with_objects].
    rewrite lookup_app_l by done. unfold Tree.ref in *. by rewrite Hps. }
  unfold Tree.ref in *. rewrite Hps3.
  cbn [definition add_child set_attached children_id].
  set (m4 := if bool_decide _ then _ else _).
  assert (states m4 = <[id d := new]> (states m)
          ∧ lists_made m4 = S (lists_made m)
          ∧ length (objects m4) = S (length (objects m))) as (Hst & Hlm & Hlen).
  { subst m4. destruct (bool_decide _).
    - rewrite update_lists_made, update_length.
      rewrite (proj2 (proj2 (update_keeps_settings _ _ _))).
      subst m2. cbn. rewrite length_app. simpl. repeat split; lia.
    - destruct (change_list_settings (children_id ps)
                  (fun items => (items ++ [id d])%list) (update p (add_child new) m2))
        as (-> & _ & _ & _ & -> & ->).
      rewrite update_lists_made, update_length.
      rewrite (proj2 (proj2 (update_keeps_settings _ _ _))).
      subst m2. cbn. rewrite length_app. simpl. repeat split; lia. }
  assert (∀ r, objects m4 !! r
               = (fun o => if bool_decide (id d ∈ children (definition ps)) then o
                           else in_list (children_id ps)
                                  (fun items => (items ++ [id d])%list) o)
                 <$> (if decide (r = p) then Some (add_child new ps)
                      else (objects m ++ [s])%list !! r)) as Hobj.
  { intros r.
    assert (objects (update p (add_child new) m2) !! r
            = if decide (r = p) then Some (add_child new ps)
              else (objects m ++ [s])%list !! r) as H3.
    { rewrite update_lookup. subst m2. cbn [objects with_states with_objects].
      repeat case_decide; subst; try done.
      rewrite lookup_app_l by done. unfold Tree.ref in *. by rewrite Hps. }
    subst m4. destruct (bool_decide _).
    - unfold Tree.ref in *. rewrite H3. by destruct (if decide (r = p) then _ else _).
    - rewrite change_list_lookup. unfold Tree.ref in *. by rewrite H3. }
  assert ((save_states m4 w1).1 = (if disk_ok w then Return tt else Raise OSError)
          ∧ states_file (save_states m4 w1).2
            = (if disk_ok w then Saved (fields <$> create_backup m4)
               else if fails_after_open w then Unreadable else states_file w))
    as [Hres Hsaved].
  { unfold save_states. rewrite Hok, Hfail.
    destruct (disk_ok w); [done|]. by destruct (fails_after_open w). }
  destruct (save_states m4 w1) as [[[]|e] w2]; cbn [fst snd] in *.
  all: split; [revert Hres; destruct (disk_ok w); first [done | by intros [= ->]]|].
  all: split; [exact Hst|]; split; [exact Hlen|]; split; [exact Hlm|].
  all: split; [rewrite Hobj, decide_False by lia; rewrite lookup_app_r by lia;
               by rewrite Nat.sub_diag|].
  all: split; [rewrite Hobj, decide_True by done; cbn [fmap option_fmap option_map];
               unfold in_list; cbn [children_id definition add_child set_attached];
               rewrite Nat.eqb_refl;
               destruct (bool_decide _); [by destruct ps as [? [] ? ? ? ?]|done]|].
  all: split; [intros r s0 Hr Hs0; rewrite Hobj, decide_False by done;
               by rewrite (lookup_app_l_Some _ _ _ _ Hs0)|].
  all: split; [|exact Hsaved].
  all: intros r s0 Hs0 Hother; rewrite Hobj;
       destruct (decide (r = p)) as [->|];
       [unfold Tree.ref in *; congruence|];
       rewrite (lookup_app_l_Some _ _ _ _ Hs0); cbn [fmap option_fmap option_map];
       destruct (bool_decide _); [done|];
       unfold in_list; by rewrite (proj2 (Nat.eqb_neq _ _) Hother).
Qed.

End ManagerCalls.

(** *** remove_state *)

Section RemoveState.

Import Tree Spec.

Abbreviation strip_fold state_id l m :=
  (foldr (fun kr acc => strip_child state_id (snd kr) acc) m l).

Abbreviation id_at m r := ((fun o => id (definition o)) <$> objects m !! r).

(** The object [s] once [state_id] has been removed from the list it
    holds. *)
Abbreviation shortened state_id s :=
  (set_definition
     (set_children (remove_first state_id (children (definition s))) (definition s)) s).

Abbreviation lists_it state_id s :=
  (bool_decide (state_id ∈ children (definition s))).

(** Whether the list object [c] is held by an object of [l] that has
    [state_id] in it. *)
Abbreviation hit m state_id l c :=
  (existsb (fun kr : string * ref =>
              match objects m !! kr.2 with
              | Some s => Nat.eqb (children_id s) c && lists_it state_id s
              | None => false
              end) l).

Lemma remove_child_ext (m m' : BehaviorTreeManager) (state_id : string) (s : BehaviorState) :
  (∀ r, id_at m r = id_at m' r) ->
  remove_child m state_id s = remove_child m' state_id s.
Proof.
  intros Hids. unfold remove_child. f_equal. apply filter_ext. intros c.
  specialize (Hids c). unfold Tree.ref in *.
  destruct (objects m !! c), (objects m' !! c); simpl in Hids; congruence.
Qed.

Lemma in_list_match (l : nat) (f : list string -> list string) (s : BehaviorState) :
  children_id s = l ->
  in_list l f s = set_definition (set_children (f (children (definition s))) (definition s)) s.
Proof. intros <-. unfold in_list. by rewrite Nat.eqb_refl. Qed.

Lemma in_list_other (l : nat) (f : list string -> list string) (s : BehaviorState) :
  children_id s ≠ l -> in_list l f s = s.
Proof. intros H. unfold in_list. by rewrite (proj2 (Nat.eqb_neq _ _) H). Qed.

Lemma in_list_id (l : nat) (f : list string -> list string) (s : BehaviorState) :
  id (definition (in_list l f s)) = id (definition s).
Proof. unfold in_list. by destruct (Nat.eqb _ _). Qed.

Lemma change_list_ids (l : nat) (f : list string -> list string)
    (m : BehaviorTreeManager) (r : ref) :
  id_at (change_list l f m) r = id_at m r.
Proof.
  rewrite change_list_lookup. destruct (objects m !! r); [|done].
  simpl. by rewrite in_list_id.
Qed.

(** One turn of the loop, on an object that has [state_id] in its list. *)
Lemma strip_child_lookup (state_id : string) (r r' : ref) (s : BehaviorState)
    (m : BehaviorTreeManager) :
  objects m !! r = Some s ->
  lists_it state_id s = true ->
  objects (strip_child state_id r m) !! r'
  = (fun o => if decide (r' = r)
              then remove_child m state_id (shortened state_id o)
              else in_list (children_id s) (remove_first state_id) o)
      <$> objects m !! r'.
Proof.
  intros Hs Hin. unfold strip_child. unfold Tree.ref in *. rewrite Hs, Hin.
  rewrite update_lookup. unfold Tree.ref in *.
  rewrite !change_list_lookup. unfold Tree.ref in *.
  clear Hin. repeat case_decide; subst; try done.
  rewrite Hs. cbn [fmap option_fmap option_map]. f_equal.
  rewrite in_list_match by done.
  apply remove_child_ext. intros c. apply change_list_ids.
Qed.

Lemma strip_child_skip (state_id : string) (r : ref) (m : BehaviorTreeManager) :
  (∀ s, objects m !! r = Some s -> lists_it state_id s = false) ->
  strip_child state_id r m = m.
Proof.
  intros H. unfold strip_child. destruct (objects m !! r) as [s|]; [|done].
  by rewrite (H s eq_refl).
Qed.

Lemma strip_child_settings (state_id : string) (r : ref) (m : BehaviorTreeManager) :
  states (strip_child state_id r m) = states m
  ∧ modification_cooldown (strip_child state_id r m) = modification_cooldown m
  ∧ last_modification (strip_child state_id r m) = last_modification m
  ∧ root_state (strip_child state_id r m) = root_state m
  ∧ lists_made (strip_child state_id r m) = lists_made m
  ∧ length (objects (strip_child state_id r m)) = length (objects m).
Proof.
  unfold strip_child. destruct (objects m !! r) as [s|]; [|done].
  destruct (bool_decide _); [|done].
  rewrite update_root_state, update_length, update_lists_made.
  rewrite !(proj1 (update_keeps_settings _ _ _)).
  rewrite !(proj1 (proj2 (update_keeps_settings _ _ _))).
  rewrite !(proj2 (proj2 (update_keeps_settings _ _ _))).
  unfold change_list. cbn. by rewrite length_fmap.
Qed.

Lemma strip_fold_settings (state_id : string) (l : list (string * ref))
    (m : BehaviorTreeManager) :
  states (strip_fold state_id l m) = states m
  ∧ modification_cooldown (strip_fold state_id l m) = modification_cooldown m
  ∧ last_modification (strip_fold state_id l m) = last_modification m
  ∧ root_state (strip_fold state_id l m) = root_state m
  ∧ lists_made (strip_fold state_id l m) = lists_made m
  ∧ length (objects (strip_fold state_id l m)) = length (objects m).
Proof.
  induction l as [|kr l (IH1 & IH2 & IH3 & IH4 & IH5 & IH6)]; cbn [foldr]; [done|].
  destruct (strip_child_settings state_id kr.2 (strip_fold state_id l m))
    as (-> & -> & -> & -> & -> & ->).
  done.
Qed.

(** The objects a pass over the entries [l] of the registry leaves:
    the lists that an entry holds with [state_id] in it have lost its
    first occurrence, in every object that holds them, and the entries
    that held one have lost the node in their ownership list.  The
    entries are taken to be distinct objects that hold distinct lists. *)
Lemma strip_fold_lookup (state_id : string) (l : list (string * ref))
    (m : BehaviorTreeManager) :
  NoDup l.*2 ->
  (∀ kr1 kr2 s1 s2, kr1 ∈ l -> kr2 ∈ l ->
     objects m !! kr1.2 = Some s1 -> objects m !! kr2.2 = Some s2 ->
     children_id s1 = children_id s2 -> kr1.2 = kr2.2) ->
  ∀ r, objects (strip_fold state_id l m) !! r
       = (fun s => (if bool_decide (r ∈ l.*2) && lists_it state_id s
                    then remove_child m state_id else (fun o => o))
                     (if hit m state_id l (children_id s)
                      then shortened state_id s else s))
           <$> objects m !! r.
Proof.
  induction l as [|kr l IH]; intros Hnd Hlists r.
  - cbn [foldr existsb]. destruct (objects m !! r) as [s|]; [|done].
    done.
  - rewrite fmap_cons in Hnd. apply NoDup_cons in Hnd as [Hkr Hnd].
    assert (∀ r, objects (strip_fold state_id l m) !! r
       = (fun s => (if bool_decide (r ∈ l.*2) && lists_it state_id s
                    then remove_child m state_id else (fun o => o))
                     (if hit m state_id l (children_id s)
                      then shortened state_id s else s))
           <$> objects m !! r) as IH'.
    { apply IH; [done|]. intros kr1 kr2 s1 s2 H1 H2.
      apply Hlists; by apply elem_of_cons; right. }
    clear IH. cbn [foldr].
    set (acc := strip_fold state_id l m) in *.
    assert (∀ c, id_at acc c = id_at m c) as Hids.
    { intros c. rewrite IH'. destruct (objects m !! c) as [o|]; [|done].
      cbn [fmap option_fmap option_map]. f_equal.
      by destruct (_ && _), (hit _ _ _ _). }
    (* what the entries before hold of the list of [kr] *)
    assert (∀ s0, objects m !! kr.2 = Some s0 ->
                  hit m state_id l (children_id s0) = false) as Hfree.
    { intros s0 Hs0. apply not_true_is_false. intros Hhit.
      apply existsb_exists in Hhit as (kr' & Hin%list_elem_of_In & Hkr').
      destruct (objects m !! kr'.2) as [s'|] eqn:Hs'; [|done].
      apply andb_true_iff in Hkr' as [Heq%Nat.eqb_eq _].
      apply Hkr. rewrite <- (Hlists kr' kr s' s0); try done.
      - apply list_elem_of_fmap. by exists kr'.
      - by apply elem_of_cons; right.
      - by apply elem_of_cons; left. }
    assert (∀ r, bool_decide (r ∈ (kr :: l).*2)
                 = bool_decide (r = kr.2) || bool_decide (r ∈ l.*2)) as Hmem.
    { intros r0. rewrite fmap_cons, <- bool_decide_or. apply bool_decide_ext.
      by rewrite elem_of_cons. }
    destruct (objects m !! kr.2) as [s0|] eqn:Hs0.
    2:{ (* no object there: nothing happens *)
      rewrite strip_child_skip.
      2:{ intros s. rewrite IH'. unfold Tree.ref in *. by rewrite Hs0. }
      rewrite IH'. destruct (objects m !! r) as [s|] eqn:Hs; [|done].
      cbn [fmap option_fmap option_map existsb]. unfold Tree.ref in *.
      rewrite Hs0. cbn [orb]. rewrite Hmem.
      rewrite (bool_decide_eq_false_2 (r = kr.2)); [done|]. intros ->. congruence. }
    assert (objects acc !! kr.2 = Some s0) as Hacc0.
    { rewrite IH'. unfold Tree.ref in *. rewrite Hs0.
      cbn [fmap option_fmap option_map].
      rewrite (Hfree s0 eq_refl).
      rewrite (bool_decide_eq_false_2 (kr.2 ∈ l.*2)) by done. done. }
    destruct (lists_it state_id s0) eqn:Hit.
    2:{ (* the object does not hold the id *)
      rewrite strip_child_skip.
      2:{ intros s. unfold Tree.ref in *. rewrite Hacc0. by intros [= <-]. }
      rewrite IH'. destruct (objects m !! r) as [s|] eqn:Hs; [|done].
      cbn [fmap option_fmap option_map existsb]. unfold Tree.ref in *.
      rewrite Hs0, Hit, andb_false_r. cbn [orb]. rewrite Hmem.
      destruct (decide (r = kr.2)) as [->|Hne].
      - assert (s = s0) as -> by congruence.
        rewrite Hit, !andb_false_r. done.
      - by rewrite (bool_decide_eq_false_2 (r = kr.2)). }
    (* the object holds the id *)
    etrans; [exact (strip_child_lookup state_id kr.2 r s0 acc Hacc0 Hit)|].
    rewrite IH'. destruct (objects m !! r) as [s|] eqn:Hs; [|done].
    cbn [fmap option_fmap option_map existsb]. unfold Tree.ref in *.
    rewrite Hs0, Hit, andb_true_r. rewrite Hmem. f_equal.
    destruct (decide (r = kr.2)) as [->|Hne].
    + assert (s = s0) as -> by congruence.
      rewrite (Hfree s0 eq_refl), Nat.eqb_refl, Hit.
      rewrite (bool_decide_eq_false_2 (kr.2 ∈ l.*2)) by done.
      rewrite bool_decide_eq_true_2 by done. cbn [orb andb].
      apply remove_child_ext. intros c. apply Hids.
    + rewrite (bool_decide_eq_false_2 (r = kr.2)) by done. cbn [orb].
      destruct (decide (children_id s = children_id s0)) as [Heq|Hother].
      * rewrite Heq, (Hfree s0 eq_refl), Nat.eqb_refl. cbn [orb].
        assert (r ∉ l.*2) as Hr.
        { intros ([k' r'] & -> & Hin)%list_elem_of_fmap. apply Hne.
          apply (Hlists (k', r') kr s s0); try done.
          - by apply elem_of_cons; right.
          - by apply elem_of_cons; left. }
        rewrite (bool_decide_eq_false_2 (r ∈ l.*2)) by done. cbn [andb].
        by rewrite in_list_match.
      * rewrite (proj2 (Nat.eqb_neq (children_id s0) (children_id s))) by done.
        cbn [orb]. rewrite in_list_other; [done|].
        by destruct (_ && _), (existsb _ _).
Qed.

Lemma distinct_refs_NoDup (m : BehaviorTreeManager) :
  distinct_refs m <-> NoDup (map_to_list (states m)).*2.
Proof.
  split.
  - intros Hd. apply NoDup_fmap_2_strong; [|apply NoDup_map_to_list].
    intros [k1 r1] [k2 r2] H1%elem_of_map_to_list H2%elem_of_map_to_list Heq.
    simpl in Heq. subst r2. by rewrite (Hd k1 k2 r1 H1 H2).
  - intros Hnd k1 k2 r H1%elem_of_map_to_list H2%elem_of_map_to_list.
    revert Hnd H1 H2. generalize (map_to_list (states m)).
    intros l. induction l as [|[k0 r0] l IH]; intros Hnd H1 H2.
    + by apply elem_of_nil in H1.
    + rewrite fmap_cons in Hnd. apply NoDup_cons in Hnd as [Hr0 Hnd]. simpl in Hr0.
      apply elem_of_cons in H1 as [H1|H1], H2 as [H2|H2].
      * congruence.
      * injection H1 as -> ->. exfalso. apply Hr0.
        apply list_elem_of_fmap. by exists (k2, r0).
      * injection H2 as -> ->. exfalso. apply Hr0.
        apply list_elem_of_fmap. by exists (k1, r0).
      * by apply IH.
Qed.

Lemma hit_registry (m : BehaviorTreeManager) (state_id : string) (c : nat) :
  hit m state_id (map_to_list (states m)) c = true <-> lists_child m state_id c.
Proof.
  rewrite existsb_exists. split.
  - intros ([k r] & Hin%list_elem_of_In%elem_of_map_to_list & H). cbn [snd] in H.
    destruct (objects m !! r) as [s|] eqn:Hs; [|done].
    apply andb_true_iff in H as [Heq%Nat.eqb_eq Hit%bool_decide_eq_true_1].
    by exists k, r, s.
  - intros (k & r & s & Hk & Hs & Heq & Hit). exists (k, r). split.
    + by apply list_elem_of_In, elem_of_map_to_list.
    + cbn [snd]. unfold Tree.ref in *. rewrite Hs.
      apply andb_true_iff. split; [by apply Nat.eqb_eq|by apply bool_decide_eq_true_2].
Qed.

Lemma remove_state_objects (state_id : string) (m : BehaviorTreeManager) (w : World)
    (r : ref) (s : BehaviorState) :
  state_id ≠ "root" ->
  is_Some (states m !! state_id) ->
  distinct_refs m ->
  distinct_lists m ->
  objects m !! r = Some s ->
  let res := remove_state state_id m w in
  res.1.1 = (if disk_ok w then Return true else Raise OSError) ∧
  states res.1.2 = delete state_id (states m) ∧
  lists_made res.1.2 = lists_made m ∧
  length (objects res.1.2) = length (objects m) ∧
  objects res.1.2 !! r
  = Some ((if bool_decide (r ∈ (map_to_list (states m)).*2) && lists_it state_id s
           then remove_child m state_id else (fun o => o))
            (if hit m state_id (map_to_list (states m)) (children_id s)
             then shortened state_id s else s)) ∧
  states_file res.2
  = (if disk_ok w then Saved (fields <$> create_backup res.1.2)
     else if fails_after_open w then Unreadable else states_file w).
Proof.
  intros Hroot [r0 Hreg] Hnd%distinct_refs_NoDup Hlists Hs. unfold remove_state.
  apply String.eqb_neq in Hroot. rewrite Hroot, Hreg.
  set (m1 := strip_fold state_id (map_to_list (states m)) m).
  destruct (strip_fold_settings state_id (map_to_list (states m)) m)
    as (Hst & _ & _ & _ & Hlm & Hlen).
  fold m1 in Hst, Hlm, Hlen.
  assert (objects m1 !! r
          = Some ((if bool_decide (r ∈ (map_to_list (states m)).*2) && lists_it state_id s
                   then remove_child m state_id else (fun o => o))
                    (if hit m state_id (map_to_list (states m)) (children_id s)
                     then shortened state_id s else s))) as Hobj.
  { subst m1. rewrite strip_fold_lookup; [unfold Tree.ref in *; by rewrite Hs|done|].
    intros [k1 r1] [k2 r2] s1 s2 H1%elem_of_map_to_list H2%elem_of_map_to_list.
    cbn [snd]. apply (Hlists k1 k2); done. }
  unfold save_states. destruct (disk_ok w) eqn:Hok; [|destruct (fails_after_open w)];
    cbn [fst snd].
  all: split; [done|].
  all: split; [cbn [states with_states]; by rewrite Hst|].
  all: cbn [objects with_states lists_made].
  all: done.
Qed.

(** X16.  [remove_state] of a registered id other than [root], on a
    registry whose objects are distinct and hold distinct [children]
    lists, unregisters the id and nothing else.  Every registered object
    that has the id in [definition.children] loses its first occurrence
    there, in place, and loses from its ownership list the objects
    carrying that id; an object that is not registered but holds the
    list of such a registered object (a node a restore replaced) sees
    the id removed from its [definition.children] too; every other
    object is unchanged, and nothing under the removed node is
    unregistered.  The call returns True and saves when the file can be
    written; otherwise [OSError] leaves the call with the removal done,
    and the file is as it was or cut short. *)
Theorem remove_state_spec (state_id : string) (m : BehaviorTreeManager) (w : World)
    (r : ref) (s : BehaviorState) :
  state_id ≠ "root" ->
  is_Some (states m !! state_id) ->
  distinct_refs m ->
  distinct_lists m ->
  objects m !! r = Some s ->
  let res := remove_state state_id m w in
  let shorter :=
    set_definition
      (set_children (remove_first state_id (children (definition s))) (definition s)) s in
  res.1.1 = (if disk_ok w then Return true else Raise OSError) ∧
  states res.1.2 = delete state_id (states m) ∧
  ((∃ k, states m !! k = Some r) ->
   objects res.1.2 !! r
   = Some (if bool_decide (state_id ∈ children (definition s))
           then remove_child m state_id shorter else s)) ∧
  ((∀ k, states m !! k ≠ Some r) ->
   (lists_child m state_id (children_id s) -> objects res.1.2 !! r = Some shorter) ∧
   (¬ lists_child m state_id (children_id s) -> objects res.1.2 !! r = Some s)) ∧
  states_file res.2
  = (if disk_ok w then Saved (fields <$> create_backup res.1.2)
     else if fails_after_open w then Unreadable else states_file w).
Proof.
  intros Hroot Hreg Hrefs Hlists Hs.
  destruct (remove_state_objects state_id m w r s Hroot Hreg Hrefs Hlists Hs)
    as (Hres & Hst & _ & _ & Hobj & Hfile).
  cbv zeta. split; [exact Hres|]. split; [exact Hst|].
  split; [|split; [|exact Hfile]].
  - intros (k & Hk). rewrite Hobj.
    rewrite bool_decide_eq_true_2 by (apply registered_ref; eauto). cbn [andb].
    destruct (lists_it state_id s) eqn:Hit.
    + assert (hit m state_id (map_to_list (states m)) (children_id s) = true) as ->; [|done].
      apply hit_registry. exists k, r, s. by apply bool_decide_eq_true_1 in Hit.
    + assert (hit m state_id (map_to_list (states m)) (children_id s) = false) as ->; [|done].
      apply not_true_is_false. intros (k' & r' & s' & Hk' & Hs' & Heq & Hin)%hit_registry.
      assert (r' = r) as -> by (by apply (Hlists k' k r' r s' s)).
      assert (s' = s) as -> by congruence.
      by apply bool_decide_eq_false_1 in Hit.
  - intros Hno. rewrite Hobj.
    rewrite bool_decide_eq_false_2.
    2:{ intros (k & Hk)%registered_ref. by apply (Hno k). }
    cbn [andb]. split.
    + intros Hhit%hit_registry. by rewrite Hhit.
    + intros Hhit.
      assert (hit m state_id (map_to_list (states m)) (children_id s) = false) as ->; [|done].
      apply not_true_is_false. intros H. by apply Hhit, hit_registry.
Qed.

End RemoveState.

(** *** What every call keeps true of the registry *)

Section RegistryInvariant.

Import Tree Spec.

Lemma sound_registry_ext (m m' : BehaviorTreeManager) :
  states m' = states m -> length (objects m') = length (objects m) ->
  sound_registry m -> sound_registry m'.
Proof.
  intros Hst Hlen [Hv Hd]. split.
  - intros k r Hk. rewrite Hst in Hk. apply lookup_lt_is_Some_2. rewrite Hlen.
    by apply lookup_lt_is_Some_1, (Hv k).
  - intros k1 k2 r. rewrite Hst. apply Hd.
Qed.

Lemma sound_registry_update (r : ref) (f : BehaviorState -> BehaviorState)
    (m : BehaviorTreeManager) :
  sound_registry m -> sound_registry (update r f m).
Proof.
  apply sound_registry_ext; [|apply update_length].
  by destruct (update_keeps_settings r f m) as (_ & _ & ->).
Qed.

Lemma sound_registry_alloc (k : string) (s : BehaviorState) (m : BehaviorTreeManager) :
  sound_registry m ->
  sound_registry (with_states (<[k := length (objects m)]> (states m))
                    (with_objects (objects m ++ [s]) m)).
Proof.
  intros [Hv Hd]. split.
  - intros k' r. cbn [states objects with_states with_objects].
    intros Hk. apply lookup_lt_is_Some_2. rewrite length_app. simpl.
    destruct (decide (k' = k)) as [->|Hne].
    + rewrite lookup_insert_eq in Hk. injection Hk as <-. lia.
    + rewrite lookup_insert_ne in Hk by done.
      pose proof (lookup_lt_is_Some_1 _ _ (Hv k' r Hk)). lia.
  - intros k1 k2 r. cbn [states with_states with_objects].
    intros H1 H2.
    destruct (decide (k1 = k)) as [->|Hne1], (decide (k2 = k)) as [->|Hne2]; [done| | |].
    + rewrite lookup_insert_eq in H1. injection H1 as <-.
      rewrite lookup_insert_ne in H2 by done.
      pose proof (lookup_lt_is_Some_1 _ _ (Hv k2 _ H2)). lia.
    + rewrite lookup_insert_eq in H2. injection H2 as <-.
      rewrite lookup_insert_ne in H1 by done.
      pose proof (lookup_lt_is_Some_1 _ _ (Hv k1 _ H1)). lia.
    + rewrite lookup_insert_ne in H1, H2 by done. by eapply Hd.
Qed.

Lemma sound_registry_delete (k : string) (m : BehaviorTreeManager) :
  sound_registry m -> sound_registry (with_states (delete k (states m)) m).
Proof.
  intros [Hv Hd]. split.
  - intros k' r. cbn [states objects with_states].
    intros [_ Hk]%lookup_delete_Some. by eapply Hv.
  - intros k1 k2 r. cbn [states with_states].
    intros [_ H1]%lookup_delete_Some [_ H2]%lookup_delete_Some. by eapply Hd.
Qed.

Lemma sound_registry_cleared (m : BehaviorTreeManager) :
  sound_registry (with_states ∅ m).
Proof. split; intros ? ?; cbn [states with_states]; by rewrite ?lookup_empty. Qed.

Lemma sound_registry_new_list (m : BehaviorTreeManager) :
  sound_registry m -> sound_registry (new_list m).2.
Proof. by apply sound_registry_ext. Qed.

Lemma sound_registry_change_list (l : nat) (f : list string -> list string)
    (m : BehaviorTreeManager) :
  sound_registry m -> sound_registry (change_list l f m).
Proof.
  destruct (change_list_settings l f m) as (Hst & _ & _ & _ & _ & Hlen).
  by apply sound_registry_ext.
Qed.

Lemma sound_registry_restore_entries {A : Type}
    (dict_of : A -> BehaviorTreeManager -> StateData) (l : list (string * A))
    (m : BehaviorTreeManager) (w : World) :
  sound_registry m -> sound_registry (restore_entries dict_of l m w).1.2.
Proof.
  revert m w. induction l as [|[k item] l IH]; intros m w Hm; [done|].
  simpl. unfold restore_entry.
  destruct (from_dict (dict_of item m) w) as [[[d l0]|e] w1]; [|done].
  unfold new_list. cbv beta iota.
  destruct (create_state d l0 (lists_made m) w1) as [s w2]. cbn [alloc].
  apply IH.
  exact (sound_registry_alloc k s (new_list m).2 (sound_registry_new_list m Hm)).
Qed.

Lemma sound_registry_rebuild (m : BehaviorTreeManager) :
  sound_registry m -> sound_registry (_rebuild_tree_structure m).
Proof.
  destruct (rebuild_settings m) as (Hst & _ & _ & _ & Hlen).
  by apply sound_registry_ext.
Qed.

Lemma sound_registry_restore_backup (backup : gmap string StateData)
    (m : BehaviorTreeManager) (w : World) :
  sound_registry (restore_backup backup m w).1.2.
Proof.
  unfold restore_backup.
  pose proof (sound_registry_restore_entries kept (map_to_list backup)
                (with_states ∅ m) w (sound_registry_cleared m)) as H.
  destruct (restore_entries _ _ _ _) as [[[[]|e] m1] w1]; cbn [fst snd] in *; [|done].
  by apply sound_registry_rebuild.
Qed.

(** X28.  A new manager has a registry that points into the store and
    names no object twice; [add_state], [remove_state] and
    [modify_state] keep it so whatever they return or raise, and
    [restore_backup] leaves such a registry whatever it starts from. *)
Theorem registry_stays_sound :
  (∀ w, sound_registry (init w).1) ∧
  (∀ backup m w, sound_registry (restore_backup backup m w).1.2) ∧
  (∀ d parent_id m w,
     sound_registry m -> sound_registry (add_state d parent_id m w).1.2) ∧
  (∀ state_id m w,
     sound_registry m -> sound_registry (remove_state state_id m w).1.2) ∧
  (∀ state_id updates m w,
     sound_registry m -> sound_registry (modify_state state_id updates m w).1.2).
Proof.
  split; [|split; [apply sound_registry_restore_backup|split; [|split]]].
  - intros w. unfold init, RootState_init. cbn [datetime_now fst snd].
    set (m0 := mkManager _ _ _ _ _ _).
    assert (sound_registry m0) as H0.
    { subst m0. split.
      - intros k r. cbn [states objects].
        intros [<- <-]%lookup_singleton_Some. by eexists.
      - intros k1 k2 r. cbn [states].
        intros [<- _]%lookup_singleton_Some [<- _]%lookup_singleton_Some. done. }
    unfold load_states. destruct (states_file _) as [| |data]; [done|done|].
    match goal with |- context [restore_entries loaded ?l m0 ?w0] =>
      pose proof (sound_registry_restore_entries loaded l m0 w0 H0) as H;
      destruct (restore_entries loaded l m0 w0) as [[[[]|e] m1] w1] end;
      cbn [fst snd] in *; [|done].
    by apply sound_registry_rebuild.
  - intros d parent_id m w Hm. unfold add_state.
    destruct (states m !! id d); [done|].
    destruct (states m !! parent_id); [|done].
    unfold new_list. cbv beta iota.
    destruct (create_state d _ _ w) as [s w1]. cbn [alloc].
    pose proof (sound_registry_alloc (id d) s (new_list m).2
                  (sound_registry_new_list m Hm)) as H2.
    destruct (states _ !! parent_id) as [p|]; [|done].
    match goal with |- context [save_states ?m4 w1] =>
      assert (sound_registry m4) as H4;
      [|destruct (save_states m4 w1) as [[[]|e] w2]; done] end.
    match goal with |- context [update p ?f ?m2] =>
      pose proof (sound_registry_update p f m2 H2) as H3 end.
    destruct (objects _ !! p) as [ps|]; [|done].
    destruct (bool_decide _); [done|]. by apply sound_registry_change_list.
  - intros state_id m w Hm. unfold remove_state.
    destruct (String.eqb state_id "root"); [done|].
    destruct (states m !! state_id); [|done].
    match goal with |- context [save_states ?m2 w] =>
      assert (sound_registry m2) as H2;
      [|destruct (save_states m2 w) as [[[]|e] w2]; done] end.
    apply sound_registry_delete.
    destruct (strip_fold_settings state_id (map_to_list (states m)) m)
      as (Hst & _ & _ & _ & _ & Hlen).
    by eapply sound_registry_ext.
  - intros state_id updates m w Hm. unfold modify_state, modify_state_except.
    destruct (states m !! state_id) as [r|]; [|done].
    cbn [datetime_now fst snd].
    destruct (Z.ltb _ _); [done|].
    unfold new_list. cbv beta iota.
    match goal with |- context [with_last_modification ?t ?m2] =>
      assert (sound_registry (with_last_modification t m2)) as H3
        by (do 2 apply sound_registry_update; by apply (sound_registry_new_list m));
      set (m3 := with_last_modification t m2) in * end.
    destruct (validate_tree m3); cbn [negb].
    + destruct (save_states m3 _) as [[[]|e] w4]; [done|].
      match goal with |- context [restore_backup ?b ?m4 ?w0] =>
        pose proof (sound_registry_restore_backup b m4 w0) as H;
        destruct (restore_backup b m4 w0) as [[[[]|e'] m5] w5] end; done.
    + match goal with |- context [restore_backup ?b m3 ?w0] =>
        pose proof (sound_registry_restore_backup b m3 w0) as H;
        destruct (restore_backup b m3 w0) as [[[[]|e'] m4] w4] end; [done|].
      match goal with |- context [restore_backup ?b m4 ?w0] =>
        pose proof (sound_registry_restore_backup b m4 w0) as H';
        destruct (restore_backup b m4 w0) as [[[[]|e''] m5] w5] end; done.
Qed.

End RegistryInvariant.

(** *** What every call keeps true of the lists *)

Section ListInvariant.

Import Tree Spec.

(** A manager whose objects hold the lists, with the items, that the
    objects of a coherent manager hold at the same places. *)
Lemma coherent_ext (m m' : BehaviorTreeManager) :
  states m' = states m ->
  (lists_made m <= lists_made m')%nat ->
  (∀ r s', objects m' !! r = Some s' ->
     ∃ s, objects m !! r = Some s ∧ children_id s' = children_id s
          ∧ children (definition s') = children (definition s)) ->
  coherent_lists m -> coherent_lists m'.
Proof.
  intros Hst Hlm Hobj (Hknown & Hdist & Hagree). split; [|split].
  - intros r s' Hs'. destruct (Hobj r s' Hs') as (s & Hs & -> & _).
    specialize (Hknown r s Hs). lia.
  - intros k1 k2 r1 r2 s1 s2. rewrite Hst. intros H1 H2 Hs1 Hs2 Heq.
    destruct (Hobj r1 s1 Hs1) as (o1 & Ho1 & Hc1 & _).
    destruct (Hobj r2 s2 Hs2) as (o2 & Ho2 & Hc2 & _).
    apply (Hdist k1 k2 r1 r2 o1 o2); try done; congruence.
  - intros r1 r2 s1 s2 Hs1 Hs2 Heq.
    destruct (Hobj r1 s1 Hs1) as (o1 & Ho1 & Hc1 & ->).
    destruct (Hobj r2 s2 Hs2) as (o2 & Ho2 & Hc2 & ->).
    apply (Hagree r1 r2 o1 o2); try done; congruence.
Qed.

Lemma update_lookup_Some (r r' : ref) (f : BehaviorState -> BehaviorState)
    (m : BehaviorTreeManager) (s' : BehaviorState) :
  objects (update r f m) !! r' = Some s' ->
  ∃ s, objects m !! r' = Some s ∧ (s' = s ∨ (r' = r ∧ s' = f s)).
Proof.
  rewrite update_lookup. unfold Tree.ref in *. case_decide as Hr.
  - subst r'. destruct (objects m !! r) as [s|];
      cbn [fmap option_fmap option_map]; [|done].
    intros [= <-]. exists s. split; [done|]. by right.
  - intros Hs. exists s'. split; [done|]. by left.
Qed.

Lemma coherent_update (r : ref) (f : BehaviorState -> BehaviorState)
    (m : BehaviorTreeManager) :
  (∀ s, children_id (f s) = children_id s) ->
  (∀ s, children (definition (f s)) = children (definition s)) ->
  coherent_lists m -> coherent_lists (update r f m).
Proof.
  intros Hid Hch. apply coherent_ext.
  - by destruct (update_keeps_settings r f m) as (_ & _ & ->).
  - by rewrite update_lists_made.
  - intros r' s'. rewrite update_lookup. unfold Tree.ref in *. case_decide as Hr.
    + subst r'. destruct (objects m !! r) as [s|] eqn:Hs;
        cbn [fmap option_fmap option_map]; [|done].
      intros [= <-]. exists s. by rewrite Hid, Hch.
    + intros Hs. by exists s'.
Qed.

Lemma coherent_change_list (l : nat) (f : list string -> list string)
    (m : BehaviorTreeManager) :
  coherent_lists m -> coherent_lists (change_list l f m).
Proof.
  intros (Hknown & Hdist & Hagree).
  assert (∀ r s', objects (change_list l f m) !! r = Some s' ->
            ∃ s, objects m !! r = Some s ∧ s' = in_list l f s) as Hobj.
  { intros r s'. rewrite change_list_lookup. unfold Tree.ref in *.
    destruct (objects m !! r) as [s|]; cbn [fmap option_fmap option_map]; [|done].
    intros [= <-]. by exists s. }
  assert (∀ s, children_id (in_list l f s) = children_id s) as Hid.
  { intros s. unfold in_list. by destruct (Nat.eqb _ _). }
  split; [|split].
  - intros r s' (s & Hs & ->)%Hobj. rewrite Hid. apply (Hknown r s Hs).
  - intros k1 k2 r1 r2 s1 s2 H1 H2 (o1 & Ho1 & ->)%Hobj (o2 & Ho2 & ->)%Hobj.
    rewrite !Hid. by apply (Hdist k1 k2).
  - intros r1 r2 s1 s2 (o1 & Ho1 & ->)%Hobj (o2 & Ho2 & ->)%Hobj.
    rewrite !Hid. intros Heq. specialize (Hagree r1 r2 o1 o2 Ho1 Ho2 Heq).
    unfold in_list. rewrite <- Heq.
    destruct (Nat.eqb _ _); cbn [definition set_definition children set_children];
      congruence.
Qed.

Lemma coherent_delete (k : string) (m : BehaviorTreeManager) :
  coherent_lists m -> coherent_lists (with_states (delete k (states m)) m).
Proof.
  intros (Hknown & Hdist & Hagree). split; [done|split; [|done]].
  intros k1 k2 r1 r2 s1 s2. cbn [states objects with_states].
  intros [_ H1]%lookup_delete_Some [_ H2]%lookup_delete_Some. by apply (Hdist k1 k2).
Qed.

(** A new object comes to the store and is registered.  The list it
    holds is new to the manager, or it is a list no registered object
    holds and in which the objects of the store see the same items. *)
Lemma coherent_alloc (k : string) (s' : BehaviorState) (m : BehaviorTreeManager) :
  coherent_lists m ->
  (children_id s' <= lists_made m)%nat ->
  (∀ k2 r2 s2, states m !! k2 = Some r2 -> objects m !! r2 = Some s2 ->
     children_id s2 ≠ children_id s') ->
  (∀ r s, objects m !! r = Some s -> children_id s = children_id s' ->
     children (definition s) = children (definition s')) ->
  coherent_lists (with_states (<[k := length (objects m)]> (states m))
                    (with_objects (objects m ++ [s']) (new_list m).2)).
Proof.
  intros (Hknown & Hdist & Hagree) Hle Hfree Hsame.
  assert (∀ r s, (objects m ++ [s'])%list !! r = Some s ->
            (objects m !! r = Some s ∧ (r < length (objects m))%nat)
            ∨ (r = length (objects m) ∧ s = s')) as Hobj.
  { intros r s Hs. apply lookup_app_Some in Hs as [Hs|[Hge Hs]].
    - left. split; [done|]. by eapply lookup_lt_Some.
    - right. apply list_lookup_singleton_Some in Hs as [Hz ->]. split; [lia|done]. }
  assert (∀ k2 r2, (<[k := length (objects m)]> (states m) : gmap string ref) !! k2
                   = Some r2 ->
            r2 = length (objects m) ∨ states m !! k2 = Some r2) as Hreg.
  { intros k2 r2. destruct (decide (k2 = k)) as [->|Hne].
    - rewrite lookup_insert_eq. intros [= <-]. by left.
    - rewrite lookup_insert_ne by done. by right. }
  split; [|split]; unfold known_lists, distinct_lists, lists_agree;
    cbn [states objects with_states with_objects new_list snd lists_made].
  - intros r s [[Hs _]|[_ ->]]%Hobj; [|lia]. specialize (Hknown r s Hs). lia.
  - intros k1 k2 r1 r2 s1 s2 H1 H2 [[Hs1 Hlt1]|[-> ->]]%Hobj [[Hs2 Hlt2]|[-> ->]]%Hobj Heq.
    + destruct (Hreg k1 r1 H1) as [->|H1']; [lia|].
      destruct (Hreg k2 r2 H2) as [->|H2']; [lia|].
      by apply (Hdist k1 k2 r1 r2 s1 s2).
    + destruct (Hreg k1 r1 H1) as [->|H1']; [lia|].
      by destruct (Hfree k1 r1 s1 H1' Hs1).
    + destruct (Hreg k2 r2 H2) as [->|H2']; [lia|].
      by destruct (Hfree k2 r2 s2 H2' Hs2).
    + done.
  - intros r1 r2 s1 s2 [[Hs1 _]|[-> ->]]%Hobj [[Hs2 _]|[-> ->]]%Hobj Heq.
    + by apply (Hagree r1 r2).
    + by apply (Hsame r1).
    + symmetry. by apply (Hsame r2).
    + done.
Qed.

Lemma coherent_alloc_fresh (k : string) (s' : BehaviorState) (m : BehaviorTreeManager) :
  coherent_lists m ->
  children_id s' = lists_made m ->
  coherent_lists (with_states (<[k := length (objects m)]> (states m))
                    (with_objects (objects m ++ [s']) (new_list m).2)).
Proof.
  intros Hm Hfresh. apply coherent_alloc; [done|lia| |].
  - intros k2 r2 s2 _ Hs2. pose proof (proj1 Hm r2 s2 Hs2). lia.
  - intros r s Hs. pose proof (proj1 Hm r s Hs). lia.
Qed.

(** The object at [r] is given another list, new to the manager, or
    keeps the list it holds and the items in it. *)
Lemma coherent_rebind (r : ref) (f : BehaviorState -> BehaviorState)
    (m : BehaviorTreeManager) :
  (∀ s, (children_id (f s) = children_id s
         ∧ children (definition (f s)) = children (definition s))
        ∨ children_id (f s) = lists_made m) ->
  coherent_lists m -> coherent_lists (update r f (new_list m).2).
Proof.
  intros Hf (Hknown & Hdist & Hagree).
  assert (∀ r' s', objects (update r f (new_list m).2) !! r' = Some s' ->
            ∃ s, objects m !! r' = Some s
                 ∧ ((children_id s' = children_id s
                     ∧ children (definition s') = children (definition s))
                    ∨ (r' = r ∧ children_id s' = lists_made m))) as Hobj.
  { intros r' s'. rewrite update_lookup. cbn [new_list snd objects].
    unfold Tree.ref in *. case_decide as Hr.
    - subst r'. destruct (objects m !! r) as [s|]; cbn [fmap option_fmap option_map]; [|done].
      intros [= <-]. exists s.
      split; [done|]. destruct (Hf s); [by left|by right].
    - intros Hs. exists s'. split; [done|]. by left. }
  split; [|split].
  - intros r' s' (s & Hs & Hcase)%Hobj. rewrite update_lists_made.
    cbn [new_list snd lists_made]. specialize (Hknown r' s Hs).
    destruct Hcase as [[-> _]|[_ ->]]; lia.
  - intros k1 k2 r1 r2 s1 s2.
    rewrite (proj2 (proj2 (update_keeps_settings _ _ _))). cbn [new_list snd states].
    intros H1 H2 (o1 & Ho1 & Hc1)%Hobj (o2 & Ho2 & Hc2)%Hobj Heq.
    pose proof (Hknown r1 o1 Ho1). pose proof (Hknown r2 o2 Ho2).
    destruct Hc1 as [[Hc1 _]|[-> Hc1]], Hc2 as [[Hc2 _]|[-> Hc2]]; try done; try lia.
    apply (Hdist k1 k2 r1 r2 o1 o2); try done; congruence.
  - intros r1 r2 s1 s2 Hs1 Hs2 Heq.
    destruct (decide (r1 = r2)) as [->|Hne]; [congruence|].
    destruct (Hobj r1 s1 Hs1) as (o1 & Ho1 & Hc1).
    destruct (Hobj r2 s2 Hs2) as (o2 & Ho2 & Hc2).
    pose proof (Hknown r1 o1 Ho1). pose proof (Hknown r2 o2 Ho2).
    destruct Hc1 as [[Hc1 ->]|[-> Hc1]], Hc2 as [[Hc2 ->]|[-> Hc2]]; try done; try lia.
    apply (Hagree r1 r2 o1 o2); try done; congruence.
Qed.

Lemma rebuild_lists_made (m : BehaviorTreeManager) :
  lists_made (_rebuild_tree_structure m) = lists_made m.
Proof.
  unfold _rebuild_tree_structure. induction (map_to_list (states m)) as [|kr l IH]; [done|].
  cbn [foldr]. by rewrite update_lists_made.
Qed.

Lemma coherent_rebuild (m : BehaviorTreeManager) :
  coherent_lists m -> coherent_lists (_rebuild_tree_structure m).
Proof.
  apply coherent_ext.
  - apply rebuild_settings.
  - by rewrite rebuild_lists_made.
  - intros r s'. rewrite rebuild_lookup. unfold Tree.ref in *.
    destruct (objects m !! r) as [s|]; cbn [fmap option_fmap option_map]; [|done].
    intros [= <-]. exists s.
    split; [done|]. by destruct (decide _).
Qed.

Lemma from_dict_returns (data : StateData) (w : World) (d : StateDefinition) (l : nat) :
  (from_dict data w).1 = Return (d, l) ->
  l = children_list data ∧ children d = d_children (fields data).
Proof.
  unfold from_dict. cbn [datetime_now fst snd].
  destruct (StateType_of_value _); [|done]. by intros [= <- <-].
Qed.

Lemma create_state_children (d : StateDefinition) (l fresh : nat) (w : World) :
  children (definition (create_state d l fresh w).1)
  = if decide (type d = ROOT) then [] else children d.
Proof. by destruct d as [? ? [] ? ? ? ? ? ?]. Qed.

(** Loading: every node comes with a list of its own. *)
Lemma coherent_loaded (l : list (string * StateDict)) (m : BehaviorTreeManager) (w : World) :
  coherent_lists m -> coherent_lists (restore_entries loaded l m w).1.2.
Proof.
  revert m w. induction l as [|[k item] l IH]; intros m w Hm; [done|].
  cbn [restore_entries]. unfold restore_entry.
  destruct (from_dict (loaded item m) w) as [[[d l0]|e] w1] eqn:Hparse; [|done].
  assert (l0 = lists_made m) as ->.
  { by destruct (from_dict_returns (loaded item m) w d l0) as [-> _];
      [by rewrite Hparse|]. }
  unfold new_list. cbv beta iota.
  pose proof (create_state_children_id d (lists_made m) (lists_made m) w1) as Hid.
  destruct (create_state d (lists_made m) (lists_made m) w1) as [s w2].
  cbn [alloc fst snd] in *. apply IH.
  apply (coherent_alloc_fresh k s m Hm). by destruct (decide _).
Qed.

(** Restoring: a node that is not a root comes with the list of its
    dict.  The dicts are taken to hold distinct lists, known to the
    manager and held by no registered object, with the items the
    objects of the store see in them. *)
Lemma coherent_kept (l : list (string * StateData)) (m : BehaviorTreeManager) (w : World) :
  NoDup (children_list <$> l.*2) ->
  (∀ data, data ∈ l.*2 -> (children_list data < lists_made m)%nat) ->
  (∀ data r s, data ∈ l.*2 -> objects m !! r = Some s ->
     children_id s = children_list data ->
     children (definition s) = d_children (fields data)) ->
  (∀ data k r s, data ∈ l.*2 -> states m !! k = Some r -> objects m !! r = Some s ->
     children_id s ≠ children_list data) ->
  coherent_lists m -> coherent_lists (restore_entries kept l m w).1.2.
Proof.
  revert m w. induction l as [|[k data] l IH]; intros m w Hnd Hknown Hitems Hfree Hm; [done|].
  cbn [restore_entries]. unfold restore_entry, kept at 1.
  destruct (from_dict data w) as [[[d l0]|e] w1] eqn:Hparse; [|done].
  destruct (from_dict_returns data w d l0) as [-> Hch]; [by rewrite Hparse|].
  unfold new_list. cbv beta iota.
  pose proof (create_state_children_id d (children_list data) (lists_made m) w1) as Hid.
  pose proof (create_state_children d (children_list data) (lists_made m) w1) as Hkids.
  destruct (create_state d (children_list data) (lists_made m) w1) as [s w2].
  cbn [alloc fst snd] in *.
  rewrite !fmap_cons in Hnd. cbn [snd] in Hnd. apply NoDup_cons in Hnd as [Hhead Hnd].
  assert (data ∈ ((k, data) :: l).*2) as Hin by (rewrite fmap_cons; by left).
  assert (∀ data', data' ∈ l.*2 -> data' ∈ ((k, data) :: l).*2) as Htail
    by (intros data' H; rewrite fmap_cons; by right).
  assert (∀ data', data' ∈ l.*2 -> children_id s ≠ children_list data') as Hnew.
  { intros data' Hin' Heq. destruct (decide (type d = ROOT)).
    - specialize (Hknown data' (Htail data' Hin')). lia.
    - apply Hhead. rewrite <- Hid, Heq. apply list_elem_of_fmap. by exists data'. }
  assert (∀ r o, (objects m ++ [s])%list !! r = Some o ->
            objects m !! r = Some o ∨ o = s) as Hobj.
  { intros r o Ho. apply lookup_app_Some in Ho as [Ho|[_ Ho]]; [by left|].
    apply list_lookup_singleton_Some in Ho as [_ ->]. by right. }
  apply IH; cbn [states objects with_states with_objects lists_made].
  - done.
  - intros data' Hin'. specialize (Hknown data' (Htail data' Hin')). lia.
  - intros data' r o Hin' [Ho| ->]%Hobj Heq.
    + by apply (Hitems data' r o (Htail data' Hin')).
    + by destruct (Hnew data' Hin').
  - intros data' k' r o Hin' Hk' [Ho| ->]%Hobj; [|by apply Hnew].
    destruct (decide (k' = k)) as [->|Hne].
    + rewrite lookup_insert_eq in Hk'. injection Hk' as <-.
      apply lookup_lt_Some in Ho. lia.
    + rewrite lookup_insert_ne in Hk' by done.
      by apply (Hfree data' k' r o (Htail data' Hin')).
  - destruct (decide (type d = ROOT)).
    + by apply (coherent_alloc_fresh k s m Hm).
    + apply (coherent_alloc k s m Hm).
      * specialize (Hknown data Hin). lia.
      * intros k2 r2 s2 Hk2 Hs2. rewrite Hid. by apply (Hfree data k2 r2 s2).
      * intros r o Ho Heq. rewrite Hkids, Hch. apply (Hitems data r o Hin Ho). congruence.
Qed.

(** Restoring the snapshot of a coherent manager [m] over a manager
    that knows the lists of [m] and sees the same items in them. *)
Lemma coherent_restore_backup (m m3 : BehaviorTreeManager) (w : World) :
  distinct_refs m ->
  coherent_lists m ->
  known_lists m3 -> lists_agree m3 ->
  (lists_made m <= lists_made m3)%nat ->
  (∀ r3 s3 r s, objects m3 !! r3 = Some s3 -> objects m !! r = Some s ->
     children_id s3 = children_id s ->
     children (definition s3) = children (definition s)) ->
  coherent_lists (restore_backup (create_backup m) m3 w).1.2.
Proof.
  intros Hrefs (Hknown & Hdist & Hagree) Hknown3 Hagree3 Hle Hcross.
  unfold restore_backup.
  assert (∀ data, data ∈ (map_to_list (create_backup m)).*2 ->
            ∃ k r s, states m !! k = Some r ∧ objects m !! r = Some s
                     ∧ data = to_dict (definition s) (children_id s)
                     ∧ (k, data) ∈ map_to_list (create_backup m)) as Hentry.
  { intros data ([k data'] & -> & Hin)%list_elem_of_fmap. cbn [snd].
    pose proof Hin as Hin'.
    apply elem_of_map_to_list in Hin. rewrite create_backup_lookup in Hin.
    unfold state_of in Hin. destruct (states m !! k) as [r|] eqn:Hk; [|done].
    cbn [mbind option_bind] in Hin.
    destruct (objects m !! r) as [s|] eqn:Hs; [|done]. injection Hin as <-.
    by exists k, r, s. }
  assert (coherent_lists
            (restore_entries kept (map_to_list (create_backup m)) (with_states ∅ m3) w).1.2)
    as H.
  { apply coherent_kept.
    - rewrite <- list_fmap_compose.
      apply NoDup_fmap_2_strong; [|apply NoDup_map_to_list].
      intros [k1 d1] [k2 d2] H1 H2. cbn [compose snd]. intros Heq.
      assert (d1 ∈ (map_to_list (create_backup m)).*2) as Hd1
        by (apply list_elem_of_fmap; by exists (k1, d1)).
      assert (d2 ∈ (map_to_list (create_backup m)).*2) as Hd2
        by (apply list_elem_of_fmap; by exists (k2, d2)).
      apply elem_of_map_to_list in H1, H2.
      rewrite create_backup_lookup in H1, H2. unfold state_of in H1, H2.
      destruct (states m !! k1) as [r1|] eqn:Hk1; [|done].
      destruct (states m !! k2) as [r2|] eqn:Hk2; [|done].
      cbn [mbind option_bind] in H1, H2.
      destruct (objects m !! r1) as [s1|] eqn:Hs1; [|done].
      destruct (objects m !! r2) as [s2|] eqn:Hs2; [|done].
      injection H1 as <-. injection H2 as <-. cbn [children_list to_dict] in Heq.
      assert (r1 = r2) as -> by (by apply (Hdist k1 k2 r1 r2 s1 s2)).
      assert (k1 = k2) as -> by (by apply (Hrefs k1 k2 r2)).
      congruence.
    - intros data (k & r & s & Hk & Hs & -> & _)%Hentry.
      cbn [lists_made with_states children_list to_dict].
      specialize (Hknown r s Hs). lia.
    - intros data r3 s3 (k & r & s & Hk & Hs & -> & _)%Hentry.
      cbn [objects with_states children_list to_dict fields d_children].
      intros Hs3 Heq. by apply (Hcross r3 s3 r s).
    - intros data k r s _. cbn [states with_states]. by rewrite lookup_empty.
    - split; [done|split; [|done]].
      intros k1 k2 r1 r2 s1 s2. cbn [states with_states]. by rewrite lookup_empty. }
  destruct (restore_entries kept (map_to_list (create_backup m)) (with_states ∅ m3) w)
    as [[[[]|e] m1] w1]; cbn [fst snd] in *; [|done].
  by apply coherent_rebuild.
Qed.

Lemma children_kept (updates : list FieldUpdate) (d : StateDefinition) :
  existsb rebinds_children updates = false ->
  children (fold_left apply_update updates d) = children d.
Proof.
  revert d. induction updates as [|u updates IH]; intros d; [done|].
  cbn [existsb fold_left]. intros [Hu Hrest]%orb_false_iff.
  rewrite IH by done. by destruct u.
Qed.

Lemma coherent_strip_fold (state_id : string) (l : list (string * ref))
    (m : BehaviorTreeManager) :
  coherent_lists m ->
  coherent_lists (foldr (fun kr acc => strip_child state_id kr.2 acc) m l).
Proof.
  intros Hm. induction l as [|kr l IH]; [done|].
  cbn [foldr]. unfold strip_child.
  destruct (objects _ !! kr.2) as [s|]; [|done].
  destruct (bool_decide _); [|done].
  apply coherent_update; [done|done|]. by apply coherent_change_list.
Qed.

(** A new manager sees every list it holds as one object with one
    content, held by one registered node at most; [add_state],
    [remove_state], [modify_state] and a restore of the manager's own
    snapshot keep it so.  With the registry invariant this makes the
    managers that [remove_state] is specified for the ones a caller can
    reach. *)
Lemma lists_stay_coherent :
  (∀ w, coherent_lists (init w).1) ∧
  (∀ d parent_id m w,
     coherent_lists m -> coherent_lists (add_state d parent_id m w).1.2) ∧
  (∀ state_id m w,
     coherent_lists m -> coherent_lists (remove_state state_id m w).1.2) ∧
  (∀ state_id updates m w,
     distinct_refs m -> coherent_lists m ->
     coherent_lists (modify_state state_id updates m w).1.2) ∧
  (∀ m w,
     distinct_refs m -> coherent_lists m ->
     coherent_lists (restore_backup (create_backup m) m w).1.2).
Proof.
  split; [|split; [|split; [|split]]].
  - intros w. unfold init, RootState_init. cbn [datetime_now fst snd].
    set (m0 := mkManager _ _ _ _ _ _).
    assert (coherent_lists m0) as H0.
    { subst m0. split; [|split].
      - intros [|r] s; [|done]. cbn. intros [= <-]. cbn. lia.
      - intros k1 k2 [|r1] [|r2] s1 s2 _ _; done.
      - intros [|r1] [|r2] s1 s2; try done. cbn. by intros [= <-] [= <-]. }
    unfold load_states. destruct (states_file _) as [| |data]; [done|done|].
    match goal with |- context [restore_entries loaded ?l m0 ?w0] =>
      pose proof (coherent_loaded l m0 w0 H0) as H;
      destruct (restore_entries loaded l m0 w0) as [[[[]|e] m1] w1] end;
      cbn [fst snd] in *; [|done].
    by apply coherent_rebuild.
  - intros d parent_id m w Hm. unfold add_state.
    destruct (states m !! id d); [done|].
    destruct (states m !! parent_id); [|done].
    unfold new_list. cbv beta iota.
    pose proof (create_state_children_id d (lists_made m) (lists_made m) w) as Hid.
    destruct (create_state d _ _ w) as [s w1]. cbn [alloc fst snd] in *.
    assert (coherent_lists
              (with_states (<[id d := length (objects m)]> (states m))
                 (with_objects (objects m ++ [s]) (new_list m).2))) as H2.
    { apply (coherent_alloc_fresh (id d) s m Hm). by destruct (decide _). }
    destruct (states _ !! parent_id) as [p|]; [|done].
    match goal with |- context [save_states ?m4 w1] =>
      assert (coherent_lists m4) as H4;
      [|destruct (save_states m4 w1) as [[[]|e] w2]; done] end.
    match goal with |- context [update p ?f ?m2] =>
      assert (coherent_lists (update p f m2)) as H3
        by (by apply coherent_update) end.
    destruct (objects _ !! p) as [ps|]; [|done].
    destruct (bool_decide _); [done|]. by apply coherent_change_list.
  - intros state_id m w Hm. unfold remove_state.
    destruct (String.eqb state_id "root"); [done|].
    destruct (states m !! state_id); [|done].
    match goal with |- context [save_states ?m2 w] =>
      assert (coherent_lists m2) as H2;
      [|destruct (save_states m2 w) as [[[]|e] w2]; done] end.
    by apply coherent_delete, coherent_strip_fold.
  - intros state_id updates m w Hrefs Hm.
    destruct (states m !! state_id) as [r|] eqn:Hr;
      [|unfold modify_state; by rewrite Hr].
    destruct (Z.ltb (clock w (ticks w) - last_modification m) (modification_cooldown m))
      eqn:Hcool.
    { unfold modify_state. rewrite Hr. cbn [datetime_now fst snd ticks clock].
      by rewrite Hcool. }
    rewrite (modify_state_unfold state_id updates m w r Hr Hcool).
    set (m1 := update r (apply_updates updates (lists_made m)) (new_list m).2).
    set (m2 := update r _ m1).
    set (m3 := with_last_modification _ m2).
    assert (∀ s, (children_id (apply_updates updates (lists_made m) s) = children_id s
                  ∧ children (definition (apply_updates updates (lists_made m) s))
                    = children (definition s))
                 ∨ children_id (apply_updates updates (lists_made m) s) = lists_made m)
      as Hcases.
    { intros s. unfold apply_updates. cbn [children_id set_children_id definition set_definition].
      destruct (existsb rebinds_children updates) eqn:Hre; [by right|left].
      split; [done|]. by apply children_kept. }
    assert (coherent_lists m1) as H1 by (by apply coherent_rebind).
    assert (coherent_lists m3) as H3.
    { apply (coherent_ext m2); [done|done| |by apply coherent_update].
      intros r' s' Hs'. by exists s'. }
    assert (∀ r3 s3 r0 s, objects m3 !! r3 = Some s3 -> objects m !! r0 = Some s ->
              children_id s3 = children_id s ->
              children (definition s3) = children (definition s)) as Hcross.
    { intros r3 s3 r0 s Hs3 Hs Heq.
      assert (∃ o, objects m !! r3 = Some o
                   ∧ ((children_id s3 = children_id o
                       ∧ children (definition s3) = children (definition o))
                      ∨ children_id s3 = lists_made m)) as (o & Ho & Hcase).
      { change (objects m2 !! r3 = Some s3) in Hs3.
        apply update_lookup_Some in Hs3 as (o2 & Ho2 & Hs3).
        apply update_lookup_Some in Ho2 as (o & Ho & Ho2).
        exists o. split; [exact Ho|].
        assert (children_id s3 = children_id o2
                ∧ children (definition s3) = children (definition o2)) as [-> ->]
          by (by destruct Hs3 as [->|[_ ->]]).
        destruct Ho2 as [->|[_ ->]]; [by left|apply Hcases]. }
      destruct Hcase as [[Hc ->]|Hfresh].
      - apply (proj2 (proj2 Hm) r3 r0 o s Ho Hs). congruence.
      - pose proof (proj1 Hm r0 s Hs). lia. }
    assert (coherent_lists (restore_backup (create_backup m) m3 (datetime_now (datetime_now (datetime_now w).2).2).2).1.2
            ∧ ∀ w0, coherent_lists (modify_state_except (create_backup m) m3 w0).1.2)
      as [Hrestore Hexcept].
    { assert (∀ w0, coherent_lists (restore_backup (create_backup m) m3 w0).1.2) as Hall.
      { intros w0. apply coherent_restore_backup; try done.
        - apply H3.
        - apply H3.
        - subst m3 m2 m1. cbn [lists_made with_last_modification].
          rewrite !update_lists_made. cbn. lia. }
      split; [apply Hall|]. intros w0. unfold modify_state_except.
      specialize (Hall w0).
      by destruct (restore_backup (create_backup m) m3 w0) as [[[[]|e] m4] w4]. }
    destruct (validate_tree m3); cbn [negb].
    + destruct (save_states m3 _) as [[[]|e] w4]; [done|]. apply Hexcept.
    + pose proof (restore_backup_returns m m3
                    (datetime_now (datetime_now (datetime_now w).2).2).2) as (Hret & _).
      destruct (restore_backup (create_backup m) m3 _) as [[res m4] w4].
      cbn [fst snd] in *. by subst res.
  - intros m w Hrefs Hm. apply coherent_restore_backup; try done.
    + apply Hm.
    + apply Hm.
    + intros r3 s3 r s. apply Hm.
Qed.

End ListInvariant.

(** *** The same on the demo trees *)

(** A registry can be checked entry by entry. *)
Lemma valid_refs_check (m : Tree.BehaviorTreeManager) :
  forallb (fun kr => bool_decide (kr.2 < length (Tree.objects m))%nat)
          (map_to_list (Tree.states m)) = true ->
  Spec.valid_refs m.
Proof.
  intros Hall k r Hk. rewrite forallb_forall in Hall.
  specialize (Hall (k, r)). apply lookup_lt_is_Some_2.
  eapply bool_decide_eq_true_1. apply Hall.
  by apply list_elem_of_In, elem_of_map_to_list.
Qed.

Lemma result_eta {A B C : Type} (x : A * B * C) (a : A) :
  x.1.1 = a -> x = (a, x.1.2, x.2).
Proof. destruct x as [[a' b] c]. simpl. by intros ->. Qed.

Lemma rebuild_mirrors_children_witness :
  let m := Demo.tree_a1_a2.1 in
  let s := Demo.object_at m 0%nat in
  Tree.states (Tree._rebuild_tree_structure m) = Tree.states m ∧
  ((∃ k, Tree.states m !! k = Some 0%nat) ->
   Tree.objects (Tree._rebuild_tree_structure m) !! 0%nat
   = Some (Tree.set_attached
             (omap (fun child_id => Tree.states m !! child_id)
                   (children (Tree.definition s))) s)) ∧
  ((∀ k, Tree.states m !! k ≠ Some 0%nat) ->
   Tree.objects (Tree._rebuild_tree_structure m) !! 0%nat = Some s).
Proof.
  apply (rebuild_mirrors_children Demo.tree_a1_a2.1 0%nat
           (Demo.object_at Demo.tree_a1_a2.1 0%nat)).
  vm_compute. reflexivity.
Defined.

Lemma restore_of_backup_witness :
  let r := Tree.restore_backup (Tree.create_backup Demo.tree_a1.1)
             Demo.tree_a1.1 Demo.tree_a1.2 in
  r.1.1 = Tree.Return tt ∧
  dom (Tree.states r.1.2) = dom (Tree.states Demo.tree_a1.1) ∧
  ∃ s', Tree.state_of r.1.2 "a1" = Some s' ∧ Tree.definition s' = Demo.a1_definition.
Proof.
  destruct (restore_of_backup Demo.tree_a1.1 Demo.tree_a1.2)
    as (Hret & Hdom & _ & _ & Hdefs & _).
  { apply valid_refs_check. vm_compute. reflexivity. }
  split; [exact Hret|]. split; [exact Hdom|].
  destruct (Hdefs "a1" Demo.a1_definition) as (s' & Hs' & _ & Hd).
  { vm_compute. reflexivity. }
  exists s'. split; [exact Hs'|exact Hd].
Defined.

Lemma load_of_saved_witness :
  ∃ s', Tree.state_of (Tree.init Demo.tree_a1.2).1 "a1" = Some s' ∧
        Tree.attached s'
        = omap (fun child_id => Tree.states (Tree.init Demo.tree_a1.2).1 !! child_id)
               (children (Tree.definition s')) ∧
        Tree.definition s' = Demo.a1_definition.
Proof.
  apply (load_of_saved Demo.tree_a1.1 Demo.tree_a1.2 eq_refl "a1" Demo.a1_definition).
  - discriminate.
  - vm_compute. reflexivity.
Defined.

Lemma modify_state_past_cooldown_witness :
  let res := Tree.modify_state "a1" [Tree.SetName "renamed"]
               Demo.tree_a1.1 Demo.tree_a1.2 in
  (res.1.1 = Tree.Return true ∨ res.1.1 = Tree.Return false) ∧
  Tree.last_modification res.1.2
  = clock Demo.tree_a1.2 (S (S (ticks Demo.tree_a1.2))) ∧
  Tree.modification_cooldown res.1.2 = Tree.modification_cooldown Demo.tree_a1.1 ∧
  Tree.root_state res.1.2 = Tree.root_state Demo.tree_a1.1 ∧
  ∀ (state_id' : string) (updates' : list Tree.FieldUpdate) (w' : World),
    is_Some (Tree.states res.1.2 !! state_id') ->
    clock w' (ticks w') - clock Demo.tree_a1.2 (S (S (ticks Demo.tree_a1.2)))
    < Tree.modification_cooldown Demo.tree_a1.1 ->
    Tree.modify_state state_id' updates' res.1.2 w'
    = (Tree.Raise (Tree.BehaviorTreeError "Modification cooldown active"),
       res.1.2, (datetime_now w').2).
Proof.
  apply (modify_state_past_cooldown "a1" [Tree.SetName "renamed"]
           Demo.tree_a1.1 Demo.tree_a1.2).
  - vm_compute. eexists. reflexivity.
  - vm_compute. discriminate.
Defined.

Lemma modify_state_true_spec_witness :
  let res := Tree.modify_state "a1" [Tree.SetName "renamed"]
               Demo.tree_a1.1 Demo.tree_a1.2 in
  ∃ r, Tree.states Demo.tree_a1.1 !! "a1" = Some r ∧
       Tree.validate_tree res.1.2 = true ∧
       states_file res.2 = Saved (Tree.fields <$> Tree.create_backup res.1.2) ∧
       Tree.states res.1.2 = Tree.states Demo.tree_a1.1 ∧
       length (Tree.objects res.1.2) = length (Tree.objects Demo.tree_a1.1) ∧
       Tree.lists_made res.1.2 = S (Tree.lists_made Demo.tree_a1.1) ∧
       ∀ r' s, Tree.objects Demo.tree_a1.1 !! r' = Some s ->
         Tree.objects res.1.2 !! r'
         = Some (if decide (r' = r)
                 then Tree.set_definition
                        (Tree.set_modified_at
                           (clock Demo.tree_a1.2 (S (ticks Demo.tree_a1.2)))
                           (fold_left Tree.apply_update [Tree.SetName "renamed"]
                              (Tree.definition s)))
                        (Tree.set_children_id
                           (if existsb Tree.rebinds_children [Tree.SetName "renamed"]
                            then Tree.lists_made Demo.tree_a1.1
                            else Tree.children_id s) s)
                 else s).
Proof.
  apply (modify_state_true_spec "a1" [Tree.SetName "renamed"]
           Demo.tree_a1.1 _ Demo.tree_a1.2 _).
  apply result_eta. vm_compute. reflexivity.
Defined.

Lemma modify_state_false_restores_witness :
  let res := Tree.modify_state "a1" [Tree.SetChildren ["a1"]]
               Demo.tree_a1.1 Demo.tree_a1.2 in
  states_file res.2 = states_file Demo.tree_a1.2 ∧
  dom (Tree.states res.1.2) = dom (Tree.states Demo.tree_a1.1) ∧
  Tree.definition_of res.1.2 "a1" = Some Demo.a1_definition.
Proof.
  destruct (modify_state_false_restores "a1" [Tree.SetChildren ["a1"]]
              Demo.tree_a1.1
              (Tree.modify_state "a1" [Tree.SetChildren ["a1"]]
                 Demo.tree_a1.1 Demo.tree_a1.2).1.2
              Demo.tree_a1.2
              (Tree.modify_state "a1" [Tree.SetChildren ["a1"]]
                 Demo.tree_a1.1 Demo.tree_a1.2).2)
    as (_ & Hfile & _ & Hdom & Hdefs).
  { apply result_eta. vm_compute. reflexivity. }
  { apply valid_refs_check. vm_compute. reflexivity. }
  split; [apply Hfile; left; reflexivity|]. split; [exact Hdom|].
  apply Hdefs; [vm_compute; reflexivity|discriminate].
Defined.

Lemma add_state_registers_witness :
  let m := Demo.tree_a1.1 in
  let ps := Demo.object_at m 0%nat in
  let res := Tree.add_state Demo.a2_definition "root" m Demo.tree_a1.2 in
  res.1.1 = Tree.Return true ∧
  Tree.states res.1.2 = <["a2" := 2%nat]> (Tree.states m) ∧
  Tree.objects res.1.2 !! 0%nat
  = Some (Tree.set_definition
            (Tree.set_children ["a1"; "a2"] (Tree.definition ps))
            (Tree.add_child 2%nat ps)).
Proof.
  destruct (add_state_registers Demo.a2_definition "root" Demo.tree_a1.1
              Demo.tree_a1.2 0%nat (Demo.object_at Demo.tree_a1.1 0%nat))
    as (Hret & Hst & _ & _ & _ & Hp & _).
  - vm_compute. reflexivity.
  - vm_compute. reflexivity.
  - vm_compute. reflexivity.
  - split; [exact Hret|]. split; [exact Hst|exact Hp].
Defined.

(** Distinct lists can be checked entry by entry. *)
Lemma distinct_lists_check (m : Tree.BehaviorTreeManager) :
  NoDup (omap (fun kr : string * Tree.ref =>
                 (fun s => (Tree.children_id s, kr.2)) <$> Tree.objects m !! kr.2)
              (map_to_list (Tree.states m))).*1 ->
  Spec.distinct_lists m.
Proof.
  intros Hnd k1 k2 r1 r2 s1 s2 H1%elem_of_map_to_list H2%elem_of_map_to_list Hs1 Hs2 Heq.
  revert Hnd H1 H2. generalize (map_to_list (Tree.states m)).
  intros l. induction l as [|[k0 r0] l IH]; intros Hnd H1 H2.
  { by apply elem_of_nil in H1. }
  assert (∀ k r s, (k, r) ∈ l -> Tree.objects m !! r = Some s ->
            Tree.children_id s
            ∈ (omap (fun kr : string * Tree.ref =>
                       (fun s => (Tree.children_id s, kr.2)) <$> Tree.objects m !! kr.2)
                    l).*1) as Hin.
  { intros k r s Hl Hs. apply list_elem_of_fmap. exists (Tree.children_id s, r).
    split; [done|]. apply list_elem_of_omap. exists (k, r). split; [done|].
    cbn [snd]. unfold Tree.ref in *. by rewrite Hs. }
  cbn [omap list_omap snd] in Hnd.
  apply elem_of_cons in H1 as [H1|H1], H2 as [H2|H2].
  - congruence.
  - injection H1 as -> ->. unfold Tree.ref in *. rewrite Hs1 in Hnd.
    cbn [fmap option_fmap option_map] in Hnd. rewrite fmap_cons in Hnd.
    apply NoDup_cons in Hnd as [Hnot _]. exfalso. apply Hnot.
    cbn [fst]. rewrite Heq. by apply (Hin k2 r2 s2).
  - injection H2 as -> ->. unfold Tree.ref in *. rewrite Hs2 in Hnd.
    cbn [fmap option_fmap option_map] in Hnd. rewrite fmap_cons in Hnd.
    apply NoDup_cons in Hnd as [Hnot _]. exfalso. apply Hnot.
    cbn [fst]. rewrite <- Heq. by apply (Hin k1 r1 s1).
  - apply IH; [|done|done]. unfold Tree.ref in *.
    destruct (Tree.objects m !! r0); [|done].
    cbn [fmap option_fmap option_map] in Hnd. rewrite fmap_cons in Hnd.
    by apply NoDup_cons in Hnd as [_ Hnd].
Qed.

Lemma remove_state_spec_witness :
  let m := Demo.tree_a1_a2.1 in
  let s := Demo.object_at m 0%nat in
  let res := Tree.remove_state "a1" m Demo.tree_a1_a2.2 in
  res.1.1 = Tree.Return true ∧
  Tree.states res.1.2 = delete "a1" (Tree.states m) ∧
  Tree.objects res.1.2 !! 0%nat
  = Some (if bool_decide ("a1" ∈ children (Tree.definition s))
          then Tree.remove_child m "a1"
                 (Tree.set_definition
                    (Tree.set_children
                       (Tree.remove_first "a1" (children (Tree.definition s)))
                       (Tree.definition s)) s)
          else s).
Proof.
  destruct (remove_state_spec "a1" Demo.tree_a1_a2.1 Demo.tree_a1_a2.2 0%nat
              (Demo.object_at Demo.tree_a1_a2.1 0%nat))
    as (Hret & Hst & Hreg & _).
  - discriminate.
  - vm_compute. eexists. reflexivity.
  - apply distinct_refs_NoDup.
    apply (bool_decide_eq_true_1 _). vm_compute. reflexivity.
  - apply distinct_lists_check.
    apply (bool_decide_eq_true_1 _). vm_compute. reflexivity.
  - vm_compute. reflexivity.
  - split; [exact Hret|]. split; [exact Hst|].
    apply Hreg. exists "root". vm_compute. reflexivity.
Defined.

(** A write that fails once the file is open costs the saved tree: the
    update of [a1] is valid, [modify_state] returns [False], and the file
    that held the tree is left cut short; a manager started on it has the
    root only. *)
Example modify_state_cuts_the_file_short :
  let '(m, w) := Demo.tree_a1 in
  let '(r, m', w') :=
    Tree.modify_state "a1" [Tree.SetName "renamed"] m (Demo.cut_short w) in
  states_file w = Saved (Tree.fields <$> Tree.create_backup m) ∧
  r = Tree.Return false ∧
  states_file w' = Unreadable ∧
  dom (Tree.states (Tree.init w).1) = {["root"; "a1"]} ∧
  dom (Tree.states (Tree.init w').1) = {["root"]}.
Proof. vm_compute. repeat split; reflexivity. Qed.

(** The node a restore replaces keeps the [children] list of the node
    that takes its place.  After [restore_backup(create_backup())] the id
    [a1] is registered for a new object (the third of the store) and the
    old one (the second) is still there; [add_state] of [a2] under [a1]
    appends to the list of the new object, and the old object has the id
    in its [definition.children] too.  [remove_state] takes it out of
    both. *)
Example replaced_node_shares_the_list :
  let '(m, w) := Demo.tree_a1 in
  let '(_, m1, w1) := Tree.restore_backup (Tree.create_backup m) m w in
  let '(_, m2, w2) := Tree.add_state Demo.a2_definition "a1" m1 w1 in
  let '(_, m3, _) := Tree.remove_state "a2" m2 w2 in
  Tree.states m !! "a1" = Some 1%nat ∧
  Tree.states m1 !! "a1" = Some 2%nat ∧
  children ∘ Tree.definition <$> Tree.objects m1 !! 1%nat = Some [] ∧
  children ∘ Tree.definition <$> Tree.objects m2 !! 2%nat = Some ["a2"] ∧
  children ∘ Tree.definition <$> Tree.objects m2 !! 1%nat = Some ["a2"] ∧
  children ∘ Tree.definition <$> Tree.objects m3 !! 2%nat = Some [] ∧
  children ∘ Tree.definition <$> Tree.objects m3 !! 1%nat = Some [].
Proof. vm_compute. repeat split; reflexivity. Qed.

(** ** The memory system: storage, queries, statistics *)

Section StorageMore.

Import Mem.

Lemma of_row_to_row (memory : Memory) : of_row (id memory) (to_row memory) = memory.
Proof. by destruct memory. Qed.

Lemma to_row_of_row (key : string) (row : Row) : to_row (of_row key row) = row.
Proof. by destruct row. Qed.

(** X17.  [MemoryStorage.store_memory] followed by
    [retrieve_memory] of the same id gives back the memory that was
    stored, and the rows of other ids are unaffected; storing under an
    id that is present replaces the row and keeps the count, storing
    under a new id adds one; after [delete_memory] the id is absent, and
    deleting a memory that was just added gives back the table. *)
Theorem storage_store_then_retrieve (memory : Memory) (db : gmap string Row) (k : string) :
  let db' := (storage_store_memory memory db).2 in
  storage_retrieve_memory (id memory) db' = Some memory ∧
  (k ≠ id memory -> storage_retrieve_memory k db' = storage_retrieve_memory k db) ∧
  get_memory_count db'
  = match db !! id memory with
    | Some _ => get_memory_count db
    | None => get_memory_count db + 1
    end ∧
  storage_retrieve_memory (id memory) (storage_delete_memory (id memory) db').2 = None ∧
  (db !! id memory = None -> (storage_delete_memory (id memory) db').2 = db).
Proof.
  unfold storage_store_memory, storage_retrieve_memory, storage_delete_memory,
    get_memory_count. cbn [snd].
  split; [by rewrite lookup_insert_eq; simpl; rewrite of_row_to_row|].
  split; [intros Hk; by rewrite lookup_insert_ne|].
  split.
  { destruct (db !! id memory) eqn:Hin.
    - rewrite map_size_insert_Some; eauto.
    - rewrite map_size_insert_None by done. lia. }
  split; [by rewrite lookup_delete_eq|].
  intros Hnone. rewrite delete_insert_eq. by apply delete_id.
Qed.

(** *** find_memories *)

Lemma collect_all (wanted : option (list string)) (rows : list (string * Row))
    (acc : list Memory) :
  wanted = None ∨ wanted = Some [] ->
  collect wanted rows acc = (acc ++ (uncurry of_row <$> rows))%list.
Proof.
  intros Hw. revert acc. induction rows as [|[key row] rows IH]; intros acc.
  - simpl. by rewrite app_nil_r.
  - cbn [collect fmap list_fmap uncurry].
    destruct Hw as [->| ->]; rewrite IH; by rewrite <- app_assoc.
Qed.

Lemma find_memories_filter (memory_type : option MemoryType) (min_importance : Q)
    (limit : Z) (wanted : option (list string)) (db : gmap string Row) :
  find_memories memory_type min_importance limit wanted db
  = List.filter (fun memory => match wanted with
                               | Some (t :: ts) => any_tag (t :: ts) memory
                               | _ => true
                               end)
      (uncurry of_row <$> select memory_type min_importance limit db).
Proof.
  unfold find_memories. destruct wanted as [[|t ts]|].
  - rewrite collect_all by auto. simpl.
    induction (uncurry of_row <$> _) as [|x l IH]; simpl; [done|]. by rewrite <- IH.
  - by rewrite collect_filter.
  - rewrite collect_all by auto. simpl.
    induction (uncurry of_row <$> _) as [|x l IH]; simpl; [done|]. by rewrite <- IH.
Qed.

Lemma sql_limit_sublist {A : Type} (n : Z) (l : list A) : sublist (sql_limit n l) l.
Proof.
  unfold sql_limit. destruct (Z.ltb n 0); [done|]. apply sublist_take.
Qed.

Lemma sql_limit_length {A : Type} (n : Z) (l : list A) :
  0 <= n -> Z.of_nat (length (sql_limit n l)) = Z.min n (Z.of_nat (length l)).
Proof.
  intros Hn. unfold sql_limit. destruct (Z.ltb_spec n 0); [lia|].
  rewrite length_take. lia.
Qed.

Lemma filter_sublist {A : Type} (f : A -> bool) (l : list A) : sublist (List.filter f l) l.
Proof.
  induction l as [|x l IH]; simpl; [done|].
  destruct (f x); by constructor.
Qed.

Lemma sublist_StronglySorted {A : Type} (R : A -> A -> Prop) (l1 l2 : list A) :
  StronglySorted R l2 -> sublist l1 l2 -> StronglySorted R l1.
Proof.
  intros Hs Hsub. induction Hsub as [|x l1 l2 Hsub IH|x l1 l2 Hsub IH].
  - constructor.
  - apply StronglySorted_inv in Hs as [Hs Hx]. constructor; [by apply IH|].
    eapply Forall_forall. intros y Hy. rewrite Forall_forall in Hx.
    apply Hx. by eapply elem_of_sublist.
  - apply StronglySorted_inv in Hs as [Hs _]. by apply IH.
Qed.

Lemma select_NoDup (memory_type : option MemoryType) (min_importance : Q)
    (limit : Z) (db : gmap string Row) :
  NoDup (select memory_type min_importance limit db).*1.
Proof.
  unfold select.
  eapply sublist_NoDup; [|apply fmap_sublist, sql_limit_sublist].
  rewrite (sorted_desc_perm above).
  eapply sublist_NoDup; [|apply fmap_sublist, filter_sublist].
  apply NoDup_fst_map_to_list.
Qed.

Lemma precedes_outranks (a b : string * Row) :
  Spec.precedes a b <-> Spec.outranks (uncurry of_row a) (uncurry of_row b).
Proof. by destruct a, b. Qed.

Lemma select_sorted (memory_type : option MemoryType) (min_importance : Q)
    (limit : Z) (db : gmap string Row) :
  StronglySorted Spec.precedes (select memory_type min_importance limit db).
Proof.
  unfold select.
  eapply (sublist_StronglySorted); [|apply sql_limit_sublist].
  apply (sorted_desc_sorted above Spec.precedes).
  - apply above_precedes.
  - apply not_above_precedes.
  - apply precedes_trans.
Qed.

Lemma StronglySorted_fmap_iff {A B : Type} (R : A -> A -> Prop) (S : B -> B -> Prop)
    (f : A -> B) (l : list A) :
  (∀ a b, R a b -> S (f a) (f b)) ->
  StronglySorted R l -> StronglySorted S (f <$> l).
Proof.
  intros HRS. induction 1 as [|x l Hs IH Hx]; simpl; constructor; [done|].
  apply Forall_fmap. eapply Forall_impl; [exact Hx|]. intros y Hy. by apply HRS.
Qed.

Lemma filter_length_le {A : Type} (f : A -> bool) (l : list A) :
  (length (List.filter f l) <= length l)%nat.
Proof. apply sublist_length, filter_sublist. Qed.

Lemma select_length (memory_type : option MemoryType) (min_importance : Q)
    (limit : Z) (db : gmap string Row) :
  0 <= limit ->
  Z.of_nat (length (select memory_type min_importance limit db))
  = Z.min limit
      (Z.of_nat (length (List.filter (matches memory_type min_importance)
                           (map_to_list db)))).
Proof.
  intros Hl. unfold select. rewrite sql_limit_length by done.
  by rewrite (sorted_desc_perm above).
Qed.

Lemma matches_spec (memory_type : option MemoryType) (min_importance : Q)
    (key : string) (row : Row) :
  matches memory_type min_importance (key, row) = true
  <-> (min_importance <= col_importance row)%Q
      ∧ ∀ t, memory_type = Some t -> col_type row = t.
Proof.
  unfold matches. cbn [snd]. rewrite andb_true_iff, Qle_bool_iff.
  destruct memory_type as [t|].
  - rewrite bool_decide_eq_true. split.
    + intros [? ?]. split; [done|]. by intros ? [= <-].
    + intros [? Ht]. split; [done|]. by apply Ht.
  - split; [|by intros [? _]]. intros [? _]. split; [done|]. by intros.
Qed.

Lemma find_memories_ids_NoDup (memory_type : option MemoryType) (min_importance : Q)
    (limit : Z) (wanted : option (list string)) (db : gmap string Row) :
  NoDup (id <$> find_memories memory_type min_importance limit wanted db).
Proof.
  rewrite find_memories_filter.
  eapply sublist_NoDup; [|apply fmap_sublist, filter_sublist].
  rewrite <- list_fmap_compose.
  rewrite (list_fmap_ext (id ∘ uncurry of_row) fst) by (by intros ? []).
  apply select_NoDup.
Qed.

Lemma find_memories_elem (memory_type : option MemoryType) (min_importance : Q)
    (limit : Z) (wanted : option (list string)) (db : gmap string Row)
    (memory : Memory) :
  memory ∈ find_memories memory_type min_importance limit wanted db ->
  ∃ row, db !! id memory = Some row ∧ memory = of_row (id memory) row
         ∧ matches memory_type min_importance (id memory, row) = true.
Proof.
  rewrite find_memories_filter.
  intros Hin. apply list_elem_of_In, filter_In in Hin as [Hin _].
  apply list_elem_of_In, list_elem_of_fmap in Hin as ([key row] & -> & Hin).
  apply elem_of_select in Hin as [Hdb Hm]. by exists row.
Qed.

(** X18.  The list [find_memories] returns has no id twice, is in
    descending order of importance (newer first among equals) and, for a
    limit that is not negative, no longer than the limit; each of its
    memories is the stored row of its id, is at least as important as
    asked, is of the type asked for and, when a non-empty tag list was
    given, carries one of the tags. *)
Theorem find_memories_sound (memory_type : option MemoryType) (min_importance : Q)
    (limit : Z) (wanted : option (list string)) (db : gmap string Row) :
  let found := find_memories memory_type min_importance limit wanted db in
  NoDup (id <$> found) ∧
  StronglySorted Spec.outranks found ∧
  (0 <= limit -> Z.of_nat (length found) <= limit) ∧
  ∀ memory, memory ∈ found ->
    storage_retrieve_memory (id memory) db = Some memory ∧
    (min_importance <= importance memory)%Q ∧
    (∀ t, memory_type = Some t -> type memory = t) ∧
    (∀ t ts, wanted = Some (t :: ts) -> ∃ tag, tag ∈ t :: ts ∧ tag ∈ tags memory).
Proof.
  cbv zeta. split; [apply find_memories_ids_NoDup|].
  split.
  { rewrite find_memories_filter.
    eapply sublist_StronglySorted; [|apply filter_sublist].
    eapply StronglySorted_fmap_iff; [|apply select_sorted].
    intros a b. by rewrite precedes_outranks. }
  split.
  { intros Hl. rewrite find_memories_filter.
    match goal with |- context [List.filter ?keep ?l] =>
      pose proof (filter_length_le keep l) as Hle end.
    rewrite length_fmap in Hle.
    pose proof (select_length memory_type min_importance limit db Hl). lia. }
  intros memory Hin.
  destruct (find_memories_elem _ _ _ _ _ _ Hin) as (row & Hdb & Hrow & Hm).
  apply matches_spec in Hm as [Hi Ht].
  split. { unfold storage_retrieve_memory. rewrite Hdb. simpl. by rewrite <- Hrow. }
  split; [by rewrite Hrow|]. split; [intros t Hty; rewrite Hrow; by apply Ht|].
  intros t ts ->. rewrite find_memories_filter in Hin.
  apply list_elem_of_In, filter_In in Hin as [_ Hkeep].
  unfold any_tag in Hkeep. apply existsb_exists in Hkeep as (tag & Htag & Hb).
  exists tag. split; [by apply list_elem_of_In|].
  by apply bool_decide_eq_true in Hb.
Qed.

(** X19.  When the limit is negative or at least the size of the
    table, [find_memories] returns every stored memory that is important
    enough, of the type asked for and, for a non-empty tag list, carries
    one of the tags. *)
Theorem find_memories_complete (memory_type : option MemoryType) (min_importance : Q)
    (limit : Z) (wanted : option (list string)) (db : gmap string Row)
    (key : string) (row : Row) :
  limit < 0 ∨ Z.of_nat (size db) <= limit ->
  db !! key = Some row ->
  (min_importance <= col_importance row)%Q ->
  (∀ t, memory_type = Some t -> col_type row = t) ->
  (∀ t ts, wanted = Some (t :: ts) -> ∃ tag, tag ∈ t :: ts ∧ tag ∈ col_tags row) ->
  of_row key row ∈ find_memories memory_type min_importance limit wanted db.
Proof.
  intros Hlimit Hdb Hi Ht Htags. rewrite find_memories_filter.
  apply list_elem_of_In, filter_In. split.
  - apply list_elem_of_In, list_elem_of_fmap. exists (key, row). split; [done|].
    unfold select.
    assert (sql_limit limit
              (Py.sorted_desc above
                 (List.filter (matches memory_type min_importance) (map_to_list db)))
            = Py.sorted_desc above
                (List.filter (matches memory_type min_importance) (map_to_list db)))
      as ->.
    { unfold sql_limit. destruct (Z.ltb_spec limit 0) as [|Hge]; [done|].
      apply take_ge. rewrite (sorted_desc_perm above).
      pose proof (filter_length_le (matches memory_type min_importance) (map_to_list db)).
      rewrite length_map_to_list in *. destruct Hlimit; lia. }
    rewrite (sorted_desc_perm above). apply list_elem_of_In, filter_In.
    split; [by apply list_elem_of_In, elem_of_map_to_list|].
    by apply matches_spec.
  - destruct wanted as [[|t ts]|]; [done| |done].
    destruct (Htags t ts eq_refl) as (tag & Hin & Htag).
    unfold any_tag. apply existsb_exists. exists tag.
    split; [by apply list_elem_of_In|]. by apply bool_decide_eq_true.
Qed.

End StorageMore.

Section ManagerMemory.

Import Mem.

Variable rnd : Q -> Q.

Lemma calculate_importance_unit (now : Z) (memory : Memory) (context : Context) :
  (0 <= calculate_importance rnd now memory context <= 1)%Q.
Proof. unfold calculate_importance. apply py_clamp_unit. Qed.

(** X20.  [MemoryManager.store_memory] of a memory whose type is not
    Working returns the id, leaves the cache and the other rows alone,
    and puts in the table a memory with the given content, type, tags,
    context and states, the first clock reading as timestamp, no access
    yet and an importance between 0 and 1; the row is still there after
    [clear_working_memory].  A consolidation is scheduled exactly when
    the table is then larger than [max_memories], and the call reads the
    clock twice. *)
Theorem store_memory_is_durable (memory_id : string) (text : Py.PyVal)
    (memory_type : MemoryType) (tgs : list string) (ctx : Context)
    (sts : list string) (mm : MemoryManager) (w : World) :
  memory_type ≠ WORKING ->
  let r := store_memory rnd memory_id text memory_type tgs ctx sts mm w in
  let mm1 := r.1.2 in
  r.1.1 = memory_id ∧
  working_memory mm1 = working_memory mm ∧
  (∀ k, k ≠ memory_id -> storage mm1 !! k = storage mm !! k) ∧
  (∃ memory,
     storage_retrieve_memory memory_id (storage (clear_working_memory mm1)) = Some memory ∧
     id memory = memory_id ∧ content memory = text ∧ type memory = memory_type ∧
     tags memory = tgs ∧ context memory = ctx ∧ associated_states memory = sts ∧
     timestamp memory = clock w (ticks w) ∧
     access_count memory = 0 ∧ last_accessed memory = None ∧
     (0 <= importance memory <= 1)%Q) ∧
  scheduled mm1
  = (if Z.ltb (max_memories mm) (Z.of_nat (size (storage mm1)))
     then S (scheduled mm) else scheduled mm) ∧
  ticks r.2 = S (S (ticks w)).
Proof.
  intros Hty. unfold store_memory. cbn [datetime_now fst snd ticks clock].
  rewrite bool_decide_eq_false_2 by done.
  unfold storage_store_memory, get_memory_count. cbn [snd id].
  set (memory := set_importance _ _).
  set (mm1 := with_storage _ mm).
  assert (∀ mm2 : MemoryManager,
            (mm2 = schedule_consolidation mm1 ∨ mm2 = mm1) ->
            storage mm2 = <[memory_id := to_row memory]> (storage mm)
            ∧ working_memory mm2 = working_memory mm) as Hfields.
  { intros mm2 [-> | ->]; done. }
  match goal with |- context [if ?c then schedule_consolidation mm1 else mm1] =>
    destruct (Hfields (if c then schedule_consolidation mm1 else mm1)) as [Hst Hwm];
    [destruct c; auto|] end.
  cbn [fst snd]. split; [done|]. split; [done|].
  split. { intros k Hk. rewrite Hst. by apply lookup_insert_ne. }
  split.
  { exists memory. unfold storage_retrieve_memory, clear_working_memory.
    cbn [storage with_working_memory]. rewrite Hst, lookup_insert_eq.
    cbn [fmap option_fmap option_map].
    do 10 (split; [done|]). apply calculate_importance_unit. }
  split; [|done].
  rewrite Hst. cbn [max_memories with_storage storage].
  by destruct (Z.ltb _ _).
Qed.

(** X21.  [MemoryManager.retrieve_memory] of an id that is in the
    table and not in the cache, with a type that is not Working, returns
    the stored memory with one more access, the first clock reading as
    [last_accessed] and an importance between 0 and 1, all other fields
    unchanged, and writes exactly that memory back under the id; the
    cache and the other rows are unaffected. *)
Theorem retrieve_memory_counts_access (memory_id : string) (mm : MemoryManager)
    (w : World) (row : Row) :
  working_memory mm !! memory_id = None ->
  storage mm !! memory_id = Some row ->
  col_type row ≠ WORKING ->
  let r := retrieve_memory rnd memory_id mm w in
  ∃ memory,
    r.1.1 = Some memory ∧
    storage_retrieve_memory memory_id (storage r.1.2) = Some memory ∧
    access_count memory = col_access_count row + 1 ∧
    last_accessed memory = Some (clock w (ticks w)) ∧
    (0 <= importance memory <= 1)%Q ∧
    set_importance (col_importance row) memory
    = touch (clock w (ticks w)) (of_row memory_id row) ∧
    working_memory r.1.2 = working_memory mm ∧
    (∀ k, k ≠ memory_id -> storage r.1.2 !! k = storage mm !! k).
Proof.
  intros Hwm Hdb Hty. unfold retrieve_memory, storage_retrieve_memory.
  rewrite Hwm, Hdb. cbn [fmap option_fmap option_map datetime_now fst snd ticks clock].
  set (memory := set_importance _ _).
  assert (type memory = col_type row) as Hmt by done.
  rewrite bool_decide_eq_false_2 by (by rewrite Hmt).
  exists memory. cbn [fst snd storage with_storage storage_store_memory].
  split; [done|].
  split. { by rewrite lookup_insert_eq. }
  split; [done|]. split; [done|].
  split; [apply calculate_importance_unit|].
  split; [done|]. split; [done|].
  intros k Hk. by apply lookup_insert_ne.
Qed.

(** X22.  [MemoryManager.retrieve_memory] of an id the cache holds a
    Working memory for returns that memory with one more access, the
    first clock reading as [last_accessed] and an importance between 0
    and 1, all other fields unchanged; the cache holds the updated
    memory, its other entries and the table are unaffected. *)
Theorem retrieve_cached_memory (memory_id : string) (mm : MemoryManager)
    (w : World) (cached : Memory) :
  working_memory mm !! memory_id = Some cached ->
  type cached = WORKING ->
  let r := retrieve_memory rnd memory_id mm w in
  ∃ memory,
    r.1.1 = Some memory ∧
    working_memory r.1.2 !! memory_id = Some memory ∧
    access_count memory = access_count cached + 1 ∧
    last_accessed memory = Some (clock w (ticks w)) ∧
    (0 <= importance memory <= 1)%Q ∧
    set_importance (importance cached) memory = touch (clock w (ticks w)) cached ∧
    storage r.1.2 = storage mm ∧
    (∀ k, k ≠ memory_id -> working_memory r.1.2 !! k = working_memory mm !! k).
Proof.
  intros Hwm Hty. unfold retrieve_memory. rewrite Hwm.
  cbn [datetime_now fst snd ticks clock].
  set (memory := set_importance _ _).
  assert (type memory = WORKING) as Hmt by done.
  rewrite bool_decide_eq_true_2 by done.
  exists memory. cbn [fst snd storage working_memory with_working_memory].
  split; [done|]. split; [by rewrite lookup_insert_eq|].
  split; [done|]. split; [done|].
  split; [apply calculate_importance_unit|].
  split; [done|]. split; [done|].
  intros k Hk. by apply lookup_insert_ne.
Qed.

(** *** The relevance of a memory *)

Lemma ratio_nonneg (n d : nat) :
  (0 <= inject_Z (Z.of_nat n) / inject_Z (Z.of_nat d))%Q.
Proof.
  unfold Qdiv. apply Qmult_le_0_compat.
  - change 0%Q with (inject_Z 0). rewrite <- Zle_Qle. lia.
  - apply Qinv_le_0_compat. change 0%Q with (inject_Z 0). rewrite <- Zle_Qle. lia.
Qed.

Lemma py_min_one_bounds (x : Q) : (0 <= x -> 0 <= Py.min 1 x <= 1)%Q.
Proof. unfold Py.min. destruct (Qlt_le_dec x 1); lra. Qed.

Lemma relevance_set_importance (q : Q) (memory : Memory) (context : Context) :
  _calculate_relevance rnd (set_importance q memory) context
  = _calculate_relevance rnd memory context.
Proof. reflexivity. Qed.

Lemma relevance_empty_context (memory : Memory) :
  _calculate_relevance rnd memory empty_context = Py.min 1 0.
Proof. unfold _calculate_relevance. simpl. by destruct (content memory). Qed.

(** X23.  When rounding keeps non-negative numbers non-negative,
    [_calculate_relevance] is between 0 and 1; [_extract_emotional_weight]
    is between 0 and 1 for any rounding; and the boost of
    [find_relevant_memories] gives a memory whose importance was at most
    1 an importance that is still at most 1, not below the old one and
    not below the relevance. *)
Theorem relevance_in_unit_interval (memory : Memory) (context : Context) :
  (∀ q, 0 <= q -> 0 <= rnd q)%Q ->
  (0 <= _calculate_relevance rnd memory context <= 1)%Q ∧
  (0 <= _extract_emotional_weight rnd memory <= 1)%Q ∧
  ((importance memory <= 1)%Q ->
   (importance memory <= importance (boost rnd context memory) <= 1)%Q
   ∧ (_calculate_relevance rnd memory context
      <= importance (boost rnd context memory))%Q).
Proof.
  intros Hrnd.
  assert (∀ r n d, 0 <= r ->
            0 <= rnd (r + rnd (inject_Z (Z.of_nat n) / inject_Z (Z.of_nat d))))%Q
    as Hstep.
  { intros r n d Hr. apply Hrnd.
    pose proof (Hrnd _ (ratio_nonneg n d)). lra. }
  assert (0 <= _calculate_relevance rnd memory context <= 1)%Q as Hrel.
  { unfold _calculate_relevance. apply py_min_one_bounds.
    set (r1 := match ctx_tags context, tags memory with
               | _ :: _, _ :: _ => _ | _, _ => 0%Q end).
    assert (0 <= r1)%Q as H1.
    { subst r1. destruct (ctx_tags context), (tags memory); try lra. by apply Hstep. }
    set (r2 := match ctx_current_states context, associated_states memory with
               | _ :: _, _ :: _ => _ | _, _ => r1 end).
    assert (0 <= r2)%Q as H2.
    { subst r2. destruct (ctx_current_states context), (associated_states memory);
        try done. by apply Hstep. }
    destruct (content memory); try done.
    destruct (String.eqb _ _); [done|].
    destruct (Py.split (Py.lower (ctx_content context))), (Py.split (Py.lower s));
      try done. by apply Hstep. }
  split; [done|]. split.
  { unfold _extract_emotional_weight. destruct (content memory); try lra.
    unfold Py.min, Py.max. repeat destruct (Qlt_le_dec _ _); lra. }
  intros Himp. unfold boost. cbn [importance set_importance].
  unfold Py.max. destruct (Qlt_le_dec _ _); lra.
Qed.

(** *** find_relevant_memories *)

Lemma by_importance_true (x y : Memory) :
  by_importance y x = true -> (importance x <= importance y)%Q.
Proof. unfold by_importance. destruct (Qlt_le_dec _ _); [lra|done]. Qed.

Lemma by_importance_false (x y : Memory) :
  by_importance y x = false -> (importance y <= importance x)%Q.
Proof. unfold by_importance. by destruct (Qlt_le_dec _ _). Qed.

Lemma slice_sublist {A : Type} (n : Z) (l : list A) : sublist (Py.slice n l) l.
Proof. unfold Py.slice. destruct (Z.ltb n 0); apply sublist_take. Qed.

Lemma slice_length {A : Type} (n : Z) (l : list A) :
  0 <= n -> Z.of_nat (length (Py.slice n l)) <= n.
Proof.
  intros Hn. unfold Py.slice. destruct (Z.ltb_spec n 0); [lia|].
  rewrite length_take. lia.
Qed.

Lemma relevant_spec (context : Context) (memory : Memory) :
  relevant rnd context memory = true
  <-> (rnd (3 # 10) < _calculate_relevance rnd memory context)%Q.
Proof. unfold relevant. destruct (Qlt_le_dec _ _); split; try done. lra. Qed.

(** X24.  The list [find_relevant_memories] returns is in descending
    order of importance and, for a limit that is not negative, no longer
    than the limit.  Each of its memories has a relevance above 0.3 for
    the context and is either a memory of the cache, which happens only
    when Working was asked for, or a stored memory of one of the types
    searched, not Working, stored with an importance of at least 0.3 and
    returned with the larger of that importance and the relevance. *)
Theorem find_relevant_memories_sound (cache_values : list Memory) (ctx : Context)
    (memory_types : option (list MemoryType)) (limit : Z) (mm : MemoryManager) :
  let found := find_relevant_memories rnd cache_values ctx memory_types limit mm in
  StronglySorted (fun a b => (importance b <= importance a)%Q) found ∧
  (0 <= limit -> Z.of_nat (length found) <= limit) ∧
  ∀ memory, memory ∈ found ->
    (rnd (3 # 10) < _calculate_relevance rnd memory ctx)%Q ∧
    ((memory ∈ cache_values ∧ ∃ ts, memory_types = Some ts ∧ WORKING ∈ ts) ∨
     (∃ stored,
        storage_retrieve_memory (id memory) (storage mm) = Some stored ∧
        memory = boost rnd ctx stored ∧
        type stored ≠ WORKING ∧
        (memory_types = None ∨ memory_types = Some [] ->
         type stored ∈ [EPISODIC; SEMANTIC; PROCEDURAL]) ∧
        (∀ ts, memory_types = Some ts -> ts ≠ [] -> type stored ∈ ts) ∧
        (rnd (3 # 10) <= importance stored)%Q)).
Proof.
  cbv zeta. unfold find_relevant_memories.
  set (types := match memory_types with Some (t :: ts) => t :: ts | _ => _ end).
  set (all := flat_map _ types).
  split.
  { eapply sublist_StronglySorted; [|apply slice_sublist].
    apply (sorted_desc_sorted by_importance).
    - apply by_importance_true.
    - apply by_importance_false.
    - intros a b c ? ?. lra. }
  split; [apply slice_length|].
  intros memory Hin.
  eapply elem_of_sublist in Hin; [|apply slice_sublist].
  rewrite (sorted_desc_perm by_importance) in Hin.
  apply list_elem_of_In, in_flat_map in Hin as (ty & Hty & Hin).
  apply list_elem_of_In in Hty.
  unfold search_type in Hin. case_bool_decide as Hw.
  - apply filter_In in Hin as [Hin Hrel]. apply relevant_spec in Hrel.
    split; [done|]. left. split; [by apply list_elem_of_In|].
    subst ty types. destruct memory_types as [[|t ts]|].
    + repeat (apply elem_of_cons in Hty as [Hty|Hty]; [done|]).
      by apply elem_of_nil in Hty.
    + eauto.
    + repeat (apply elem_of_cons in Hty as [Hty|Hty]; [done|]).
      by apply elem_of_nil in Hty.
  - apply list_elem_of_In, list_elem_of_fmap in Hin as (stored & -> & Hin).
    apply list_elem_of_In, filter_In in Hin as [Hin Hrel].
    apply relevant_spec in Hrel. apply list_elem_of_In in Hin.
    destruct (find_memories_elem _ _ _ _ _ _ Hin) as (row & Hrow & Hstored & Hm).
    apply matches_spec in Hm as [Himp Htype]. specialize (Htype ty eq_refl).
    assert (storage_retrieve_memory (id stored) (storage mm) = Some stored) as Hdb.
    { unfold storage_retrieve_memory. rewrite Hrow. simpl. by rewrite <- Hstored. }
    assert (type stored = ty) as Hty' by (by rewrite Hstored).
    assert (rnd (3 # 10) <= importance stored)%Q as Himp' by (by rewrite Hstored).
    clear Htype Himp. rename Hty' into Htype. rename Himp' into Himp.
    split; [exact Hrel|]. right. exists stored.
    split; [done|]. split; [done|]. split; [by rewrite Htype|].
    split. { intros [-> | ->]; subst types; by rewrite Htype. }
    split; [|done].
    intros ts -> Hne. subst types. destruct ts as [|t ts]; [done|]. by rewrite Htype.
Qed.

Lemma filter_none {A : Type} (f : A -> bool) (l : list A) :
  (∀ x, f x = false) -> List.filter f l = [].
Proof. intros Hf. induction l as [|x l IH]; simpl; [done|]. by rewrite Hf. Qed.

(** X25.  For the empty context [find_relevant_memories] returns
    the empty list, whatever the cache, the table, the types and the
    limit are (given that 0.3 rounds to a number that is not
    negative). *)
Theorem find_relevant_memories_empty_context (cache_values : list Memory)
    (memory_types : option (list MemoryType)) (limit : Z) (mm : MemoryManager) :
  (0 <= rnd (3 # 10))%Q ->
  find_relevant_memories rnd cache_values empty_context memory_types limit mm = [].
Proof.
  intros Hrnd. unfold find_relevant_memories.
  assert (∀ memory, relevant rnd empty_context memory = false) as Hnone.
  { intros memory. unfold relevant. rewrite relevance_empty_context.
    unfold Py.min. destruct (Qlt_le_dec 0 1); [|lra].
    destruct (Qlt_le_dec _ _); [lra|done]. }
  match goal with |- context [flat_map ?f ?l] =>
    assert (flat_map f l = []) as -> end.
  { match goal with |- flat_map _ ?tys = _ => induction tys as [|ty tys' IH] end; [done|].
    cbn [flat_map]. rewrite IH. unfold search_type.
    rewrite !filter_none by done. by destruct (bool_decide _). }
  unfold Py.slice, Py.sorted_desc. cbn [foldr].
  destruct (Z.ltb _ _); apply take_nil.
Qed.

(** X26.  [get_memory_stats] reports the size of the table, the size
    of the cache and one count for each of the four types, in the order
    of the enumeration.  The count of Working is the number of Working
    memories of the cache; the count of any other type is the number of
    rows of that type with an importance that is not negative, capped at
    1000; so no count exceeds the total it belongs to. *)
Theorem get_memory_stats_counts (mm : MemoryManager) :
  let stats := get_memory_stats mm in
  total_memories stats = Z.of_nat (size (storage mm)) ∧
  working_memory_count stats = Z.of_nat (size (working_memory mm)) ∧
  (memory_types stats).*1 = [EPISODIC; SEMANTIC; WORKING; PROCEDURAL] ∧
  ∀ t n, (t, n) ∈ memory_types stats ->
    0 <= n ∧
    (t = WORKING ->
     n = Z.of_nat (length (List.filter (fun m => bool_decide (type m = WORKING))
                             (map_to_list (working_memory mm)).*2))
     ∧ n <= working_memory_count stats) ∧
    (t ≠ WORKING ->
     n = Z.min 1000
           (Z.of_nat (length (List.filter (matches (Some t) 0)
                                (map_to_list (storage mm)))))
     ∧ n <= total_memories stats).
Proof.
  cbv zeta. unfold get_memory_stats.
  cbn [total_memories working_memory_count memory_types].
  split; [done|]. split; [done|]. split; [done|].
  intros t n Hin. apply list_elem_of_fmap in Hin as (t' & [= -> ->] & _).
  unfold type_count. split; [case_bool_decide; lia|]. split.
  - intros ->. rewrite bool_decide_eq_true_2 by done. split; [done|].
    pose proof (filter_length_le (fun m => bool_decide (type m = WORKING))
                  (map_to_list (working_memory mm)).*2) as Hle.
    rewrite length_fmap, length_map_to_list in Hle. lia.
  - intros Hne. rewrite bool_decide_eq_false_2 by done.
    unfold find_memories. rewrite collect_all by auto.
    rewrite app_nil_l, length_fmap, select_length by lia.
    split; [done|].
    pose proof (filter_length_le (matches (Some t') 0) (map_to_list (storage mm))) as Hle.
    rewrite length_map_to_list in Hle. unfold get_memory_count. lia.
Qed.

(** *** _consolidate_memories *)

Lemma delete_all_size_exact (ids : list string) (db : gmap string Row) (n : Z) :
  NoDup ids -> (∀ k, k ∈ ids -> is_Some (db !! k)) ->
  size db = (size (delete_all ids db n).1 + length ids)%nat.
Proof.
  revert db n. induction ids as [|i ids IH]; intros db n Hnd Hin; simpl; [lia|].
  apply NoDup_cons in Hnd as [Hi Hnd].
  assert (size (delete i db)
          = (size (delete_all ids (delete i db) (n + 1)).1 + length ids)%nat) as IH'.
  { apply IH; [done|]. intros k Hk. rewrite lookup_delete_ne; [apply Hin; by right|].
    intros ->. done. }
  assert (is_Some (db !! i)) as Hs by (apply Hin; by left).
  pose proof (map_size_delete_Some i db Hs) as Hd.
  destruct Hs as [row Hrow].
  assert (size db ≠ 0)%nat.
  { intros H0%map_size_empty_iff. subst db. by rewrite lookup_empty in Hrow. }
  destruct (size db); simpl in Hd; lia.
Qed.

Lemma candidates_NoDup (cutoff_date : Z) (db : gmap string Row) :
  NoDup (candidates rnd cutoff_date db).
Proof.
  unfold candidates. cbn [flat_map]. rewrite app_nil_r.
  assert (∀ ty, NoDup (id <$> List.filter (removable rnd cutoff_date)
                               (find_memories (Some ty) 0 1000 None db))) as Hnd.
  { intros ty. eapply sublist_NoDup; [|apply fmap_sublist, filter_sublist].
    apply find_memories_ids_NoDup. }
  assert (∀ ty k, k ∈ id <$> List.filter (removable rnd cutoff_date)
                               (find_memories (Some ty) 0 1000 None db) ->
                  ∃ row, db !! k = Some row ∧ col_type row = ty) as Hty.
  { intros ty k (memory & -> & Hin)%list_elem_of_fmap.
    apply list_elem_of_In, filter_In in Hin as [Hin%list_elem_of_In _].
    destruct (find_memories_elem _ _ _ _ _ _ Hin) as (row & Hrow & _ & Hm).
    apply matches_spec in Hm as [_ Ht].
    exists row. split; [done|]. by apply Ht. }
  apply NoDup_app. split; [apply Hnd|]. split; [|apply Hnd].
  intros k (row & Hrow & Ht)%Hty (row' & Hrow' & Ht')%Hty. congruence.
Qed.

(** X27.  The count [_consolidate_memories] logs is the number of
    rows it removed: the table shrinks by exactly that many rows, and
    the count is the number of removable memories found by the two
    queries, capped at 100. *)
Theorem consolidation_count_is_exact (mm : MemoryManager) (w : World) :
  let r := _consolidate_memories rnd mm w in
  let cutoff_date := clock w (ticks w) - 30 * 24 * 3600 * 1000000 in
  r.1.2 = Z.min 100 (Z.of_nat (length (candidates rnd cutoff_date (storage mm)))) ∧
  Z.of_nat (size (storage mm)) = Z.of_nat (size (storage r.1.1)) + r.1.2.
Proof.
  cbv beta iota zeta delta [_consolidate_memories datetime_now].
  set (cutoff := clock w (ticks w) - 30 * 24 * 3600 * 1000000).
  set (ids := Py.slice_to 100 (candidates rnd cutoff (storage mm))).
  assert (length ids = Nat.min 100 (length (candidates rnd cutoff (storage mm))))
    as Hlen by apply length_take.
  assert (sublist ids (candidates rnd cutoff (storage mm))) as Hsub
    by apply sublist_take.
  pose proof (delete_all_count ids (storage mm) 0) as Hcount.
  pose proof (delete_all_size_exact ids (storage mm) 0) as Hsize.
  destruct (delete_all ids (storage mm) 0) as [db removed].
  cbn [fst snd storage with_storage] in *.
  split; [lia|]. rewrite Hsize; [lia| |].
  - eapply sublist_NoDup; [apply candidates_NoDup|exact Hsub].
  - intros k Hk. eapply elem_of_sublist in Hk; [|exact Hsub].
    apply elem_of_candidates in Hk as (row & -> & _). eauto.
Qed.

End ManagerMemory.

(** *** The same on the demo table *)

Lemma find_memories_complete_witness :
  Mem.of_row "m2" (Demo.row Mem.EPISODIC (5 # 10) Demo.t0 0 ["x"])
  ∈ Mem.find_memories (Some Mem.EPISODIC) 0 3 (Some ["x"]) Demo.table.
Proof.
  apply (find_memories_complete (Some Mem.EPISODIC) 0 3 (Some ["x"]) Demo.table
           "m2" (Demo.row Mem.EPISODIC (5 # 10) Demo.t0 0 ["x"])).
  - right. vm_compute. discriminate.
  - vm_compute. reflexivity.
  - vm_compute. discriminate.
  - intros t [= <-]. reflexivity.
  - intros t ts [= <- <-]. exists "x". split; apply list_elem_of_here.
Defined.

Lemma store_memory_is_durable_witness :
  let r := Mem.store_memory Demo.exact "e1" (Py.PStr "a note") Mem.EPISODIC
             ["x"] Mem.empty_context [] Demo.manager Demo.world in
  r.1.1 = "e1" ∧
  Mem.working_memory r.1.2 = Mem.working_memory Demo.manager ∧
  ∃ memory,
    Mem.storage_retrieve_memory "e1" (Mem.storage (Mem.clear_working_memory r.1.2))
    = Some memory
    ∧ Mem.content memory = Py.PStr "a note" ∧ Mem.timestamp memory = Demo.t0.
Proof.
  destruct (store_memory_is_durable Demo.exact "e1" (Py.PStr "a note") Mem.EPISODIC
              ["x"] Mem.empty_context [] Demo.manager Demo.world)
    as (Hid & Hwm & _ & (memory & Hm & _ & Hc & _ & _ & _ & _ & Ht & _) & _).
  - discriminate.
  - split; [exact Hid|]. split; [exact Hwm|].
    exists memory. split; [exact Hm|]. split; [exact Hc|exact Ht].
Defined.

Lemma retrieve_memory_counts_access_witness :
  let r := Mem.retrieve_memory Demo.exact "old" Demo.manager Demo.world in
  ∃ memory,
    r.1.1 = Some memory ∧
    Mem.storage_retrieve_memory "old" (Mem.storage r.1.2) = Some memory ∧
    Mem.access_count memory = 0 + 1 ∧
    Mem.last_accessed memory = Some Demo.t0.
Proof.
  destruct (retrieve_memory_counts_access Demo.exact "old" Demo.manager Demo.world
              (Demo.row Mem.EPISODIC (1 # 10) (Demo.t0 - Demo.forty_days) 0 []))
    as (memory & H1 & H2 & H3 & H4 & _).
  - reflexivity.
  - vm_compute. reflexivity.
  - discriminate.
  - exists memory. split; [exact H1|]. split; [exact H2|]. split; [exact H3|].
    rewrite H4. vm_compute. reflexivity.
Defined.

Lemma retrieve_cached_memory_witness :
  let r := Mem.retrieve_memory Demo.exact "w1" Demo.caching_manager Demo.world in
  ∃ memory,
    r.1.1 = Some memory ∧
    Mem.working_memory r.1.2 !! "w1" = Some memory ∧
    Mem.access_count memory = Mem.access_count Demo.cached + 1 ∧
    Mem.storage r.1.2 = Mem.storage Demo.caching_manager.
Proof.
  destruct (retrieve_cached_memory Demo.exact "w1" Demo.caching_manager Demo.world
              Demo.cached)
    as (memory & H1 & H2 & H3 & _ & _ & _ & H4 & _).
  - vm_compute. reflexivity.
  - reflexivity.
  - exists memory. split; [exact H1|]. split; [exact H2|]. split; [exact H3|exact H4].
Defined.

Lemma relevance_in_unit_interval_witness :
  (0 <= Mem._calculate_relevance Demo.exact Demo.cached
          {| Mem.ctx_tags := ["x"; "y"]; Mem.ctx_current_states := [];
             Mem.ctx_content := "a note" |} <= 1)%Q.
Proof.
  destruct (relevance_in_unit_interval Demo.exact Demo.cached
              {| Mem.ctx_tags := ["x"; "y"]; Mem.ctx_current_states := [];
                 Mem.ctx_content := "a note" |}) as (Hrel & _).
  - intros q Hq. exact Hq.
  - exact Hrel.
Defined.

Lemma find_relevant_memories_empty_context_witness :
  Mem.find_relevant_memories Demo.exact [Demo.cached] Mem.empty_context
    (Some [Mem.WORKING; Mem.EPISODIC]) 10 Demo.caching_manager = [].
Proof.
  apply (find_relevant_memories_empty_context Demo.exact).
  vm_compute. discriminate.
Defined.

(** ** The configuration: merging a dict of updates *)

Section ConfigFacts.

Import Config.

Context {Scalar : Type}.
Implicit Types (d base update : list (string * Value Scalar)) (value : Value Scalar).

Lemma deep_update_cons base key value update :
  _deep_update base ((key, value) :: update)
  = _deep_update (dict_set key (merged (dict_get key base) value) base) update.
Proof.
  unfold _deep_update, merged. cbn [deep_update_value].
  destruct (dict_get key base) as [[|sub]|], value as [|items]; reflexivity.
Qed.

Lemma deep_update_nil base : _deep_update base [] = base.
Proof. reflexivity. Qed.

Lemma dict_get_set_eq key value d : dict_get key (dict_set key value d) = Some value.
Proof.
  induction d as [|[k v] d IH]; simpl.
  - by rewrite String.eqb_refl.
  - destruct (String.eqb k key) eqn:Hk; simpl; rewrite Hk; [done|exact IH].
Qed.

Lemma dict_get_set_ne key key' value d :
  key ≠ key' -> dict_get key (dict_set key' value d) = dict_get key d.
Proof.
  intros Hne. induction d as [|[k v] d IH]; simpl.
  - apply String.eqb_neq in Hne. rewrite String.eqb_sym in Hne. by rewrite Hne.
  - destruct (String.eqb k key') eqn:Hk; simpl.
    + apply String.eqb_eq in Hk as ->.
      assert (String.eqb key' key = false) as ->; [|done].
      apply String.eqb_neq. congruence.
    + by rewrite IH.
Qed.

Lemma dict_get_None key d : dict_get key d = None <-> key ∉ keys d.
Proof.
  unfold keys. induction d as [|[k v] d IH]; simpl.
  - split; [intros _ H; by apply elem_of_nil in H|done].
  - destruct (String.eqb k key) eqn:Hk.
    + apply String.eqb_eq in Hk as ->. split; [done|]. intros H. exfalso. apply H. by left.
    + apply String.eqb_neq in Hk. rewrite IH. rewrite not_elem_of_cons. naive_solver.
Qed.

Lemma keys_dict_set key value d :
  keys (dict_set key value d)
  = (keys d ++ (if decide (key ∈ keys d) then [] else [key]))%list.
Proof.
  unfold keys. induction d as [|[k v] d IH].
  - cbn [dict_set fmap list_fmap fst app].
    destruct (decide (key ∈ [])) as [H|]; [by apply elem_of_nil in H|done].
  - cbn [dict_set]. destruct (String.eqb k key) eqn:Hk.
    + apply String.eqb_eq in Hk as ->. rewrite !fmap_cons. cbn [fst].
      rewrite decide_True by (by left). by rewrite app_nil_r.
    + apply String.eqb_neq in Hk. rewrite !fmap_cons, IH. cbn [fst].
      rewrite <- app_comm_cons. f_equal. f_equal.
      destruct (decide (key ∈ d.*1)) as [Hin|Hin].
      * rewrite decide_True; [done|]. by right.
      * rewrite decide_False; [done|]. rewrite not_elem_of_cons. naive_solver.
Qed.

(** X29.  After [_deep_update(base_dict, update_dict)] a key the
    update does not name has the value it had; a key the update names
    has the value of the update, except when the old and the new value
    are both dicts: then it has the old dict, updated in the same way by
    the new one. *)
Theorem deep_update_lookup base update key :
  NoDup (keys update) ->
  dict_get key (_deep_update base update)
  = match dict_get key update with
    | Some value => Some (merged (dict_get key base) value)
    | None => dict_get key base
    end.
Proof.
  unfold keys. revert base. induction update as [|[k v] update IH]; intros base Hnd.
  - reflexivity.
  - rewrite fmap_cons in Hnd. apply NoDup_cons in Hnd as [Hk Hnd]. simpl in Hk.
    rewrite deep_update_cons, IH by done. cbn [dict_get].
    destruct (String.eqb k key) eqn:Hkey.
    + apply String.eqb_eq in Hkey as ->.
      apply dict_get_None in Hk. rewrite Hk. apply dict_get_set_eq.
    + apply String.eqb_neq in Hkey.
      rewrite dict_get_set_ne by congruence. done.
Qed.

(** X30.  [_deep_update] removes no key and keeps the order of the
    dict: the keys of the result are those of [base_dict] in their
    order, followed by the keys of the update that are new, in their
    order; and a dict with distinct keys stays one. *)
Theorem deep_update_keys base update :
  NoDup (keys update) ->
  keys (_deep_update base update)
  = (keys base ++ List.filter (fun key => bool_decide (key ∉ keys base)) (keys update))%list
  ∧ (NoDup (keys base) -> NoDup (keys (_deep_update base update))).
Proof.
  revert base. induction update as [|[k v] update IH]; intros base Hnd.
  - rewrite deep_update_nil. simpl. by rewrite app_nil_r.
  - unfold keys in Hnd. rewrite fmap_cons in Hnd.
    apply NoDup_cons in Hnd as [Hk Hnd]. simpl in Hk.
    rewrite deep_update_cons.
    destruct (IH (dict_set k (merged (dict_get k base) v) base) Hnd) as [IHk IHnd].
    split.
    + rewrite IHk, keys_dict_set.
      change (keys ((k, v) :: update)) with (k :: keys update). cbn [List.filter].
      destruct (decide (k ∈ keys base)) as [Hin|Hin].
      * rewrite bool_decide_eq_false_2 by (by intros ?). by rewrite app_nil_r.
      * rewrite bool_decide_eq_true_2 by done. rewrite <- app_assoc. simpl.
        do 2 f_equal. apply filter_ext_in. intros key Hkey%list_elem_of_In.
        apply bool_decide_ext. rewrite not_elem_of_app, not_elem_of_cons.
        split; [naive_solver|]. intros H. split; [done|]. split; [|apply not_elem_of_nil].
        intros ->. done.
    + intros Hbase. apply IHnd. rewrite keys_dict_set.
      destruct (decide (k ∈ keys base)); [by rewrite app_nil_r|].
      apply NoDup_app. split; [done|]. split; [|apply NoDup_singleton].
      intros x Hx ->%list_elem_of_singleton. done.
Qed.

End ConfigFacts.

Lemma deep_update_lookup_witness :
  Config.dict_get "llm" (Config._deep_update Demo.config_dict Demo.config_updates)
  = match Config.dict_get "llm" Demo.config_updates with
    | Some value => Some (Config.merged (Config.dict_get "llm" Demo.config_dict) value)
    | None => Config.dict_get "llm" Demo.config_dict
    end.
Proof.
  apply (deep_update_lookup Demo.config_dict Demo.config_updates "llm").
  apply (bool_decide_eq_true_1 _). vm_compute. reflexivity.
Defined.

Lemma deep_update_keys_witness :
  Config.keys (Config._deep_update Demo.config_dict Demo.config_updates)
  = (Config.keys Demo.config_dict
     ++ List.filter (fun key => bool_decide (key ∉ Config.keys Demo.config_dict))
          (Config.keys Demo.config_updates))%list
  ∧ (NoDup (Config.keys Demo.config_dict) ->
     NoDup (Config.keys (Config._deep_update Demo.config_dict Demo.config_updates))).
Proof.
  apply (deep_update_keys Demo.config_dict Demo.config_updates).
  apply (bool_decide_eq_true_1 _). vm_compute. reflexivity.
Defined.

Example deep_update_of_a_configuration :
  Config._deep_update Demo.config_dict Demo.config_updates
  = [("debug", Config.Leaf (Py.PBool false));
     ("llm", Config.Dict [("model", Config.Leaf (Py.PStr "gpt-4"));
                           ("timeout", Config.Leaf (Py.PInt 60))]);
     ("port", Config.Leaf (Py.PInt 8000));
     ("theme", Config.Leaf (Py.PStr "dark"))].
Proof. reflexivity. Qed.
